(** * langchain-learning: a verification model of the tutorial pipelines

    The development embeds, function by function, the parts of

      - week1-session1/code/session1-example1.js  (class HinglishChainPro)
      - week1-session1/code/hinglish-chain.js     (class HinglishChain)
      - week1-session1/code/agent-chat.js         (analyzeHinglish, analyzeSentiment)

    that the specification speaks about, and with them their callers and
    neighbours: [demo], the tools, prompt and chat loop of agent-chat.js,
    the fast chat and the setup script of setup-verification.js, and the
    speed test.  Asynchronous methods are run to
    completion one at a time, so [await] is sequencing in a state-and-exception
    monad whose state holds the object's mutable field, the counters of the
    external collaborator and the trace of observable effects. *)

From Stdlib Require Import ZArith QArith Qminmax String Ascii List Lia Bool.
From Stdlib Require Import Sorted Permutation.
From stdpp Require Import base strings gmap list pretty.

Close Scope Q_scope.
Set Warnings "-register-all".

(* ====================================================================== *)
(** ** JavaScript values shared by the three files                         *)
(* ====================================================================== *)

Module JS.

(** The double quote, for the template literals that print one. *)
Definition dquote : string := String (ascii_of_nat 34) "".

(** The line feed of the template literals that start with one. *)
Definition newline : string := String (ascii_of_nat 10) "".

(** What the code reads of a thrown value: [error.name], [error.code]
    (absent on most errors) and [error.message]. *)
Record error := mkError {
  name : string;
  code : option string;
  message : string;
}.

(** [new Error(msg)]. *)
Definition new_Error (msg : string) : error :=
  {| name := "Error"; code := None; message := msg |}.

(** The [TypeError] raised by reading a property of [undefined]. *)
Definition TypeError_undefined (prop : string) : error :=
  {| name := "TypeError"; code := None;
     message := "Cannot read properties of undefined (reading '" +:+ prop +:+ "')" |}.

(** The [TypeError] raised by [null.invoke(...)]. *)
Definition TypeError_null (prop : string) : error :=
  {| name := "TypeError"; code := None;
     message := "Cannot read properties of null (reading '" +:+ prop +:+ "')" |}.

(** Parsed JSON, the values a structured chain returns. Numbers are
    rationals: the code only compares them and passes them on. *)
Inductive json :=
| JNull
| JBool (b : bool)
| JNum (q : Q)
| JStr (s : string)
| JArr (xs : list json)
| JObj (m : gmap string json).

(** A stream element: LangChain yields message chunks carrying [content];
    a chain that ends in a string parser yields primitive strings. *)
Inductive chunk :=
| chunk_string (s : string)
| chunk_message (content : string).

(** The value of [chunk.content || chunk]: a string, or the chunk object
    itself. *)
Inductive token :=
| tok_text (s : string)
| tok_object (c : chunk).

(** [a || b] on an optional string: [undefined] and the empty string are
    falsy. *)
Definition or_string (a : option string) (b : string) : string :=
  match a with
  | Some s => if String.eqb s "" then b else s
  | None => b
  end.

(** [a || b] on an optional number: [undefined] and [0] are falsy. *)
Definition or_number (a : option Z) (b : Z) : Z :=
  match a with
  | Some n => if (n =? 0)%Z then b else n
  | None => b
  end.

(** [chunk.content || chunk]. A primitive string has no [content]. *)
Definition content_or_chunk (c : chunk) : token :=
  match c with
  | chunk_string s => tok_text s
  | chunk_message content =>
      if String.eqb content "" then tok_object c else tok_text content
  end.

(** String coercion in [fullText += content]. An object without a
    [toString] of its own prints as [[object Tag]]; [tag] is the object's
    [Symbol.toStringTag], [Object] when the class declares none. *)
Definition to_string (tag : string) (t : token) : string :=
  match t with
  | tok_text s => s
  | tok_object (chunk_string s) => s
  | tok_object (chunk_message _) => "[object " +:+ tag +:+ "]"
  end.

(** The text a chunk carries. *)
Definition chunk_text (c : chunk) : string :=
  match c with
  | chunk_string s => s
  | chunk_message content => content
  end.

(** The methods every object literal inherits from [Object.prototype]. *)
Definition Object_prototype_methods : list string :=
  [ "toString"; "toLocaleString"; "valueOf"; "hasOwnProperty";
    "isPrototypeOf"; "propertyIsEnumerable"; "__defineGetter__";
    "__defineSetter__"; "__lookupGetter__"; "__lookupSetter__" ].

(** [obj[k]] for an object literal [obj] without an own property [k], as
    the string a template literal makes of it: [undefined] is [None]; an
    inherited method prints as a native function, [constructor] is the
    function [Object], and [__proto__] is [Object.prototype] itself. All of
    them are truthy. *)
Definition inherited_property (k : string) : option string :=
  if String.eqb k "__proto__" then Some "[object Object]"
  else if String.eqb k "constructor" then
    Some "function Object() { [native code] }"
  else if existsb (String.eqb k) Object_prototype_methods then
    Some ("function " +:+ k +:+ "() { [native code] }")
  else None.

End JS.

(* ====================================================================== *)
(** ** Effects: state, exceptions and the trace                            *)
(* ====================================================================== *)

Module Eff.
Import JS.

(** Observable effects, in the order the code performs them. *)
Inductive event :=
| ev_log (line : string)                       (* console.log *)
| ev_error (line : string)                     (* console.error *)
| ev_stdout (text : string)                    (* process.stdout.write *)
| ev_invoke (chain : nat) (text : string)      (* this.chain.invoke *)
| ev_stream (text : string)                    (* prompt.pipe(llm).stream *)
| ev_chat (msg : string)                       (* prompt.pipe(llm).invoke *)
| ev_sleep (ms : Z)                            (* setTimeout *)
| ev_onToken (tok : token).                    (* onToken(content) *)

(** The mutable world of one pipeline object: its [chain] field ([null]
    until built; a built chain is known by the number of its construction),
    how many chains were constructed, how many calls the model collaborator
    has received, and the trace, oldest effect first. *)
Record state := mkState {
  chain : option nat;
  built : nat;
  calls : nat;
  trace : list event;
}.

(** The state right after [new HinglishChain(...)] or
    [new HinglishChainPro(...)]: [this.chain = null]. *)
Definition fresh : state :=
  {| chain := None; built := 0; calls := 0; trace := [] |}.

Inductive outcome (A : Type) :=
| Return (a : A)
| Throw (e : error).
Arguments Return {A} a.
Arguments Throw {A} e.

Definition M (A : Type) : Type := state -> outcome A * state.

Definition ret {A} (a : A) : M A := fun s => (Return a, s).
Definition throw {A} (e : error) : M A := fun s => (Throw e, s).
Definition bind {A B} (m : M A) (k : A -> M B) : M B :=
  fun s => match m s with
           | (Return a, s') => k a s'
           | (Throw e, s') => (Throw e, s')
           end.
(** [try { m } catch (error) { h error }] *)
Definition try_catch {A} (m : M A) (h : error -> M A) : M A :=
  fun s => match m s with
           | (Return a, s') => (Return a, s')
           | (Throw e, s') => h e s'
           end.

Definition emit (e : event) : M unit :=
  fun s => (Return tt, {| chain := chain s; built := built s; calls := calls s;
                          trace := trace s ++ [e] |}).
Definition get_chain : M (option nat) := fun s => (Return (chain s), s).
Definition set_chain (c : nat) : M unit :=
  fun s => (Return tt, {| chain := Some c; built := built s; calls := calls s;
                          trace := trace s |}).
(** Construct one more chain object and return its number. *)
Definition construct_chain : M nat :=
  fun s => (Return (built s), {| chain := chain s; built := S (built s);
                                 calls := calls s; trace := trace s |}).
(** Count one more call to the collaborator and return its index. *)
Definition next_call : M nat :=
  fun s => (Return (calls s), {| chain := chain s; built := built s;
                                 calls := S (calls s); trace := trace s |}).

Definition lift {A} (o : outcome A) : M A := fun s => (o, s).

Definition console_log (line : string) : M unit := emit (ev_log line).
Definition console_error (line : string) : M unit := emit (ev_error line).
(** [await new Promise(resolve => setTimeout(resolve, ms))] *)
Definition sleep (ms : Z) : M unit := emit (ev_sleep ms).

(** The monad's sequencing, written with stdpp's [x ← m; k] and [m;; k]. *)
#[global] Instance M_ret : MRet M := @ret.
#[global] Instance M_bind : MBind M := fun A B k m => bind m k.

End Eff.

(* ====================================================================== *)
(** ** session1-example1.js: class HinglishChainPro                        *)
(* ====================================================================== *)

Module HinglishChainPro.
Import JS Eff.

(** The [options] argument of the constructor; every field may be absent. *)
Record options := mkOptions {
  opt_maxRetries : option Z;
  opt_retryDelay : option Z;
  opt_timeout : option Z;
}.

(** [options = {}] *)
Definition no_options : options :=
  {| opt_maxRetries := None; opt_retryDelay := None; opt_timeout := None |}.

(** The fields the constructor sets and no method changes. *)
Record config := mkConfig {
  modelName : string;
  maxRetries : Z;
  retryDelay : Z;
  timeout : Z;
}.

(** [constructor(modelName = "kimi-k2.5:cloud", options = {})]; the [chain]
    field it sets to [null] is [Eff.fresh]. *)
Definition constructor (model : option string) (opts : options) : config :=
  {| modelName := default "kimi-k2.5:cloud" model;
     maxRetries := or_number (opt_maxRetries opts) 3;
     retryDelay := or_number (opt_retryDelay opts) 1000;
     timeout := or_number (opt_timeout opts) 30000 |}.

(** What the stream of one call delivers: the call itself may fail, and a
    stream that opened delivers its chunks and then ends or fails. *)
Inductive streaming :=
| stream_refused (e : error)
| stream_of (chunks : list chunk) (failure : option error).

(** The calls a caller can make on the object. *)
Inductive call :=
| call_init
| call_translate (text : string)
| call_translateStreamRaw (text : string) (onToken : bool)
| call_translateWithRetry (text : string)
| call_chat (message : string) (history : option (list (string * string))).

Section Methods.

(** The model collaborator, by the index of the call it receives:
    [this.chain.invoke], [prompt.pipe(llm).stream] and the [invoke] of
    [chat]. A structured chain answers with the parsed value or throws. *)
Variable chain_invoke : nat -> string -> outcome json.
Variable llm_stream : nat -> string -> streaming.
Variable llm_chat : nat -> string -> list (string * string) -> outcome string.

(** [Symbol.toStringTag] of the message chunks the library yields. *)
Variable chunk_tag : string.

Variable this : config.

(** [async init()] *)
Definition init : M unit :=
  c ← get_chain;
  match c with
  | Some _ => ret tt
  | None =>
      fresh_chain ← construct_chain;
      set_chain fresh_chain
  end.

(** [async translate(text)] *)
Definition translate (text : string) : M json :=
  init;;
  try_catch
    (console_log ("🔄 Translating: " +:+ dquote +:+ text +:+ dquote);;
     c ← get_chain;
     result ← match c with
              | None => throw (TypeError_null "invoke")
              | Some c =>
                  emit (ev_invoke c text);;
                  n ← next_call;
                  lift (chain_invoke n text)
              end;
     console_log "✅ Translation complete!";;
     ret result)
    (fun error =>
       if bool_decide (code error = Some "ECONNREFUSED") then
         throw (new_Error "Ollama is not running! Start with: ollama serve")
       else if bool_decide (name error = "OutputParserException") then
         throw (new_Error "Model returned invalid JSON. Try again.")
       else throw error).

(** The table [errorMap] of [handleError]. *)
Definition errorMap : list (string * string) :=
  [ ("ECONNREFUSED", "⚠️  Cannot connect to Ollama. Is it running?");
    ("ENOTFOUND", "⚠️  Ollama server not found. Check your setup.");
    ("ETIMEDOUT", "⚠️  Request timed out. Model might be busy.");
    ("ECONNRESET", "⚠️  Connection lost. Please try again.") ].

(** [m[k]] for the object literal [m], as the string a template literal
    makes of it: the value of the own property [k], or else what the
    literal inherits under that name. *)
Fixpoint lookup_key (k : string) (m : list (string * string)) : option string :=
  match m with
  | [] => inherited_property k
  | (k', v) :: rest => if String.eqb k k' then Some v else lookup_key k rest
  end.

(** [errorMap[error.code] || error.message] *)
Definition handleError_message (error : error) : string :=
  or_string (c ← code error; lookup_key c errorMap) (message error).

(** [handleError(error)]: the log line and the new error. *)
Definition handleError (error : error) : M JS.error :=
  let message := handleError_message error in
  console_error (newline +:+ "❌ Error: " +:+ message);;
  ret (new_Error message).

(** [process.stdout.write(content)]: Node accepts a string and throws on an
    object that is no buffer. *)
Definition stdout_write (content : token) : M unit :=
  match content with
  | tok_text s => emit (ev_stdout s)
  | tok_object (chunk_string s) => emit (ev_stdout s)
  | tok_object (chunk_message _) =>
      throw {| name := "TypeError"; code := Some "ERR_INVALID_ARG_TYPE";
               message := "The chunk argument must be of type string" |}
  end.

(** The body of [for await (const chunk of stream)], over what the stream
    still holds; [failure] is how the stream ends after its last chunk. *)
Fixpoint for_await (onToken : bool) (stream : list chunk)
    (failure : option error) (fullText : string) : M string :=
  match stream with
  | [] =>
      match failure with
      | Some e => throw e
      | None => ret fullText
      end
  | chunk :: rest =>
      let content := content_or_chunk chunk in
      let fullText := fullText +:+ to_string chunk_tag content in
      (if onToken then emit (ev_onToken content) else stdout_write content);;
      for_await onToken rest failure fullText
  end.

(** [async translateStreamRaw(text, onToken)]; [onToken] says whether the
    caller passed a sink, whose calls the trace records. *)
Definition translateStreamRaw (text : string) (onToken : bool) : M json :=
  init;;
  console_log ("🔄 Streaming translation: " +:+ dquote +:+ text +:+ dquote +:+ newline);;
  try_catch
    (emit (ev_stream text);;
     n ← next_call;
     fullText ← match llm_stream n text with
                | stream_refused e => throw e
                | stream_of chunks failure => for_await onToken chunks failure ""
                end;
     console_log (newline +:+ "✅ Stream complete!");;
     ret (JObj {[ "translated_text" := JStr fullText ]}))
    (fun error => e ← handleError error; throw e).

(** The [for] loop of [translateWithRetry] over the attempt numbers still
    to run; [lastError] is [undefined] until an attempt has failed. *)
Fixpoint retry_attempts (text : string) (attempts : list Z)
    (lastError : option error) : M json :=
  match attempts with
  | [] =>
      match lastError with
      | None => throw (TypeError_undefined "message")
      | Some lastError =>
          throw (new_Error ("Failed after " +:+ pretty (maxRetries this)
                            +:+ " attempts: " +:+ message lastError))
      end
  | attempt :: rest =>
      try_catch
        (console_log ("🔄 Attempt " +:+ pretty attempt +:+ "/"
                      +:+ pretty (maxRetries this) +:+ "...");;
         translate text)
        (fun error =>
           console_log ("❌ Attempt " +:+ pretty attempt +:+ " failed: "
                        +:+ message error);;
           if bool_decide (name error = "OutputParserException") then
             throw error
           else
             (if (attempt <? maxRetries this)%Z then
                console_log ("⏳ Retrying in " +:+ pretty (retryDelay this)
                             +:+ "ms...");;
                sleep (retryDelay this)
              else ret tt);;
             retry_attempts text rest (Some error))
  end.

(** [async translateWithRetry(text)]: [attempt] runs from 1 while
    [attempt <= this.maxRetries]. *)
Definition translateWithRetry (text : string) : M json :=
  retry_attempts text (seqZ 1 (maxRetries this)) None.

(** [async chat(message, history = [])] *)
Definition chat (message : string) (history : option (list (string * string)))
    : M string :=
  try_catch
    (emit (ev_chat message);;
     n ← next_call;
     content ← lift (llm_chat n message (default [] history));
     ret content)
    (fun error => e ← handleError error; throw e).

(** A caller of the object, as [demo()] is one: it awaits one call after
    the other and prints the message of what a call throws. *)
Definition caught {A} (m : M A) : M unit :=
  try_catch (_ ← m; ret tt) (fun e => console_error (message e)).

Definition run_call (c : call) : M unit :=
  match c with
  | call_init => init
  | call_translate text => caught (translate text)
  | call_translateStreamRaw text onToken =>
      caught (translateStreamRaw text onToken)
  | call_translateWithRetry text => caught (translateWithRetry text)
  | call_chat message history => caught (chat message history)
  end.

Fixpoint run_calls (cs : list call) : M unit :=
  match cs with
  | [] => ret tt
  | c :: rest => run_call c;; run_calls rest
  end.

(** [translateStreamRaw(text, onToken)] for a sink given as code: the loop
    calls the sink, which the trace records, and then runs its body. *)
Fixpoint for_await_sink (sink : token -> M unit) (stream : list chunk)
    (failure : option error) (fullText : string) : M string :=
  match stream with
  | [] =>
      match failure with
      | Some e => throw e
      | None => ret fullText
      end
  | chunk :: rest =>
      let content := content_or_chunk chunk in
      let fullText := fullText +:+ to_string chunk_tag content in
      emit (ev_onToken content);;
      sink content;;
      for_await_sink sink rest failure fullText
  end.

Definition translateStreamRaw_sink (text : string) (sink : token -> M unit)
    : M json :=
  init;;
  console_log ("🔄 Streaming translation: " +:+ dquote +:+ text +:+ dquote +:+ newline);;
  try_catch
    (emit (ev_stream text);;
     n ← next_call;
     fullText ← match llm_stream n text with
                | stream_refused e => throw e
                | stream_of chunks failure =>
                    for_await_sink sink chunks failure ""
                end;
     console_log (newline +:+ "✅ Stream complete!");;
     ret (JObj {[ "translated_text" := JStr fullText ]}))
    (fun error => e ← handleError error; throw e).

End Methods.

(** ** [demo()], the caller at the end of the file *)

Section Demo.

Variable chain_invoke : nat -> string -> outcome json.
Variable llm_stream : nat -> string -> streaming.
Variable llm_chat : nat -> string -> list (string * string) -> outcome string.
Variable chunk_tag : string.

(** [JSON.stringify(value, null, 2)], and the text [console.log] prints for
    a value that may be [undefined]. *)
Variable JSON_stringify : json -> string.
Variable inspect : option json -> string.

(** [s.repeat(n)] *)
Fixpoint repeat_string (s : string) (n : nat) : string :=
  match n with
  | O => ""
  | S n' => s +:+ repeat_string s n'
  end.

(** [result.translated_text]: a property of [null] cannot be read, a value
    without the property gives [undefined]. *)
Definition get_translated_text (result : json) : M (option json) :=
  match result with
  | JNull => throw (TypeError_null "translated_text")
  | JObj m => ret (m !! "translated_text")
  | _ => ret None
  end.

(** [new HinglishChainPro("kimi-k2.5:cloud", {maxRetries: 3, retryDelay:
    1000})]: the fields of the object, and its [chain] set to [null]. *)
Definition demo_object : config :=
  constructor (Some "kimi-k2.5:cloud")
    {| opt_maxRetries := Some 3%Z; opt_retryDelay := Some 1000%Z;
       opt_timeout := None |}.

Definition new_object : M unit :=
  fun s => (Return tt, {| chain := None; built := built s; calls := calls s;
                          trace := trace s |}).

Definition demo_translate : M unit :=
  console_log (repeat_string "=" 60);;
  console_log ("DEMO 1: NORMAL TRANSLATION" +:+ newline);;
  console_log (repeat_string "=" 60);;
  try_catch
    (result ← translate chain_invoke "kya baat hai yaar!";
     console_log (newline +:+ "Result: " +:+ JSON_stringify result))
    (fun e => console_error (message e)).

Definition demo_streaming : M unit :=
  console_log (newline +:+ repeat_string "=" 60);;
  console_log "DEMO 2: STREAMING (Watch it generate!)";;
  console_log (repeat_string "=" 60 +:+ newline);;
  try_catch
    (_ ← translateStreamRaw_sink llm_stream chunk_tag "mast hai yaar"
           stdout_write;
     console_log newline)
    (fun e => console_error (message e)).

Definition demo_retry : M unit :=
  console_log (newline +:+ repeat_string "=" 60);;
  console_log "DEMO 3: WITH RETRY LOGIC";;
  console_log (repeat_string "=" 60 +:+ newline);;
  try_catch
    (result ← translateWithRetry chain_invoke demo_object "kitna badiya hai";
     text ← get_translated_text result;
     console_log (newline +:+ "Result: " +:+ inspect text))
    (fun e => console_error (message e)).

Definition demo_chat : M unit :=
  console_log (newline +:+ repeat_string "=" 60);;
  console_log "DEMO 4: CHAT MODE (Friendly conversation)";;
  console_log (repeat_string "=" 60 +:+ newline);;
  try_catch
    (response1 ← chat llm_chat "Yaar, aaj bohot thak gaya hun" None;
     console_log "User: Yaar, aaj bohot thak gaya hun";;
     console_log ("Friend: " +:+ response1);;
     console_log "";;
     let history := [ ("human", "Yaar, aaj bohot thak gaya hun");
                      ("ai", response1) ] in
     response2 ← chat llm_chat "Kya karun samajh nahi aa raha" (Some history);
     console_log "User: Kya karun samajh nahi aa raha";;
     console_log ("Friend: " +:+ response2))
    (fun e => console_error (message e)).

(** [async function demo()] *)
Definition demo : M unit :=
  new_object;;
  demo_translate;;
  demo_streaming;;
  demo_retry;;
  demo_chat.

End Demo.

End HinglishChainPro.

(* ====================================================================== *)
(** ** hinglish-chain.js: class HinglishChain                              *)
(* ====================================================================== *)

Module HinglishChain.
Import JS Eff.

(** The calls a caller can make on the object. *)
Inductive call :=
| call_init
| call_translate (text : string).

Section Methods.

(** [this.chain.invoke], by the index of the call it receives. *)
Variable chain_invoke : nat -> string -> outcome json.

(** [async init()]: build the chain on first use. *)
Definition init : M unit :=
  c ← get_chain;
  match c with
  | Some _ => ret tt
  | None =>
      fresh_chain ← construct_chain;
      set_chain fresh_chain
  end.

(** [async translate(text)]: no handler, an error of the chain passes
    through. *)
Definition translate (text : string) : M json :=
  init;;
  c ← get_chain;
  match c with
  | None => throw (TypeError_null "invoke")
  | Some c =>
      emit (ev_invoke c text);;
      n ← next_call;
      lift (chain_invoke n text)
  end.

(** A caller that awaits one call after the other and prints the message
    of what a call throws. *)
Definition run_call (c : call) : M unit :=
  match c with
  | call_init => init
  | call_translate text =>
      try_catch (_ ← translate text; ret tt)
                (fun e => console_error (message e))
  end.

Fixpoint run_calls (cs : list call) : M unit :=
  match cs with
  | [] => ret tt
  | c :: rest => run_call c;; run_calls rest
  end.

End Methods.
End HinglishChain.

(* ====================================================================== *)
(** ** agent-chat.js: the keyword tools                                    *)
(* ====================================================================== *)

Module AgentChat.

(** [text.includes(word)]: [word] occurs in [text] as a substring. *)
Fixpoint includes (text word : string) : bool :=
  if String.prefix word text then true
  else match text with
       | EmptyString => false
       | String _ rest => includes rest word
       end.

(** An object literal keeps one entry per key: a repeated key keeps its
    first position and takes the last value. *)
Fixpoint set_property (obj : list (string * string)) (k v : string)
    : list (string * string) :=
  match obj with
  | [] => [(k, v)]
  | (k', v') :: rest =>
      if String.eqb k k' then (k', v) :: rest
      else (k', v') :: set_property rest k v
  end.

Definition object_literal (entries : list (string * string))
    : list (string * string) :=
  fold_left (fun obj kv => set_property obj (fst kv) (snd kv)) entries [].

(** [Object.keys(obj)] *)
Definition Object_keys (obj : list (string * string)) : list string :=
  map fst obj.

(** [obj[k]] for a key that the object has; [undefined] prints as such. *)
Fixpoint get_property (obj : list (string * string)) (k : string) : string :=
  match obj with
  | [] => "undefined"
  | (k', v) :: rest => if String.eqb k k' then v else get_property rest k
  end.

(** The dictionary of [analyzeHinglish], entry by entry as written. *)
Definition dictionary_entries : list (string * string) :=
  [ ("kya", "what"); ("baat", "thing/matter"); ("hai", "is");
    ("yaar", "friend/buddy"); ("mast", "awesome"); ("thak", "tired");
    ("gaya", "gone/became"); ("kar", "do"); ("raha", "doing");
    ("acha", "good"); ("bohot", "very"); ("nahi", "no/not");
    ("kuch", "something"); ("samajh", "understand"); ("aa", "come");
    ("rhi", "doing (fem)"); ("rha", "doing (masc)"); ("hai", "is");
    ("ka", "what/of"); ("kahan", "where"); ("kab", "when");
    ("kaise", "how"); ("kyun", "why"); ("kitna", "how much");
    ("badiya", "great"); ("badhiya", "great"); ("lage", "seem/feel");
    ("sahi", "correct/good"); ("galat", "wrong"); ("han", "yes");
    ("hmm", "uh huh"); ("haha", "laughter"); ("lol", "lol");
    ("arre", "oh hey"); ("chal", "let's go/move"); ("chalo", "come on");
    ("sun", "listen"); ("bol", "speak/say"); ("bolo", "please say");
    ("acha", "okay"); ("theek", "okay/fine"); ("bas", "enough/stop");
    ("nahi", "no"); ("hmm", "mhm"); ("arey", "oh hey");
    ("yaar", "friend"); ("dost", "friend"); ("bhai", "brother/friend") ].

Definition dictionary : list (string * string) :=
  object_literal dictionary_entries.

(** [\w] of a regular expression without the unicode flag. *)
Definition is_word_char (c : ascii) : bool :=
  let n := nat_of_ascii c in
  (((48 <=? n) && (n <=? 57)) || ((65 <=? n) && (n <=? 90))
   || ((97 <=? n) && (n <=? 122)) || (n =? 95))%nat.

(** Case folding of the [i] flag on the characters the patterns use. *)
Definition fold_case (c : ascii) : ascii :=
  let n := nat_of_ascii c in
  if ((65 <=? n) && (n <=? 90))%nat then ascii_of_nat (n + 32) else c.

(** [\b] between two neighbours, either of which may be the end. *)
Definition word_boundary (before after : option ascii) : bool :=
  xorb (from_option is_word_char false before)
       (from_option is_word_char false after).

Definition first_char (s : string) : option ascii :=
  match s with
  | EmptyString => None
  | String c _ => Some c
  end.

(** [pattern] matches at the head of [s] up to case, and a [\b] follows;
    [last] is the character before the position. *)
Fixpoint match_here (pattern s : string) (last : option ascii) : bool :=
  match pattern with
  | EmptyString => word_boundary last (first_char s)
  | String p pattern' =>
      match s with
      | EmptyString => false
      | String c s' =>
          if Ascii.eqb (fold_case p) (fold_case c)
          then match_here pattern' s' (Some c)
          else false
      end
  end.

(** [s.replace(new RegExp(`\\b${word}\\b`, "gi"), replacement)], scanning
    left to right; [before] is the previous character and [skip] counts
    the characters of a match still to pass. No replacement of the
    dictionary holds a dollar sign, so each is inserted as it stands. *)
Fixpoint replace_scan (word replacement : string) (before : option ascii)
    (skip : nat) (s : string) : string :=
  match s with
  | EmptyString => EmptyString
  | String c rest =>
      match skip with
      | S skip' => replace_scan word replacement (Some c) skip' rest
      | O =>
          if word_boundary before (Some c) && match_here word s before then
            replacement
            +:+ replace_scan word replacement (Some c)
                 (String.length word - 1) rest
          else String c (replace_scan word replacement (Some c) 0 rest)
      end
  end.

Definition replace_word (s word replacement : string) : string :=
  replace_scan word replacement None 0 s.

Record hinglish_analysis := mkHinglish {
  is_hinglish : bool;
  detected_words : list string;
  translation : string;
  confidence : Q;
}.

Record sentiment_analysis := mkSentiment {
  sentiment : string;
  intensity : Z;
  sentiment_confidence : Q;
  should_celebrate : bool;
  should_comfort : bool;
}.

Definition positive : list string :=
  [ "happy"; "great"; "mast"; "good"; "awesome"; "excited";
    "love"; "like"; "enjoy"; "badiya"; "badhiya"; "sahi"; "acha"; "maza";
    "fun" ].
Definition negative : list string :=
  [ "sad"; "bad"; "thak"; "tired"; "hate"; "angry"; "upset";
    "worried"; "stressed"; "tension"; "problem"; "issue"; "nahi"; "galat" ].
Definition emphasis : list string :=
  [ "bohot"; "bahut"; "kitna"; "very"; "so"; "too" ].

(** The table [cultureDB] of [lookupCultural]. *)
Record culture_entry := mkCulture {
  origin : string;
  meaning : string;
  formality : string;
  region : string;
  fun_fact : string;
}.

Definition cultureDB : list (string * culture_entry) :=
  [ ("yaar",
     {| origin := "Persian/Urdu"; meaning := "Friend, companion";
        formality := "Very informal"; region := "All India";
        fun_fact := "Became iconic through 90s Bollywood (especially Shah Rukh Khan movies)" |});
    ("mast",
     {| origin := "Urdu"; meaning := "Fun, enjoyable, carefree";
        formality := "Informal"; region := "North India";
        fun_fact := "Originally meant 'intoxicated', now means 'having fun'" |});
    ("thak",
     {| origin := "Sanskrit"; meaning := "Tired, exhausted";
        formality := "Neutral"; region := "All India";
        fun_fact := "Root word 'taksh' means to labor or work" |});
    ("bhai",
     {| origin := "Sanskrit/Hindi"; meaning := "Brother (also used for friends)";
        formality := "Neutral to formal"; region := "All India";
        fun_fact := "Respectful way to address any male, even strangers" |});
    ("arre",
     {| origin := "Hindi"; meaning := "Oh hey / Wait";
        formality := "Informal"; region := "All India";
        fun_fact := "Can express surprise, concern, or just get attention" |}) ].

(** The variables [processMessage] hands to the prompt. *)
Record prompt_variables := mkVariables {
  var_user_input : string;
  var_is_hinglish : string;
  var_translation : string;
  var_sentiment : string;
  var_intensity : Z;
  var_cultural_context : string;
}.

(** The [analysis] that [processMessage] returns beside the response. *)
Record analysis := mkAnalysis {
  analysis_hinglish : hinglish_analysis;
  analysis_sentiment : sentiment_analysis;
  analysis_cultural : option (string * culture_entry);
}.

Section Tools.

(** [String.prototype.toLowerCase], which follows Unicode; the tools are
    stated for whatever it returns. *)
Variable toLowerCase : string -> string.

(** [function analyzeHinglish(input)] *)
Definition analyzeHinglish (input : string) : hinglish_analysis :=
  let lowerInput := toLowerCase input in
  let hinglishWords :=
    filter (fun word => includes lowerInput word = true) (Object_keys dictionary) in
  let isHinglish := (0 <? length hinglishWords)%nat in
  let translation :=
    fold_left (fun translation word =>
                 replace_word translation word (get_property dictionary word))
              hinglishWords input in
  {| is_hinglish := isHinglish;
     detected_words := hinglishWords;
     translation := if isHinglish then translation else input;
     confidence :=
       Qmin (inject_Z (Z.of_nat (length hinglishWords)) * 0.2 + 0.5) 0.9 |}.

(** [function analyzeSentiment(input)] *)
Definition analyzeSentiment (input : string) : sentiment_analysis :=
  let text := toLowerCase input in
  let hasPositive := existsb (fun w => includes text w) positive in
  let hasNegative := existsb (fun w => includes text w) negative in
  let hasEmphasis := existsb (fun w => includes text w) emphasis in
  let '(sentiment, intensity) :=
    if hasPositive && negb hasNegative then
      ("positive", if hasEmphasis then 8 else 6)%Z
    else if hasNegative && negb hasPositive then
      ("negative", if hasEmphasis then 7 else 5)%Z
    else ("neutral", 5%Z) in
  {| sentiment := sentiment;
     intensity := intensity;
     sentiment_confidence := 0.75;
     should_celebrate := String.eqb sentiment "positive" && (6 <? intensity)%Z;
     should_comfort := String.eqb sentiment "negative" && (4 <? intensity)%Z |}.

(** [function lookupCultural(input)]: the first entry of the table whose
    term occurs in the lower-cased input; [None] is [{ found: false }]. *)
Definition lookupCultural (input : string) : option (string * culture_entry) :=
  List.find (fun entry => includes (toLowerCase input) (fst entry)) cultureDB.

(** The line [culturalContext] of [processMessage]. *)
Definition culturalContext (cultural : option (string * culture_entry))
    (hinglish : hinglish_analysis) : string :=
  match cultural with
  | Some (term, entry) =>
      "- Context: " +:+ JS.dquote +:+ term +:+ JS.dquote
      +:+ " is like calling someone " +:+ JS.dquote +:+ meaning entry
      +:+ JS.dquote
  | None =>
      if is_hinglish hinglish then "- Hinglish mix detected" else ""
  end.

(** The object passed to [chain.invoke] in [processMessage]. *)
Definition variables (userInput : string) : prompt_variables :=
  let hinglish := analyzeHinglish userInput in
  let sentiment := analyzeSentiment userInput in
  let cultural := lookupCultural userInput in
  {| var_user_input := userInput;
     var_is_hinglish := if is_hinglish hinglish then "Yes" else "No";
     var_translation := translation hinglish;
     var_sentiment := AgentChat.sentiment sentiment;
     var_intensity := intensity sentiment;
     var_cultural_context :=
       JS.or_string (Some (culturalContext cultural hinglish))
         "- No special context" |}.

(** The model behind the prompt, by the index of the call it receives. *)
Variable llm : nat -> prompt_variables -> Eff.outcome string.

(** [async function processMessage(userInput)] *)
Definition processMessage (userInput : string) : Eff.M (string * analysis) :=
  let hinglish := analyzeHinglish userInput in
  let sentiment := analyzeSentiment userInput in
  let cultural := lookupCultural userInput in
  Eff.emit (Eff.ev_chat userInput);;
  n ← Eff.next_call;
  response ← Eff.lift (llm n (variables userInput));
  Eff.ret (response,
           {| analysis_hinglish := hinglish;
              analysis_sentiment := sentiment;
              analysis_cultural := cultural |}).

(** [String.prototype.trim], which follows Unicode as well. *)
Variable trim : string -> string.

(** The test that ends the chat. *)
Definition is_quit (input : string) : bool :=
  String.eqb (trim (toLowerCase input)) "quit"
  || String.eqb (trim (toLowerCase input)) "exit".

(** [async function askQuestion()] and the calls it makes of itself, over
    the lines the user still types: [rl.question] writes the prompt and
    the callback handles one line. After "quit" or "exit" the process
    exits; when no line is left the prompt stays open. *)
Fixpoint askQuestion (inputs : list string) : Eff.M unit :=
  Eff.emit (Eff.ev_stdout "ðŸ‘¤ You: ");;
  match inputs with
  | [] => Eff.ret tt
  | input :: rest =>
      if is_quit input then
        Eff.console_log (JS.newline +:+ "ðŸ¦‹ Goodbye! It was great chatting with you.")
      else if String.eqb (trim input) "" then
        Eff.console_log ("âš ï¸  Please type something!" +:+ JS.newline);;
        askQuestion rest
      else
        Eff.console_log ("ðŸ¤– Thinking..." +:+ JS.newline);;
        Eff.try_catch
          (result ← processMessage input;
           Eff.console_log ("ðŸ¤– Friend: " +:+ fst result +:+ JS.newline);;
           Eff.console_log
             ("   ðŸ“± (detected: "
              +:+ AgentChat.sentiment (analysis_sentiment (snd result))
              +:+ " vibe, "
              +:+ (if is_hinglish (analysis_hinglish (snd result))
                   then "some Hinglish" else "English")
              +:+ ")" +:+ JS.newline))
          (fun error =>
             Eff.console_error ("âŒ Error: " +:+ JS.message error);;
             if bool_decide (JS.code error = Some "ECONNREFUSED") then
               Eff.console_log ("ðŸ’¡ Make sure Ollama is running: ollama serve" +:+ JS.newline)
             else Eff.ret tt);;
        askQuestion rest
  end.

End Tools.

(** Lower-casing of the ASCII letters; other characters stay. *)
Fixpoint ascii_toLowerCase (s : string) : string :=
  match s with
  | EmptyString => EmptyString
  | String c rest => String (fold_case c) (ascii_toLowerCase rest)
  end.

(** The white space of ASCII that [trim] removes. *)
Definition is_space (c : ascii) : bool :=
  let n := nat_of_ascii c in
  ((9 <=? n) && (n <=? 13))%nat || (n =? 32)%nat.

Fixpoint trim_start (s : string) : string :=
  match s with
  | String c rest => if is_space c then trim_start rest else s
  | EmptyString => EmptyString
  end.

Fixpoint trim_end (s : string) : string :=
  match s with
  | String c rest =>
      match trim_end rest with
      | EmptyString => if is_space c then EmptyString else String c EmptyString
      | rest' => String c rest'
      end
  | EmptyString => EmptyString
  end.

(** Trimming of the ASCII white space; other characters stay. *)
Definition ascii_trim (s : string) : string := trim_end (trim_start s).

End AgentChat.

(* ====================================================================== *)
(** ** agent-chat-fast: the tool of the fast chat                          *)
(* ====================================================================== *)

Module AgentChatFast.

(** The alternatives of the three patterns of [quickAnalyze]. *)
Definition positive_pattern : list string :=
  [ "mast"; "happy"; "great"; "good"; "awesome"; "excited"; "love";
    "badiya"; "sahi"; "acha" ].
Definition negative_pattern : list string :=
  [ "sad"; "bad"; "thak"; "tired"; "upset"; "worried"; "stressed"; "nahi" ].
Definition hinglish_pattern : list string :=
  [ "yaar"; "mast"; "thak"; "bohot"; "kya"; "kar"; "raha" ].

(** [text.match(/a|b|.../)] for literal alternatives: there is a match
    (a truthy result) exactly when one of them occurs in [text]. *)
Definition matches (alternatives : list string) (text : string) : bool :=
  existsb (fun word => AgentChat.includes text word) alternatives.

(** [/(a|b|...)/i.test(text)] for lower-case literal alternatives: the
    flag [i] lets an ASCII letter of [text] match in either case. *)
Definition test_i (alternatives : list string) (text : string) : bool :=
  matches alternatives (AgentChat.ascii_toLowerCase text).

Record quick_analysis := mkQuick {
  sentiment : string;
  hinglish : bool;
}.

Section Tools.
Variable toLowerCase : string -> string.

(** [function quickAnalyze(input)] *)
Definition quickAnalyze (input : string) : quick_analysis :=
  let text := toLowerCase input in
  let positive := matches positive_pattern text in
  let negative := matches negative_pattern text in
  let hinglish := test_i hinglish_pattern text in
  let sentiment := "neutral" in
  let sentiment := if positive then "positive" else sentiment in
  let sentiment := if negative then "negative" else sentiment in
  {| sentiment := sentiment; hinglish := hinglish |}.

End Tools.
Section Chat.
Variable toLowerCase : string -> string.

(** The model behind the prompt, by the index of the call it receives and
    the variables [input] and [sentiment]. *)
Variable llm : nat -> string -> string -> Eff.outcome string.

(** What [Date.now() - start] measures around the call of that index. *)
Variable elapsed : nat -> Z.

(** [async function processMessage(userInput)]; returns [response] and
    [duration]. *)
Definition processMessage (userInput : string) : Eff.M (string * Z) :=
  let analysis := quickAnalyze toLowerCase userInput in
  Eff.emit (Eff.ev_chat userInput);;
  n ← Eff.next_call;
  response ← Eff.lift (llm n userInput (sentiment analysis));
  Eff.ret (response, elapsed n).

(** [async function chat()] and the calls it makes of itself, over the
    lines the user still types. After "quit" the process exits; when no
    line is left the prompt stays open. *)
Fixpoint chat (inputs : list string) : Eff.M unit :=
  Eff.emit (Eff.ev_stdout "👤 You: ");;
  match inputs with
  | [] => Eff.ret tt
  | input :: rest =>
      if String.eqb (toLowerCase input) "quit" then
        Eff.console_log (JS.newline +:+ "👋 Bye!")
      else
        Eff.console_log "⚡ Thinking...";;
        Eff.try_catch
          (result ← processMessage input;
           Eff.console_log ("🤖 Friend: " +:+ fst result);;
           Eff.console_log
             ("⏱️  (" +:+ pretty (snd result) +:+ "ms)" +:+ JS.newline))
          (fun e => Eff.console_error ("❌ Error: " +:+ JS.message e));;
        chat rest
  end.

End Chat.

End AgentChatFast.

(* ====================================================================== *)
(** ** speed-test.js: timing the models                                    *)
(* ====================================================================== *)

Module SpeedTest.
Import JS Eff.

(** An element of [modelsToTest]. *)
Record model_entry := mkModel {
  name : string;
  description : string;
}.

Definition modelsToTest : list model_entry :=
  [ {| name := "llama3.2:latest";
       description := "Meta Llama 3.2 (recommended fast)" |};
    {| name := "kimi-k2.5:cloud";
       description := "Kimi k2.5 (current, slower but smart)" |};
    {| name := "mistral:latest"; description := "Mistral (balanced)" |};
    {| name := "qwen2.5:0.5b";
       description := "Qwen 2.5 0.5B (very fast, basic)" |};
    {| name := "gemma:2b"; description := "Google Gemma 2B (lightweight)" |} ].

(** What [testModel] returns. *)
Record test_result := mkResult {
  model : string;
  duration : Z;
  success : bool;
  response : string;
  error : string;
}.

(** An element of [results]: [{ ...result, description }]. *)
Record tested := mkTested {
  result : test_result;
  tested_description : string;
}.

(** The object [testModel] builds from the outcome of [chain.invoke({})]
    and the time measured around it; [s.substring(0, 50)] keeps the first
    50 characters. *)
Definition make_result (modelName : string) (o : outcome string)
    (elapsed : Z) : test_result :=
  let '(success, response, error) :=
    match o with
    | Return r => (true, r, "")
    | Throw e => (false, "", message e)
    end in
  {| model := modelName;
     duration := elapsed;
     success := success;
     response := String.substring 0 50 response +:+ "...";
     error := String.substring 0 50 error |}.

(** [array.sort((a, b) => a.duration - b.duration)]: ascending, and
    stable, so equal durations keep their order. *)
Fixpoint insert_by_duration (x : tested) (sorted : list tested) : list tested :=
  match sorted with
  | [] => [x]
  | y :: rest =>
      if (duration (result x) <=? duration (result y))%Z then x :: sorted
      else y :: insert_by_duration x rest
  end.

Fixpoint sort_by_duration (l : list tested) : list tested :=
  match l with
  | [] => []
  | x :: rest => insert_by_duration x (sort_by_duration rest)
  end.

(** [results.filter(r => r.success).sort(...)] *)
Definition successfulResults (results : list tested) : list tested :=
  sort_by_duration (List.filter (fun r => success (result r)) results).

(** [results.filter(r => !r.success)] *)
Definition failed (results : list tested) : list tested :=
  List.filter (fun r => negb (success (result r))) results.

Definition medal (rank : nat) : string :=
  if (rank =? 1)%nat then "🥇"
  else if (rank =? 2)%nat then "🥈"
  else if (rank =? 3)%nat then "🥉"
  else "  ".

Section Run.

(** [chain.invoke({})] of the chain built for a model, by the index of the
    call and the model's name. *)
Variable invoke : nat -> string -> outcome string.

(** What [Date.now() - start] measures around the call of that index. *)
Variable elapsed : nat -> Z.

(** [(ms / 1000).toFixed(2)] of a duration in milliseconds. *)
Variable toFixed2 : Z -> string.

(** [async function testModel(modelName)] *)
Definition testModel (modelName : string) : M test_result :=
  n ← next_call;
  ret (make_result modelName (invoke n modelName) (elapsed n)).

(** The loop [for (const model of modelsToTest)] of [runTests], with the
    array [results] it fills. *)
Fixpoint test_each (models : list model_entry) (results : list tested)
    : M (list tested) :=
  match models with
  | [] => ret results
  | model :: rest =>
      emit (ev_stdout ("⏱️  Testing " +:+ name model +:+ "... "));;
      result ← testModel (name model);
      let results :=
        results ++ [{| result := result;
                       tested_description := description model |}] in
      (if success result then
         console_log ("✅ " +:+ pretty (duration result) +:+ "ms")
       else
         console_log ("❌ Failed: " +:+ error result));;
      test_each rest results
  end.

(** [successfulResults.forEach((result, index) => ...)], from [index]. *)
Fixpoint print_ranked (index : nat) (ranked : list tested) : M unit :=
  match ranked with
  | [] => ret tt
  | r :: rest =>
      let rank := (index + 1)%nat in
      console_log (medal rank +:+ " " +:+ pretty rank +:+ ". "
                   +:+ model (result r));;
      console_log ("      Time: " +:+ pretty (duration (result r)) +:+ "ms ("
                   +:+ toFixed2 (duration (result r)) +:+ "s)");;
      console_log ("      Desc: " +:+ tested_description r);;
      console_log ("      Sample: " +:+ dquote +:+ response (result r)
                   +:+ dquote);;
      console_log "";;
      print_ranked (S index) rest
  end.

(** The part of [runTests] under "Recommendation". *)
Definition recommend (ranked : list tested) : M unit :=
  match ranked with
  | fastest :: _ =>
      console_log ("Fastest: " +:+ model (result fastest) +:+ " ("
                   +:+ pretty (duration (result fastest)) +:+ "ms)");;
      console_log ("Quality comparison: Llama3.2 ≈ Kimi > Qwen-small"
                   +:+ newline);;
      console_log "For your Hinglish app:";;
      if (duration (result fastest) <? 2000)%Z then
        console_log "✅ Fast enough for real-time chat"
      else if (duration (result fastest) <? 5000)%Z then
        console_log "⚡ Good for most use cases"
      else
        console_log "⏱️  Consider optimizing (streaming, token limits)"
  | [] => ret tt
  end.

(** [failed.forEach(f => ...)] *)
Fixpoint print_failed (failed : list tested) : M unit :=
  match failed with
  | [] => ret tt
  | f :: rest =>
      console_log ("   - " +:+ model (result f) +:+ ": " +:+ error (result f));;
      print_failed rest
  end.

(** [async function runTests()] *)
Definition runTests : M unit :=
  results ← test_each modelsToTest [];
  let successfulResults := successfulResults results in
  console_log (newline +:+ HinglishChainPro.repeat_string "=" 60);;
  console_log ("🏁 RESULTS (Fastest to Slowest):" +:+ newline);;
  print_ranked 0 successfulResults;;
  console_log (HinglishChainPro.repeat_string "=" 60);;
  console_log ("💡 RECOMMENDATION:" +:+ newline);;
  recommend successfulResults;;
  let failed := failed results in
  (if (0 <? length failed)%nat then
     console_log (newline
                  +:+ "⚠️  Models not available (install with 'ollama pull'):");;
     print_failed failed
   else ret tt);;
  console_log (HinglishChainPro.repeat_string "=" 60);;
  console_log (newline +:+ "🧪 Want to test with YOUR prompt?");;
  console_log "Edit the 'Test prompt' section in speed-test.js";;
  console_log ("Or run: node agent-chat.js (uses your actual chat logic)"
               +:+ newline).

End Run.
End SpeedTest.

(* ====================================================================== *)
(** ** setup-verification.js: the checks before the session                *)
(* ====================================================================== *)

Module SetupVerification.
Import JS Eff.

(** [s.split("\n")] *)
Fixpoint split_lines (s : string) : list string :=
  match s with
  | EmptyString => [""]
  | String c rest =>
      if Ascii.eqb c (ascii_of_nat 10) then "" :: split_lines rest
      else match split_lines rest with
           | line :: lines => String c line :: lines
           | [] => [String c ""]
           end
  end.

Definition requiredPackages : list string :=
  [ "@langchain/core"; "@langchain/ollama"; "zod" ].

Section Script.

(** [execSync(command, { encoding: "utf-8" })]: the output of the command,
    or the error thrown when it fails. *)
Variable execSync : string -> outcome string.

(** [llm.invoke(text)], by the index of the call: the [content] of the
    answer, a string. *)
Variable llm_invoke : nat -> string -> outcome string.

(** [await import(pkg)] *)
Variable import : string -> outcome unit.

(** [String.prototype.trim] and [line.split(/\s+/)[0]], which follow
    Unicode's white space. *)
Variable trim : string -> string.
Variable first_field : string -> string.

(** The five checks. The variable [allPassed] is passed through them: each
    takes its value and returns the value it leaves. *)
Definition check_cli (allPassed : bool) : M bool :=
  console_log (newline +:+ "1️⃣  Checking Ollama CLI...");;
  try_catch
    (result ← lift (execSync "ollama --version");
     console_log "   ✅ Ollama CLI is available";;
     console_log ("   " +:+ trim result);;
     ret allPassed)
    (fun _ =>
       console_log "   ❌ Ollama CLI not found";;
       console_log "   💡 Install: https://ollama.com/download";;
       ret false).

Definition check_server (allPassed : bool) : M bool :=
  console_log (newline +:+ "2️⃣  Checking Ollama Server...");;
  try_catch
    (lift (execSync "curl -s http://localhost:11434");;
     console_log "   ✅ Ollama server is running on localhost:11434";;
     ret allPassed)
    (fun _ =>
       console_log "   ❌ Ollama server is not running";;
       console_log "   💡 Start with: ollama serve";;
       ret false).

(** [lines.forEach(line => ...)] *)
Fixpoint print_models (lines : list string) : M unit :=
  match lines with
  | [] => ret tt
  | line :: rest =>
      let modelName := first_field line in
      console_log ("      • " +:+ modelName);;
      print_models rest
  end.

Definition check_models (allPassed : bool) : M bool :=
  console_log (newline +:+ "3️⃣  Checking Installed Models...");;
  try_catch
    (models ← lift (execSync "ollama list");
     let lines :=
       List.filter
         (fun line => negb (String.eqb (trim line) "")
                      && negb (String.prefix "NAME" line))
         (split_lines models) in
     (if (0 <? length lines)%nat then
        console_log "   ✅ Models installed:";;
        print_models lines
      else
        console_log "   ⚠️  No models found";;
        console_log "   💡 Pull a model: ollama pull llama3.2");;
     ret allPassed)
    (fun _ =>
       console_log "   ❌ Could not list models";;
       ret false).

Definition check_llm (allPassed : bool) : M bool :=
  console_log (newline +:+ "4️⃣  Testing LLM Connection...");;
  try_catch
    (console_log "   🔄 Sending test request...";;
     emit (ev_chat "Hi!");;
     n ← next_call;
     content ← lift (llm_invoke n "Hi!");
     console_log "   ✅ LLM responded!";;
     console_log ("   Response: " +:+ dquote +:+ String.substring 0 100 content
                  +:+ "..." +:+ dquote);;
     ret allPassed)
    (fun error =>
       console_log "   ❌ Could not connect to LLM";;
       console_log ("   Error: " +:+ message error);;
       console_log "   💡 Make sure Ollama is running and the model is pulled";;
       ret false).

(** The loop [for (const pkg of requiredPackages)], with the array
    [missingDeps] it fills. *)
Fixpoint import_each (pkgs : list string) (missingDeps : list string)
    : M (list string) :=
  match pkgs with
  | [] => ret missingDeps
  | pkg :: rest =>
      missingDeps ←
        try_catch
          (lift (import pkg);;
           console_log ("   ✅ " +:+ pkg);;
           ret missingDeps)
          (fun _ =>
             console_log ("   ❌ " +:+ pkg +:+ " - MISSING");;
             ret (missingDeps ++ [pkg]));
      import_each rest missingDeps
  end.

Definition check_dependencies (allPassed : bool) : M bool :=
  console_log (newline +:+ "5️⃣  Checking Dependencies...");;
  missingDeps ← import_each requiredPackages [];
  if (0 <? length missingDeps)%nat then
    console_log (newline +:+ "   💡 Install missing packages:");;
    console_log ("      npm install " +:+ String.concat " " missingDeps);;
    ret false
  else ret allPassed.

(** The summary at the end of the script. *)
Definition summary (allPassed : bool) : M unit :=
  console_log (newline +:+ HinglishChainPro.repeat_string "=" 60);;
  (if allPassed then
     console_log "✅ ALL TESTS PASSED - Ready for Session 1!";;
     console_log (newline +:+ "Next steps:");;
     console_log "   node session1-example1.js";;
     console_log "   node hinglish-chain.js"
   else
     console_log "❌ SOME TESTS FAILED - Please fix the issues above";;
     console_log (newline +:+ "Troubleshooting:");;
     console_log "   1. Install Ollama: https://ollama.com/download";;
     console_log "   2. Start Ollama: ollama serve";;
     console_log "   3. Pull model: ollama pull kimi-k2.5:cloud";;
     console_log "   4. Install deps: npm install");;
  console_log (HinglishChainPro.repeat_string "=" 60).

(** The statements of the script, from the first to the last. *)
Definition statements : M unit :=
  console_log ("🔍 Running Setup Verification..." +:+ newline);;
  console_log (HinglishChainPro.repeat_string "=" 60);;
  let allPassed := true in
  allPassed ← check_cli allPassed;
  allPassed ← check_server allPassed;
  allPassed ← check_models allPassed;
  allPassed ← check_llm allPassed;
  allPassed ← check_dependencies allPassed;
  summary allPassed.

(** The script as Node runs it. Its static import of [@langchain/ollama]
    is resolved before the first statement: when the package cannot be
    imported the load fails with that error and no statement runs. The
    other static import, of the built-in [child_process], always resolves,
    and [new ChatOllama(...)] only stores its configuration. *)
Definition script : M unit :=
  lift (import "@langchain/ollama");;
  statements.

End Script.
End SetupVerification.

(* ====================================================================== *)
(** ** The output schema of both translator files                          *)
(* ====================================================================== *)

Module Schema.
Import JS.

(** The kinds a field is declared with: [z.string()], [z.number()] with
    its [.min(a)] and [.max(b)], [z.boolean()], [z.array(kind)]. *)
Inductive kind :=
| z_string
| z_number (min max : option Q)
| z_boolean
| z_array (item : kind).

(** How a field is closed: plain (required), [.default(value)] or
    [.optional()]. *)
Inductive presence :=
| required
| default_to (value : json)
| optional.

Record field := mkField {
  field_name : string;
  field_kind : kind;
  field_presence : presence;
}.

(** [z.object({...})]: the fields in the order they are declared. *)
Definition schema := list field.

(** [const hinglishResponseSchema = z.object({...})], the same declaration
    in hinglish-chain.js and in session1-example1.js. *)
Definition translated_text : field :=
  {| field_name := "translated_text"; field_kind := z_string;
     field_presence := required |}.
Definition detected_language : field :=
  {| field_name := "detected_language"; field_kind := z_string;
     field_presence := required |}.
Definition confidence : field :=
  {| field_name := "confidence"; field_kind := z_number (Some 0%Q) (Some 1%Q);
     field_presence := required |}.
Definition alternative_translations : field :=
  {| field_name := "alternative_translations"; field_kind := z_array z_string;
     field_presence := default_to (JArr []) |}.
Definition cultural_notes : field :=
  {| field_name := "cultural_notes"; field_kind := z_string;
     field_presence := optional |}.

Definition hinglishResponseSchema : schema :=
  [ translated_text; detected_language; confidence;
    alternative_translations; cultural_notes ].

(** Modelled from the spec: the validation errors of section 4.2; zod's own
    error type is no part of the sources. *)
Inductive validation_error :=
| MalformedShape
| MissingField (field : string)
| TypeMismatch (field : string) (expected : kind) (actual : json)
| RangeViolation (field : string) (value : Q) (min max : option Q).

(** Modelled from the spec: the inclusive range of a numeric field
    ([.min(a)] and [.max(b)] of zod, which is no file of the repository). *)
Definition in_range (q : Q) (min max : option Q) : bool :=
  from_option (fun a => Qle_bool a q) true min
  && from_option (fun b => Qle_bool q b) true max.

(** Modelled from the spec: the check of one value against a declared kind
    (zod's parsers, absent from the sources). After section 4.2, a value of
    another type is a type mismatch and a number outside the declared
    inclusive range is a range violation; an array is checked item by
    item. *)
Fixpoint check_kind (name : string) (k : kind) (v : json)
    : option validation_error :=
  match k, v with
  | z_string, JStr _ => None
  | z_boolean, JBool _ => None
  | z_number min max, JNum q =>
      if in_range q min max then None
      else Some (RangeViolation name q min max)
  | z_array item, JArr xs =>
      (fix check_items (xs : list json) : option validation_error :=
         match xs with
         | [] => None
         | x :: rest =>
             match check_kind name item x with
             | Some e => Some e
             | None => check_items rest
             end
         end) xs
  | _, _ => Some (TypeMismatch name k v)
  end.

(** Modelled from the spec: validation of the fields of a mapping, in the
    order of the declaration, the first failure ending it (zod's
    [schema.parse], absent from the sources). A missing required field is an
    error, a missing field with a default takes the default, a missing
    optional field stays absent; keys the schema does not declare are
    dropped. *)
Fixpoint validate_fields (fields : schema) (candidate : gmap string json)
    (typed : gmap string json) : gmap string json + validation_error :=
  match fields with
  | [] => inl typed
  | f :: rest =>
      match candidate !! field_name f with
      | Some v =>
          match check_kind (field_name f) (field_kind f) v with
          | Some e => inr e
          | None => validate_fields rest candidate (<[field_name f := v]> typed)
          end
      | None =>
          match field_presence f with
          | required => inr (MissingField (field_name f))
          | default_to d =>
              validate_fields rest candidate (<[field_name f := d]> typed)
          | optional => validate_fields rest candidate typed
          end
      end
  end.

(** Modelled from the spec: [validate(candidate)] of section 4.2; a
    candidate that is no mapping has a malformed shape. *)
Definition validate (s : schema) (candidate : json)
    : gmap string json + validation_error :=
  match candidate with
  | JObj m => validate_fields s m ∅
  | _ => inr MalformedShape
  end.

(** The two-field schema of the specification's round-trip scenario,
    [{translated_text: string, confidence: number[0,1]}], built from the
    declarations of the repository's schema. *)
Definition scenario_schema : schema := [ translated_text; confidence ].

End Schema.

(* ====================================================================== *)
(** ** What the theorems observe                                           *)
(* ====================================================================== *)

Module Observe.
Import JS Eff.

(** The effects on the world outside the console. *)
Definition external (e : event) : bool :=
  match e with
  | ev_log _ | ev_error _ => false
  | _ => true
  end.
Definition effects (t : list event) : list event := List.filter external t.

(** The lines written to the console. *)
Definition console (e : event) : bool := negb (external e).
Definition logs (t : list event) : list event := List.filter console t.

(** The arguments the sink received, in the order of the calls. *)
Fixpoint sink_calls (t : list event) : list token :=
  match t with
  | [] => []
  | ev_onToken tok :: rest => tok :: sink_calls rest
  | _ :: rest => sink_calls rest
  end.

(** The state [init()] leaves. *)
Definition after_init (s : state) : state :=
  {| chain := Some (default (built s) (chain s));
     built := match chain s with Some _ => built s | None => S (built s) end;
     calls := calls s;
     trace := trace s |}.

(** What the handler of [translate] throws for the error it caught. *)
Definition rethrown (e : error) : error :=
  if bool_decide (code e = Some "ECONNREFUSED") then
    new_Error "Ollama is not running! Start with: ollama serve"
  else if bool_decide (name e = "OutputParserException") then
    new_Error "Model returned invalid JSON. Try again."
  else e.

(** The calls and waits of [k] failed attempts in a row: a wait stands
    between two attempts and none after the last. *)
Fixpoint failed_attempts (c : nat) (text : string) (delay : Z) (k : nat)
    : list event :=
  match k with
  | O => []
  | S k' =>
      ev_invoke c text
      :: match k' with
         | O => []
         | S _ => ev_sleep delay :: failed_attempts c text delay k'
         end
  end.

(** What [translateWithRetry] throws after its loop. *)
Definition exhausted (this : HinglishChainPro.config)
    (lastError : option error) : error :=
  match lastError with
  | None => TypeError_undefined "message"
  | Some e =>
      new_Error ("Failed after " +:+ pretty (HinglishChainPro.maxRetries this)
                 +:+ " attempts: " +:+ message e)
  end.

(** A chunk whose [content || chunk] is its text. *)
Definition truthy (c : chunk) : Prop :=
  match c with
  | chunk_string _ => True
  | chunk_message content => content <> ""
  end.

(** The increments of a stream, concatenated left to right. *)
Definition concat_text (chunks : list chunk) : string :=
  fold_right (fun c acc => chunk_text c +:+ acc) "" chunks.

(** A stream that does not end well. *)
Definition stream_fails (str : HinglishChainPro.streaming) : Prop :=
  match str with
  | HinglishChainPro.stream_refused _ => True
  | HinglishChainPro.stream_of _ (Some _) => True
  | HinglishChainPro.stream_of _ None => False
  end.

(** An event that, when it is an invocation, invokes the chain [c]. *)
Definition invokes_only (c : nat) (e : event) : Prop :=
  match e with
  | ev_invoke c' _ => c' = c
  | _ => True
  end.

(** A computation that, run on an object whose chain is [c], leaves the
    chain field and the number of constructed chains as they are and
    invokes no other chain. *)
Definition stable_at {A} (c : nat) (m : M A) : Prop :=
  forall s, chain s = Some c ->
    chain (snd (m s)) = Some c
    /\ built (snd (m s)) = built s
    /\ exists new, trace (snd (m s)) = trace s ++ new
                   /\ Forall (invokes_only c) new.

(** After a first [init()], a second one changes nothing, and the later
    calls [later] keep and use the chain the first one built. *)
Definition built_once (init later : M unit) : Prop :=
  forall s,
    let s1 := snd (init s) in
    exists c,
      chain s1 = Some c
      /\ init s1 = (Return tt, s1)
      /\ stable_at c later.



(** Sample errors of the collaborator. *)
Definition timed_out : error :=
  {| name := "Error"; code := Some "ETIMEDOUT";
     message := "connect ETIMEDOUT 127.0.0.1:11434" |}.
Definition refused : error :=
  {| name := "Error"; code := Some "ECONNREFUSED";
     message := "connect ECONNREFUSED 127.0.0.1:11434" |}.
Definition parser_exception : error :=
  {| name := "OutputParserException"; code := None;
     message := "Failed to parse. Text: Sorry, I can't help." |}.



(** A text without braces, which a prompt template takes literally. *)
Definition plain_text (text : string) : Prop :=
  AgentChat.includes text "{" = false /\ AgentChat.includes text "}" = false.



End Observe.

(* ====================================================================== *)
(** ** What the further theorems observe                                   *)
(* ====================================================================== *)

Module Behaviour.
Import JS Eff.

(** The calls and waits of [j] failed attempts followed by the attempt
    that succeeds. *)
Definition attempts_until_success (c : nat) (text : string) (delay : Z)
    (j : nat) : list event :=
  concat (repeat [ev_invoke c text; ev_sleep delay] j) ++ [ev_invoke c text].

Definition is_sleep (e : event) : bool :=
  match e with ev_sleep _ => true | _ => false end.
Definition is_invoke (e : event) : bool :=
  match e with ev_invoke _ _ => true | _ => false end.

(** What [translateWithRetry] may do: write to the console, invoke the
    chain [c] on [text], wait [this.retryDelay]. *)
Definition retry_event (this : HinglishChainPro.config) (c : nat)
    (text : string) (e : event) : Prop :=
  match e with
  | ev_log _ => True
  | ev_invoke c' t => c' = c /\ t = text
  | ev_sleep ms => ms = HinglishChainPro.retryDelay this
  | _ => False
  end.

(** What [translateStreamRaw] may do: anything but invoke the structured
    chain, wait, or call the chat model. *)
Definition streaming_event (e : event) : Prop :=
  match e with
  | ev_invoke _ _ | ev_sleep _ | ev_chat _ => False
  | _ => True
  end.

(** What [chat] may do: call the chat model and report an error. *)
Definition chat_event (e : event) : Prop :=
  match e with
  | ev_chat _ | ev_error _ => True
  | _ => False
  end.

(** A computation that only appends events satisfying [P] to the trace. *)
Definition emits_only {A} (P : event -> Prop) (m : M A) : Prop :=
  forall s, exists new,
    trace (snd (m s)) = trace s ++ new /\ Forall P new.

(** The texts written to the standard output, in order. *)
Fixpoint stdout_writes (t : list event) : list string :=
  match t with
  | [] => []
  | ev_stdout text :: rest => text :: stdout_writes rest
  | _ :: rest => stdout_writes rest
  end.

(** A collaborator whose first call times out and whose later calls answer
    [v]. *)
Definition flaky (v : json) : nat -> string -> outcome json :=
  fun n _ => match n with O => Throw Observe.timed_out | _ => Return v end.

(** [text] contains one of [words]. *)
Definition mentions (text : string) (words : list string) : Prop :=
  exists w, In w words /\ AgentChat.includes text w = true.

(** The lines of the user that reach [processMessage]: those typed before
    the first "quit" or "exit" that are not blank. *)
Fixpoint asked (toLowerCase trim : string -> string) (inputs : list string)
    : list string :=
  match inputs with
  | [] => []
  | input :: rest =>
      if AgentChat.is_quit toLowerCase trim input then []
      else if String.eqb (trim input) "" then asked toLowerCase trim rest
      else input :: asked toLowerCase trim rest
  end.

(** The messages sent to the chat model, in order. *)
Fixpoint chat_messages (t : list event) : list string :=
  match t with
  | [] => []
  | ev_chat msg :: rest => msg :: chat_messages rest
  | _ :: rest => chat_messages rest
  end.

(** The lines written with [console.error], in order. *)
Fixpoint error_lines (t : list event) : list string :=
  match t with
  | [] => []
  | ev_error line :: rest => line :: error_lines rest
  | _ :: rest => error_lines rest
  end.

(** The messages of the errors the model answers [msgs] with, when its
    first call has index [n]. *)
Fixpoint failures (toLowerCase : string -> string)
    (llm : nat -> AgentChat.prompt_variables -> outcome string)
    (n : nat) (msgs : list string) : list string :=
  match msgs with
  | [] => []
  | msg :: rest =>
      match llm n (AgentChat.variables toLowerCase msg) with
      | Throw e => message e :: failures toLowerCase llm (S n) rest
      | Return _ => failures toLowerCase llm (S n) rest
      end
  end.

(** The lines of the user that reach [processMessage] of the fast chat:
    all those typed before the first one that reads "quit". *)
Fixpoint asked_fast (toLowerCase : string -> string) (inputs : list string)
    : list string :=
  match inputs with
  | [] => []
  | input :: rest =>
      if String.eqb (toLowerCase input) "quit" then []
      else input :: asked_fast toLowerCase rest
  end.

Definition is_log (e : event) : bool :=
  match e with ev_log _ => true | _ => false end.

(** A write to the console or to the standard output. *)
Definition is_output (e : event) : bool :=
  match e with ev_log _ | ev_stdout _ => true | _ => false end.

(** The state after more events, all else unchanged. *)
Definition extended (s : state) (new : list event) : state :=
  {| chain := chain s; built := built s; calls := calls s;
     trace := trace s ++ new |}.

(** A computation that returns after writing lines to the console and
    does nothing else. *)
Definition logs_only (m : M unit) : Prop :=
  forall s, exists new,
    m s = (Return tt, extended s new) /\ Forall (fun e => is_log e = true) new.

(** The model at position [i] of the list answers when its turn comes,
    the calls being counted from [n]. *)
Definition answers (invoke : nat -> string -> outcome string) (n i : nat)
    : Prop :=
  exists m r,
    SpeedTest.modelsToTest !! i = Some m
    /\ invoke (n + i) (SpeedTest.name m) = Return r.

(** The array [results] after the loop of [runTests] over [models], the
    calls being counted from [n]. *)
Fixpoint measured (invoke : nat -> string -> outcome string)
    (elapsed : nat -> Z) (n : nat) (models : list SpeedTest.model_entry)
    : list SpeedTest.tested :=
  match models with
  | [] => []
  | m :: rest =>
      {| SpeedTest.result :=
           SpeedTest.make_result (SpeedTest.name m)
             (invoke n (SpeedTest.name m)) (elapsed n);
         SpeedTest.tested_description := SpeedTest.description m |}
      :: measured invoke elapsed (S n) rest
  end.

(** The line of [runTests] that names the fastest model. *)
Definition fastest_line (model : string) (ms : Z) : string :=
  "Fastest: " +:+ model +:+ " (" +:+ pretty ms +:+ "ms)".

(** The line written before a model is tested. *)
Definition testing_line (m : SpeedTest.model_entry) : string :=
  "⏱️  Testing " +:+ SpeedTest.name m +:+ "... ".

Definition by_duration (a b : SpeedTest.tested) : Prop :=
  (SpeedTest.duration (SpeedTest.result a)
   <= SpeedTest.duration (SpeedTest.result b))%Z.

(** The outcome is a value, not an error. *)
Definition returns {A} (o : outcome A) : bool :=
  match o with Return _ => true | Throw _ => false end.

(** Every check of the setup script passes: the three commands run, the
    model answers the call of index [n], and the packages can be
    imported. *)
Definition ready (execSync : string -> outcome string)
    (llm_invoke : nat -> string -> outcome string)
    (import : string -> outcome unit) (n : nat) : bool :=
  returns (execSync "ollama --version")
  && returns (execSync "curl -s http://localhost:11434")
  && returns (execSync "ollama list")
  && returns (llm_invoke n "Hi!")
  && forallb (fun pkg => returns (import pkg))
       SetupVerification.requiredPackages.

(** A computation that returns [v] after writing lines to the console and
    does nothing else. *)
Definition logs_to {A} (m : M A) (v : A) : Prop :=
  forall s, exists new,
    m s = (Return v, extended s new) /\ Forall (fun e => is_log e = true) new.

End Behaviour.

(* ====================================================================== *)
(** * Theorems                                                             *)
(* ====================================================================== *)

Import JS Eff Observe.

(** Unfolds the monad's plumbing, one layer at a time. *)
Ltac step :=
  unfold mbind at 1, M_bind at 1, bind at 1.
Ltac run :=
  unfold mbind, M_bind, bind, try_catch, ret, throw, lift, emit,
    console_log, console_error, sleep, get_chain, set_chain, construct_chain,
    next_call in *;
  simpl in *.

(** ** Strings and traces *)

Lemma string_app_nil_r (a : string) : a +:+ "" = a.
Proof.
  induction a as [|x a IH]; [reflexivity|].
  change (String x (a +:+ "") = String x a). now rewrite IH.
Qed.

Lemma string_app_assoc (a b c : string) : (a +:+ b) +:+ c = a +:+ (b +:+ c).
Proof.
  induction a as [|x a IH]; [reflexivity|].
  change (String x ((a +:+ b) +:+ c) = String x (a +:+ (b +:+ c))).
  now rewrite IH.
Qed.

Lemma effects_app t1 t2 : effects (t1 ++ t2) = effects t1 ++ effects t2.
Proof. apply List.filter_app. Qed.

Lemma logs_app t1 t2 : logs (t1 ++ t2) = logs t1 ++ logs t2.
Proof. apply List.filter_app. Qed.

Lemma sink_calls_app t1 t2 :
  sink_calls (t1 ++ t2) = sink_calls t1 ++ sink_calls t2.
Proof.
  induction t1 as [|e t1 IH]; [reflexivity|].
  destruct e; simpl; rewrite IH; reflexivity.
Qed.

Lemma sink_calls_tokens {A} (f : A -> token) (xs : list A) :
  sink_calls (map (fun x => ev_onToken (f x)) xs) = map f xs.
Proof. induction xs as [|x xs IH]; [reflexivity|]. simpl. now rewrite IH. Qed.

(** ** HinglishChainPro: [init] and [translate] *)

Lemma pro_init_spec s : HinglishChainPro.init s = (Return tt, after_init s).
Proof.
  unfold HinglishChainPro.init, after_init. run.
  destruct s as [[c|] b n t]; reflexivity.
Qed.

Lemma after_init_built s c : chain s = Some c -> after_init s = s.
Proof. destruct s as [ch b n t]. simpl. intros ->. reflexivity. Qed.

Lemma rethrown_name e : name (rethrown e) <> "OutputParserException".
Proof. unfold rethrown. repeat case_bool_decide; simpl; congruence. Qed.

Lemma rethrown_transport e :
  code e <> Some "ECONNREFUSED" -> name e <> "OutputParserException" ->
  rethrown e = e.
Proof.
  intros Hc Hn. unfold rethrown.
  rewrite bool_decide_eq_false_2 by exact Hc.
  rewrite bool_decide_eq_false_2 by exact Hn. reflexivity.
Qed.

(** A failing call of the chain: [translate] logs, invokes, and throws what
    its handler makes of the error. *)
Lemma pro_translate_fails ci text s e :
  ci (calls s) text = Throw e ->
  HinglishChainPro.translate ci text s =
    (Throw (rethrown e),
     {| chain := chain (after_init s); built := built (after_init s);
        calls := S (calls s);
        trace := trace s
                 ++ [ev_log ("🔄 Translating: " +:+ dquote +:+ text +:+ dquote);
                     ev_invoke (default (built s) (chain s)) text] |}).
Proof.
  intros H. unfold HinglishChainPro.translate. step. rewrite pro_init_spec.
  run. rewrite H. unfold rethrown. rewrite <- app_assoc. simpl.
  repeat case_bool_decide; reflexivity.
Qed.

(** Whatever [translate] throws went through its handler, which never
    throws an error named [OutputParserException]: the test for that name
    in [translateWithRetry] cannot succeed. *)
Lemma translate_never_throws_parser_exception ci text s e s' :
  HinglishChainPro.translate ci text s = (Throw e, s') ->
  name e <> "OutputParserException".
Proof.
  unfold HinglishChainPro.translate. step. rewrite pro_init_spec.
  unfold try_catch.
  match goal with
  | |- context [match ?b with _ => _ end] => destruct b as [[r|e0] s0]
  end.
  - discriminate.
  - repeat case_bool_decide; unfold throw; intros [= <- <-]; simpl; congruence.
Qed.

(** ** HinglishChainPro: the retry loop *)

(** With a collaborator that fails every call, the [k] attempts that
    remain from attempt [a] on all fail, and the loop ends in the final
    throw. *)
Lemma retry_attempts_all_fail ci this text err :
  (forall n t, ci n t = Throw (err n)) ->
  forall k a lastError s,
    Z.of_nat k = Z.max 0 (HinglishChainPro.maxRetries this + 1 - a) ->
    exists s',
      HinglishChainPro.retry_attempts ci this text (seqZ a (Z.of_nat k))
        lastError s
      = (Throw (exhausted this
                  (match k with
                   | O => lastError
                   | S k' => Some (rethrown (err (calls s + k')))
                   end)), s')
      /\ chain s' = match k with O => chain s | S _ => chain (after_init s) end
      /\ built s' = match k with O => built s | S _ => built (after_init s) end
      /\ calls s' = calls s + k
      /\ effects (trace s')
         = effects (trace s)
           ++ failed_attempts (default (built s) (chain s)) text
                (HinglishChainPro.retryDelay this) k.
Proof.
  intros Hfail. induction k as [|k IH]; intros a lastError s Ha.
  - exists s. simpl. rewrite Nat.add_0_r, app_nil_r. repeat split.
    destruct lastError; reflexivity.
  - rewrite seqZ_cons by lia. cbn [HinglishChainPro.retry_attempts].
    unfold try_catch. step. unfold console_log at 1, emit at 1.
    rewrite (pro_translate_fails ci text _ (err (calls s)))
      by (simpl; apply Hfail).
    step. unfold console_log at 1, emit at 1.
    rewrite bool_decide_eq_false_2 by apply rethrown_name.
    step. replace (Z.pred (Z.of_nat (S k))) with (Z.of_nat k) by lia.
    destruct (Z.ltb_spec a (HinglishChainPro.maxRetries this)) as [Hlt|Hge].
    + step. unfold console_log at 1, emit at 1, sleep, emit.
      destruct k as [|k']; [lia|].
      assert (Hk : Z.of_nat (S k')
                   = Z.max 0 (HinglishChainPro.maxRetries this + 1 - Z.succ a))
        by lia.
      match goal with
      | |- context [HinglishChainPro.retry_attempts _ _ _ _ ?le ?s3] =>
          destruct (IH (Z.succ a) le s3 Hk) as (s' & Hrun & Hc & Hb & Hn & Ht)
      end.
      exists s'. rewrite Hrun. simpl in *. repeat split.
      * rewrite Nat.add_succ_r. reflexivity.
      * rewrite Hc. reflexivity.
      * rewrite Hb. destruct (chain s); reflexivity.
      * lia.
      * rewrite Ht. rewrite !effects_app. simpl. rewrite <- !app_assoc.
        reflexivity.
    + destruct k as [|k']; [|lia].
      unfold ret. simpl. eexists.
      split; [rewrite Nat.add_0_r; reflexivity|].
      simpl. repeat split; try reflexivity; try lia.
      rewrite !effects_app. simpl. rewrite <- !app_assoc. reflexivity.
Qed.

Lemma seqZ_to_nat (m n : Z) : seqZ m n = seqZ m (Z.of_nat (Z.to_nat n)).
Proof. unfold seqZ. rewrite Nat2Z.id. reflexivity. Qed.

(** [translateWithRetry] against a collaborator that fails every call. *)
Lemma translateWithRetry_all_fail ci this text err s :
  (forall n t, ci n t = Throw (err n)) ->
  let k := Z.to_nat (HinglishChainPro.maxRetries this) in
  exists s',
    HinglishChainPro.translateWithRetry ci this text s
    = (Throw (exhausted this
                (match k with
                 | O => None
                 | S k' => Some (rethrown (err (calls s + k')))
                 end)), s')
    /\ calls s' = calls s + k
    /\ effects (trace s')
       = effects (trace s)
         ++ failed_attempts (default (built s) (chain s)) text
              (HinglishChainPro.retryDelay this) k.
Proof.
  intros Hfail k. unfold HinglishChainPro.translateWithRetry.
  rewrite seqZ_to_nat. fold k.
  destruct (retry_attempts_all_fail ci this text err Hfail k 1%Z None s)
    as (s' & Hrun & _ & _ & Hcalls & Htrace); [lia|].
  exists s'. auto.
Qed.

(** C1. With the default retry settings (three attempts, 1000 ms) and a
    collaborator whose every call fails with a timeout error of the
    transport class, [translateWithRetry] calls the chain exactly three
    times, waits 1000 ms after the first and after the second failure and
    not after the third, and then throws the error "Failed after 3
    attempts: ..." that carries the message of the last failure. *)
Theorem C1_retry_exhausted_after_three_timeouts
    (chain_invoke : nat -> string -> outcome json) (err : nat -> error)
    (model : option string) (text : string) (s : state) :
  (forall n t, chain_invoke n t = Throw (err n)) ->
  (forall n, code (err n) = Some "ETIMEDOUT"
             /\ name (err n) <> "OutputParserException") ->
  let this := HinglishChainPro.constructor model HinglishChainPro.no_options in
  let c := default (built s) (chain s) in
  HinglishChainPro.maxRetries this = 3%Z
  /\ HinglishChainPro.retryDelay this = 1000%Z
  /\ exists s',
       HinglishChainPro.translateWithRetry chain_invoke this text s
       = (Throw (new_Error ("Failed after 3 attempts: "
                            +:+ message (err (calls s + 2)))), s')
       /\ calls s' = calls s + 3
       /\ effects (trace s')
          = effects (trace s)
            ++ [ev_invoke c text; ev_sleep 1000; ev_invoke c text;
                ev_sleep 1000; ev_invoke c text].
Proof.
  intros Hfail Herr this c. split; [reflexivity|]. split; [reflexivity|].
  destruct (translateWithRetry_all_fail chain_invoke this text err s Hfail)
    as (s' & Hrun & Hcalls & Htrace).
  exists s'. split; [|split; assumption].
  rewrite Hrun. destruct (Herr (calls s + 2)) as [Hcode Hname].
  change (Z.to_nat (HinglishChainPro.maxRetries this)) with 3.
  cbv iota. rewrite rethrown_transport by congruence. reflexivity.
Qed.

Lemma C1_retry_exhausted_witness :
  exists s',
    HinglishChainPro.translateWithRetry (fun _ _ => Throw timed_out)
      (HinglishChainPro.constructor None HinglishChainPro.no_options)
      "kitna badiya hai" fresh
    = (Throw (new_Error ("Failed after 3 attempts: " +:+ message timed_out)), s')
    /\ calls s' = 3
    /\ effects (trace s')
       = [ev_invoke 0 "kitna badiya hai"; ev_sleep 1000;
          ev_invoke 0 "kitna badiya hai"; ev_sleep 1000;
          ev_invoke 0 "kitna badiya hai"].
Proof.
  apply (C1_retry_exhausted_after_three_timeouts
           (fun _ _ => Throw timed_out) (fun _ => timed_out) None
           "kitna badiya hai" fresh).
  - reflexivity.
  - intros n. split; [reflexivity | discriminate].
Defined.

(** C2, evaluated on the code. A collaborator whose every answer fails
    schema validation (the chain throws an [OutputParserException]) is
    called three times by [translateWithRetry] under the default settings,
    with both waits, and the caller receives the wrapper "Failed after 3
    attempts: Model returned invalid JSON. Try again.": [translate]
    replaces the parser's exception by a plain [Error] before the loop
    tests for its name. *)
Theorem C2_validation_error_is_retried_and_wrapped :
  exists s',
    HinglishChainPro.translateWithRetry (fun _ _ => Throw parser_exception)
      (HinglishChainPro.constructor None HinglishChainPro.no_options)
      "kitna badiya hai" fresh
    = (Throw (new_Error
         "Failed after 3 attempts: Model returned invalid JSON. Try again."),
       s')
    /\ calls s' = 3
    /\ effects (trace s')
       = [ev_invoke 0 "kitna badiya hai"; ev_sleep 1000;
          ev_invoke 0 "kitna badiya hai"; ev_sleep 1000;
          ev_invoke 0 "kitna badiya hai"].
Proof.
  destruct (translateWithRetry_all_fail (fun _ _ => Throw parser_exception)
              (HinglishChainPro.constructor None HinglishChainPro.no_options)
              "kitna badiya hai" (fun _ => parser_exception) fresh
              (fun _ _ => eq_refl))
    as (s' & Hrun & Hcalls & Htrace).
  exists s'. split; [exact Hrun | split; assumption].
Qed.

(** ** HinglishChainPro: streaming *)

Lemma content_truthy tag c :
  truthy c ->
  content_or_chunk c = tok_text (chunk_text c)
  /\ to_string tag (content_or_chunk c) = chunk_text c.
Proof.
  destruct c as [s0|content]; simpl; [auto|].
  intros H. destruct (String.eqb_spec content ""); [contradiction|auto].
Qed.

(** Over chunks that carry text, the loop hands each text to the sink, in
    order, and appends it to [fullText]. *)
Lemma for_await_truthy tag chunks :
  Forall truthy chunks ->
  forall acc s,
    HinglishChainPro.for_await tag true chunks None acc s
    = (Return (acc +:+ concat_text chunks),
       {| chain := chain s; built := built s; calls := calls s;
          trace := trace s
                   ++ map (fun c => ev_onToken (tok_text (chunk_text c)))
                        chunks |}).
Proof.
  induction 1 as [|c chunks Hc _ IH]; intros acc s.
  - simpl. unfold ret. destruct s; simpl. rewrite app_nil_r.
    rewrite string_app_nil_r. reflexivity.
  - cbn [HinglishChainPro.for_await].
    destruct (content_truthy tag c Hc) as [-> ->].
    unfold mbind, M_bind, bind, emit. rewrite IH. simpl.
    rewrite string_app_assoc, <- app_assoc. reflexivity.
Qed.

(** A stream of chunks that all carry text: the sink receives exactly the
    increments, in arrival order, and [translated_text] is their
    concatenation. *)
Lemma translateStreamRaw_truthy ls tag text s chunks :
  ls (calls s) text = HinglishChainPro.stream_of chunks None ->
  Forall truthy chunks ->
  exists s',
    HinglishChainPro.translateStreamRaw ls tag text true s
    = (Return (JObj {[ "translated_text" := JStr (concat_text chunks) ]}), s')
    /\ sink_calls (trace s')
       = sink_calls (trace s) ++ map (fun c => tok_text (chunk_text c)) chunks.
Proof.
  intros Hs Ht. unfold HinglishChainPro.translateStreamRaw.
  step. rewrite pro_init_spec.
  step. unfold console_log at 1, emit at 1.
  unfold try_catch, mbind, M_bind, bind, emit, next_call.
  unfold after_init in *. cbn [calls trace chain built] in *. rewrite Hs.
  rewrite (for_await_truthy tag chunks Ht).
  unfold console_log, emit, ret. cbn [calls trace chain built].
  eexists. split; [reflexivity|]. cbn [trace].
  rewrite !sink_calls_app, sink_calls_tokens. simpl.
  rewrite !app_nil_r. reflexivity.
Qed.

(** The scenario of the specification: three increments, three calls of
    the sink in that order, and the assembled text. *)
Example stream_hello_world tag :
  exists s',
    HinglishChainPro.translateStreamRaw
      (fun _ _ => HinglishChainPro.stream_of
                    [chunk_message "Hel"; chunk_message "lo, ";
                     chunk_message "world"] None)
      tag "mast hai yaar" true fresh
    = (Return (JObj {[ "translated_text" := JStr "Hello, world" ]}), s')
    /\ sink_calls (trace s')
       = [tok_text "Hel"; tok_text "lo, "; tok_text "world"].
Proof.
  apply (translateStreamRaw_truthy _ tag "mast hai yaar" fresh
           [chunk_message "Hel"; chunk_message "lo, "; chunk_message "world"]).
  - reflexivity.
  - repeat constructor; discriminate.
Qed.

(** C3, evaluated on the code. When the stream holds a message chunk whose
    content is the empty string (here after the increments "Hel", "lo, ",
    "world"), [chunk.content || chunk] is the chunk object: the sink's
    fourth call receives the object, not a text, and the object's string
    form is appended to [translated_text], which is then not the
    concatenation "Hello, world" of the increments. *)
Theorem C3_empty_chunk_reaches_sink_as_object (tag : string) :
  exists s',
    HinglishChainPro.translateStreamRaw
      (fun _ _ => HinglishChainPro.stream_of
                    [chunk_message "Hel"; chunk_message "lo, ";
                     chunk_message "world"; chunk_message ""] None)
      tag "mast hai yaar" true fresh
    = (Return (JObj {[ "translated_text" :=
                         JStr ("Hello, world[object " +:+ tag +:+ "]") ]}), s')
    /\ sink_calls (trace s')
       = [tok_text "Hel"; tok_text "lo, "; tok_text "world";
          tok_object (chunk_message "")]
    /\ "Hello, world[object " +:+ tag +:+ "]" <> "Hello, world".
Proof.
  eexists. split; [reflexivity|]. split; [reflexivity|].
  cbv [String.append]. discriminate.
Qed.

(** ** HinglishChainPro: error mapping *)

Lemma handleError_spec e s :
  HinglishChainPro.handleError e s
  = (Return (new_Error (HinglishChainPro.handleError_message e)),
     {| chain := chain s; built := built s; calls := calls s;
        trace := trace s
                 ++ [ev_error (newline +:+ "❌ Error: "
                               +:+ HinglishChainPro.handleError_message e)] |}).
Proof. reflexivity. Qed.


Lemma handleError_message_uncoded e :
  code e = None -> HinglishChainPro.handleError_message e = message e.
Proof.
  intros Hc. unfold HinglishChainPro.handleError_message. rewrite Hc.
  reflexivity.
Qed.



(** ** HinglishChainPro: every failure path *)

(** A stream that fails after its chunks: the loop ends in a throw. *)
Lemma for_await_fails tag onToken e chunks :
  forall acc s,
    exists e' s',
      HinglishChainPro.for_await tag onToken chunks (Some e) acc s
      = (Throw e', s').
Proof.
  induction chunks as [|c chunks IH]; intros acc s.
  - exists e, s. reflexivity.
  - cbn [HinglishChainPro.for_await]. step.
    destruct onToken.
    + unfold emit at 1. apply IH.
    + destruct (content_or_chunk c) as [txt|[txt|content]];
        unfold HinglishChainPro.stdout_write;
        try (unfold emit at 1; apply IH).
      eexists _, s. reflexivity.
Qed.

Lemma translateStreamRaw_fails ls tag text onToken s :
  stream_fails (ls (calls s) text) ->
  exists e0 s' t,
    HinglishChainPro.translateStreamRaw ls tag text onToken s
    = (Throw (new_Error (HinglishChainPro.handleError_message e0)), s')
    /\ trace s'
       = t ++ [ev_error (newline +:+ "❌ Error: "
                         +:+ HinglishChainPro.handleError_message e0)].
Proof.
  intros Hfail. unfold HinglishChainPro.translateStreamRaw.
  step. rewrite pro_init_spec. step. unfold console_log at 1, emit at 1.
  unfold try_catch. step. unfold emit at 1. step. unfold next_call at 1.
  step. unfold after_init. cbn [calls trace chain built].
  destruct (ls (calls s) text) as [e|chunks [e|]]; [| |contradiction].
  - unfold throw at 1. step. rewrite handleError_spec. unfold throw.
    eexists e, _, _. split; reflexivity.
  - match goal with
    | |- context [HinglishChainPro.for_await tag onToken chunks (Some e) ?a ?s0] =>
        destruct (for_await_fails tag onToken e chunks a s0) as (e' & s' & ->)
    end.
    step. rewrite handleError_spec. unfold throw.
    eexists e', _, _. split; reflexivity.
Qed.

Lemma chat_fails lc msg history s e :
  lc (calls s) msg (default [] history) = Throw e ->
  HinglishChainPro.chat lc msg history s
  = (Throw (new_Error (HinglishChainPro.handleError_message e)),
     {| chain := chain s; built := built s; calls := S (calls s);
        trace := trace s
                 ++ [ev_chat msg;
                     ev_error (newline +:+ "❌ Error: "
                               +:+ HinglishChainPro.handleError_message e)] |}).
Proof.
  intros H. unfold HinglishChainPro.chat, HinglishChainPro.handleError.
  run. rewrite H. simpl. rewrite <- ?app_assoc. reflexivity.
Qed.

(** A code that names a property every object inherits is looked up as
    well: the message is then the text of that property. *)
Lemma handleError_message_inherited :
  HinglishChainPro.handleError_message
    {| name := "Error"; code := Some "constructor"; message := "boom" |}
  = "function Object() { [native code] }".
Proof. reflexivity. Qed.









(** ** Both classes: the chain is built once *)

Section Stable.
Context {A B : Type} (c : nat).

Lemma stable_ret (a : A) : stable_at c (ret a).
Proof.
  intros s Hs. simpl. repeat split; auto.
  exists []. rewrite app_nil_r. auto.
Qed.

Lemma stable_throw (e : error) : stable_at c (@throw A e).
Proof.
  intros s Hs. simpl. repeat split; auto.
  exists []. rewrite app_nil_r. auto.
Qed.

Lemma stable_lift (o : outcome A) : stable_at c (lift o).
Proof.
  intros s Hs. simpl. repeat split; auto.
  exists []. rewrite app_nil_r. auto.
Qed.

Lemma stable_bind (m : M A) (k : A -> M B) :
  stable_at c m -> (forall a, stable_at c (k a)) -> stable_at c (m ≫= k).
Proof.
  intros Hm Hk s Hs. unfold mbind, M_bind, bind.
  destruct (Hm s Hs) as (Hc & Hb & new1 & Ht1 & Hf1).
  destruct (m s) as [[a|e] s1]; simpl in *.
  - destruct (Hk a s1 Hc) as (Hc2 & Hb2 & new2 & Ht2 & Hf2).
    split; [exact Hc2|]. split; [congruence|].
    exists (new1 ++ new2). rewrite Ht2, Ht1, app_assoc.
    split; [reflexivity|]. apply Forall_app; auto.
  - repeat split; auto. exists new1. auto.
Qed.

Lemma stable_try_catch (m : M A) (h : error -> M A) :
  stable_at c m -> (forall e, stable_at c (h e)) ->
  stable_at c (try_catch m h).
Proof.
  intros Hm Hh s Hs. unfold try_catch.
  destruct (Hm s Hs) as (Hc & Hb & new1 & Ht1 & Hf1).
  destruct (m s) as [[a|e] s1]; simpl in *.
  - repeat split; auto. exists new1. auto.
  - destruct (Hh e s1 Hc) as (Hc2 & Hb2 & new2 & Ht2 & Hf2).
    split; [exact Hc2|]. split; [congruence|].
    exists (new1 ++ new2). rewrite Ht2, Ht1, app_assoc.
    split; [reflexivity|]. apply Forall_app; auto.
Qed.

(** Reading the field of an object whose chain is [c] yields [c]. *)
Lemma stable_get_chain (k : option nat -> M B) :
  stable_at c (k (Some c)) -> stable_at c (get_chain ≫= k).
Proof.
  intros Hk s Hs. unfold mbind, M_bind, bind, get_chain. rewrite Hs.
  apply Hk, Hs.
Qed.

End Stable.

Lemma stable_emit c (e : event) : invokes_only c e -> stable_at c (emit e).
Proof.
  intros He s Hs. simpl. repeat split; auto.
  exists [e]. split; [reflexivity|]. constructor; auto.
Qed.

Lemma stable_next_call c : stable_at c next_call.
Proof.
  intros s Hs. simpl. repeat split; auto.
  exists []. rewrite app_nil_r. auto.
Qed.

Lemma stable_basic_init c : stable_at c HinglishChain.init.
Proof.
  apply stable_get_chain. apply stable_ret.
Qed.

Lemma stable_pro_init c : stable_at c HinglishChainPro.init.
Proof.
  apply stable_get_chain. apply stable_ret.
Qed.

(** Takes a method apart along its sequencing, handlers and branches. *)
Ltac stable :=
  repeat first
    [ apply stable_ret | apply stable_throw | apply stable_lift
    | apply stable_next_call | apply stable_basic_init | apply stable_pro_init
    | apply stable_emit; exact I
    | apply stable_emit; reflexivity
    | apply stable_get_chain
    | apply stable_bind; [|intros]
    | apply stable_try_catch; [|intros]
    | match goal with
      | |- stable_at _ (match ?x with _ => _ end) => destruct x
      end ].

Lemma stable_basic_translate c ci text :
  stable_at c (HinglishChain.translate ci text).
Proof. unfold HinglishChain.translate. stable. Qed.

Lemma stable_basic_run_calls c ci cs :
  stable_at c (HinglishChain.run_calls ci cs).
Proof.
  induction cs as [|call cs IH]; simpl; [apply stable_ret|].
  apply stable_bind; [|intros; exact IH].
  destruct call; simpl;
    [apply stable_basic_init|].
  unfold console_error. stable.
Qed.

Lemma stable_pro_translate c ci text :
  stable_at c (HinglishChainPro.translate ci text).
Proof. unfold HinglishChainPro.translate, console_log. stable. Qed.

Lemma stable_handleError c e : stable_at c (HinglishChainPro.handleError e).
Proof. unfold HinglishChainPro.handleError, console_error. stable. Qed.

Lemma stable_for_await c tag onToken chunks failure :
  forall acc, stable_at c (HinglishChainPro.for_await tag onToken chunks failure acc).
Proof.
  induction chunks as [|chunk chunks IH]; intros acc;
    cbn [HinglishChainPro.for_await]; [stable|].
  apply stable_bind; [|intros; apply IH].
  unfold HinglishChainPro.stdout_write. stable.
Qed.

Lemma stable_translateStreamRaw c ls tag text onToken :
  stable_at c (HinglishChainPro.translateStreamRaw ls tag text onToken).
Proof.
  unfold HinglishChainPro.translateStreamRaw, console_log.
  stable; apply stable_for_await.
Qed.

Lemma stable_retry_attempts c ci this text attempts :
  forall lastError,
    stable_at c (HinglishChainPro.retry_attempts ci this text attempts lastError).
Proof.
  induction attempts as [|attempt rest IH]; intros lastError;
    cbn [HinglishChainPro.retry_attempts]; [stable|].
  unfold console_log, sleep.
  apply stable_try_catch; [stable|].
  intros e. apply stable_bind; [stable|]. intros _.
  case_bool_decide; [stable|].
  apply stable_bind; [|intros; apply IH]. stable.
Qed.

Lemma stable_chat c lc message history :
  stable_at c (HinglishChainPro.chat lc message history).
Proof.
  unfold HinglishChainPro.chat. stable.
Qed.

Lemma stable_pro_run_calls c ci ls lc tag this cs :
  stable_at c (HinglishChainPro.run_calls ci ls lc tag this cs).
Proof.
  induction cs as [|call cs IH]; simpl; [apply stable_ret|].
  apply stable_bind; [|intros; exact IH].
  destruct call; simpl; unfold HinglishChainPro.caught, console_error;
    stable;
    first [ apply stable_for_await | apply stable_retry_attempts ].
Qed.

Lemma basic_init_spec s : HinglishChain.init s = (Return tt, after_init s).
Proof.
  unfold HinglishChain.init, after_init. run.
  destruct s as [[c|] b n t]; reflexivity.
Qed.

(** C8. [init()] is idempotent in both classes: the first call leaves a
    built chain, a call on an object whose chain is built returns with the
    state unchanged, and whatever calls follow ([init], [translate], and in
    HinglishChainPro also [translateStreamRaw], [translateWithRetry] and
    [chat]) construct no further chain, leave the field as it is and invoke
    no chain but the one built first. *)
Theorem C8_init_builds_the_chain_once :
  (forall ci cs,
     built_once HinglishChain.init (HinglishChain.run_calls ci cs))
  /\ (forall ci ls lc tag this cs,
        built_once HinglishChainPro.init
          (HinglishChainPro.run_calls ci ls lc tag this cs)).
Proof.
  split.
  - intros ci cs s. rewrite basic_init_spec. cbn [snd].
    exists (default (built s) (chain s)). split; [reflexivity|].
    split; [|apply stable_basic_run_calls].
    rewrite basic_init_spec.
    rewrite (after_init_built (after_init s) _ eq_refl). reflexivity.
  - intros ci ls lc tag this cs s. rewrite pro_init_spec. cbn [snd].
    exists (default (built s) (chain s)). split; [reflexivity|].
    split; [|apply stable_pro_run_calls].
    rewrite pro_init_spec.
    rewrite (after_init_built (after_init s) _ eq_refl). reflexivity.
Qed.

Lemma C8_init_builds_once_witness :
  let later :=
    HinglishChainPro.run_calls (fun _ _ => Throw timed_out)
      (fun _ _ => HinglishChainPro.stream_refused refused)
      (fun _ _ _ => Throw refused) "Object"
      (HinglishChainPro.constructor None HinglishChainPro.no_options)
      [ HinglishChainPro.call_translate "kya baat hai yaar!";
        HinglishChainPro.call_init;
        HinglishChainPro.call_translateWithRetry "kitna badiya hai" ] in
  chain (snd (later (snd (HinglishChainPro.init fresh)))) = Some 0
  /\ built (snd (later (snd (HinglishChainPro.init fresh)))) = 1.
Proof.
  intros later.
  destruct (proj2 C8_init_builds_the_chain_once
              (fun _ _ => Throw timed_out)
              (fun _ _ => HinglishChainPro.stream_refused refused)
              (fun _ _ _ => Throw refused) "Object"
              (HinglishChainPro.constructor None HinglishChainPro.no_options)
              [ HinglishChainPro.call_translate "kya baat hai yaar!";
                HinglishChainPro.call_init;
                HinglishChainPro.call_translateWithRetry "kitna badiya hai" ]
              fresh) as (c & Hc & _ & Hstable).
  destruct (Hstable _ Hc) as (Hchain & Hbuilt & _).
  injection Hc as <-. split; [exact Hchain | exact Hbuilt].
Defined.

(** ** The schema *)

Lemma check_strings name (xs : list string) :
  Schema.check_kind name (Schema.z_array Schema.z_string) (JArr (map JStr xs))
  = None.
Proof.
  simpl. induction xs as [|x xs IH]; [reflexivity|]. simpl. exact IH.
Qed.

(** The candidate of the scenario against the two-field schema, for any
    text and any number. *)
Lemma validate_scenario (t : string) (q : Q) :
  Schema.validate Schema.scenario_schema
    (JObj {[ "translated_text" := JStr t; "confidence" := JNum q ]})
  = if Schema.in_range q (Some 0%Q) (Some 1%Q)
    then inl {[ "translated_text" := JStr t; "confidence" := JNum q ]}
    else inr (Schema.RangeViolation "confidence" q (Some 0%Q) (Some 1%Q)).
Proof.
  unfold Schema.validate, Schema.scenario_schema.
  cbn [Schema.validate_fields].
  change (({[ "translated_text" := JStr t; "confidence" := JNum q ]}
             : gmap string json) !! Schema.field_name Schema.translated_text)
    with (Some (JStr t)).
  cbn [Schema.check_kind Schema.field_kind Schema.translated_text].
  change (({[ "translated_text" := JStr t; "confidence" := JNum q ]}
             : gmap string json) !! Schema.field_name Schema.confidence)
    with (Some (JNum q)).
  cbn [Schema.check_kind Schema.field_kind Schema.confidence
       Schema.field_name].
  destruct (Schema.in_range q (Some 0%Q) (Some 1%Q)); reflexivity.
Qed.

(** The same two candidates against the schema of the repository, which
    also requires [detected_language]: they are turned down for the missing
    field before the range is looked at. *)
Lemma validate_scenario_candidate_full_schema (q : Q) :
  Schema.validate Schema.hinglishResponseSchema
    (JObj {[ "translated_text" := JStr "hi"; "confidence" := JNum q ]})
  = inr (Schema.MissingField "detected_language").
Proof. reflexivity. Qed.

(** C7. Against the schema [{translated_text: string, confidence:
    number[0,1]}] the candidate with confidence 0.92 validates to the value
    with the same two fields, and the candidate with confidence 1.5 is
    rejected with a range violation that names the field [confidence]. *)
Theorem C7_confidence_range_round_trip :
  Schema.validate Schema.scenario_schema
    (JObj {[ "translated_text" := JStr "hi"; "confidence" := JNum 0.92 ]})
  = inl {[ "translated_text" := JStr "hi"; "confidence" := JNum 0.92 ]}
  /\ Schema.validate Schema.scenario_schema
       (JObj {[ "translated_text" := JStr "hi"; "confidence" := JNum 1.5 ]})
     = inr (Schema.RangeViolation "confidence" 1.5 (Some 0%Q) (Some 1%Q)).
Proof. split; rewrite validate_scenario; reflexivity. Qed.

(** C6. A candidate of the repository's schema whose required fields are
    well typed validates when [alternative_translations] is missing, with
    that field set to the empty array, and validates when [cultural_notes]
    is missing, with that field absent from the value. *)
Theorem C6_missing_optional_fields_are_no_error
    (m : gmap string json) (t d : string) (q : Q) :
  m !! "translated_text" = Some (JStr t) ->
  m !! "detected_language" = Some (JStr d) ->
  m !! "confidence" = Some (JNum q) ->
  Schema.in_range q (Some 0%Q) (Some 1%Q) = true ->
  (m !! "alternative_translations" = None ->
   (m !! "cultural_notes" = None
    \/ exists n, m !! "cultural_notes" = Some (JStr n)) ->
   exists typed,
     Schema.validate Schema.hinglishResponseSchema (JObj m) = inl typed
     /\ typed !! "alternative_translations" = Some (JArr []))
  /\ (m !! "cultural_notes" = None ->
      (m !! "alternative_translations" = None
       \/ exists xs, m !! "alternative_translations"
                     = Some (JArr (map JStr xs))) ->
      exists typed,
        Schema.validate Schema.hinglishResponseSchema (JObj m) = inl typed
        /\ typed !! "cultural_notes" = None).
Proof.
  intros Ht Hd Hq Hr.
  assert (Hhead :
    forall rest,
      Schema.validate_fields
        (Schema.translated_text :: Schema.detected_language
         :: Schema.confidence :: rest) m ∅
      = Schema.validate_fields rest m
          (<["confidence" := JNum q]>
             (<["detected_language" := JStr d]>
                (<["translated_text" := JStr t]> ∅)))).
  { intros rest. cbn [Schema.validate_fields Schema.field_name
      Schema.translated_text Schema.detected_language Schema.confidence
      Schema.field_kind].
    rewrite Ht, Hd, Hq. cbn [Schema.check_kind]. rewrite Hr. reflexivity. }
  unfold Schema.validate, Schema.hinglishResponseSchema. rewrite Hhead.
  cbn [Schema.validate_fields Schema.field_name
       Schema.alternative_translations Schema.cultural_notes
       Schema.field_kind Schema.field_presence].
  split.
  - intros Ha [Hn|[n Hn]]; rewrite Ha, Hn; cbn [Schema.check_kind];
      eexists; (split; [reflexivity|]).
    + apply lookup_insert_eq.
    + rewrite lookup_insert_ne by discriminate. apply lookup_insert_eq.
  - intros Hn [Ha|[xs Ha]]; rewrite Ha, Hn; [|rewrite check_strings];
      eexists; (split; [reflexivity|]);
      repeat (rewrite lookup_insert_ne by discriminate);
      apply lookup_empty.
Qed.

Lemma C6_missing_optional_fields_witness :
  exists typed,
    Schema.validate Schema.hinglishResponseSchema
      (JObj {[ "translated_text" := JStr "what's up, friend!";
               "detected_language" := JStr "Hinglish";
               "confidence" := JNum 0.92 ]})
    = inl typed
    /\ typed !! "alternative_translations" = Some (JArr []).
Proof.
  apply (C6_missing_optional_fields_are_no_error
           {[ "translated_text" := JStr "what's up, friend!";
              "detected_language" := JStr "Hinglish";
              "confidence" := JNum 0.92 ]}
           "what's up, friend!" "Hinglish" 0.92);
    first [ reflexivity | left; reflexivity ].
Defined.

(** ** agent-chat.js *)

Lemma existsb_includes text ws w :
  In w ws -> AgentChat.includes text w = true ->
  existsb (fun w => AgentChat.includes text w) ws = true.
Proof. intros Hin Hw. apply existsb_exists. exists w. auto. Qed.

(** C9. For every input, [analyzeSentiment] returns one of the three
    sentiments, an intensity among 5, 6, 7 and 8, and confidence 0.75; an
    input with a keyword of the positive list and one of the negative list
    is neutral with intensity 5; [should_celebrate] is true only for a
    positive sentiment and [should_comfort] only for a negative one. *)
Theorem C9_sentiment_ranges (toLowerCase : string -> string) (input : string) :
  let r := AgentChat.analyzeSentiment toLowerCase input in
  In (AgentChat.sentiment r) ["positive"; "negative"; "neutral"]
  /\ In (AgentChat.intensity r) [5; 6; 7; 8]%Z
  /\ AgentChat.sentiment_confidence r = 0.75%Q
  /\ ((exists p, In p AgentChat.positive
                 /\ AgentChat.includes (toLowerCase input) p = true) ->
      (exists n, In n AgentChat.negative
                 /\ AgentChat.includes (toLowerCase input) n = true) ->
      AgentChat.sentiment r = "neutral" /\ AgentChat.intensity r = 5%Z)
  /\ (AgentChat.should_celebrate r = true -> AgentChat.sentiment r = "positive")
  /\ (AgentChat.should_comfort r = true -> AgentChat.sentiment r = "negative").
Proof.
  intros r. subst r. unfold AgentChat.analyzeSentiment.
  set (text := toLowerCase input).
  destruct (existsb (fun w => AgentChat.includes text w) AgentChat.positive)
    eqn:Hp;
  destruct (existsb (fun w => AgentChat.includes text w) AgentChat.negative)
    eqn:Hn;
  destruct (existsb (fun w => AgentChat.includes text w) AgentChat.emphasis);
  cbn -[AgentChat.positive AgentChat.negative AgentChat.includes];
  (split; [simpl; tauto|]); (split; [simpl; tauto|]);
  (split; [reflexivity|]);
  (split;
     [ intros (p & Hpin & Hpw) (n & Hnin & Hnw);
       rewrite (existsb_includes text _ p Hpin Hpw) in Hp;
       rewrite (existsb_includes text _ n Hnin Hnw) in Hn;
       first [ discriminate | split; reflexivity ]
     | split; intros H; first [ discriminate H | reflexivity ] ]).
Qed.

Lemma C9_sentiment_witness :
  AgentChat.sentiment
    (AgentChat.analyzeSentiment AgentChat.ascii_toLowerCase "Happy but tired")
  = "neutral"
  /\ AgentChat.intensity
       (AgentChat.analyzeSentiment AgentChat.ascii_toLowerCase "Happy but tired")
     = 5%Z.
Proof.
  apply (C9_sentiment_ranges AgentChat.ascii_toLowerCase "Happy but tired").
  - exists "happy". split; [simpl; auto | reflexivity].
  - exists "tired". split; [simpl; auto 10 | reflexivity].
Defined.

(** The keys of the dictionary object: each word of the literal, once. *)
Lemma dictionary_keys_nodup : NoDup (AgentChat.Object_keys AgentChat.dictionary).
Proof. apply (bool_decide_eq_true_1 _). vm_compute. reflexivity. Qed.

Lemma incl_by_computation (l1 l2 : list string) :
  forallb (fun x => existsb (String.eqb x) l2) l1 = true -> incl l1 l2.
Proof.
  intros H x Hx. rewrite forallb_forall in H. specialize (H x Hx).
  apply existsb_exists in H as (y & Hy & Heq).
  apply String.eqb_eq in Heq. subst. exact Hy.
Qed.

Lemma dictionary_keys_words w :
  In w (AgentChat.Object_keys AgentChat.dictionary)
  <-> In w (map fst AgentChat.dictionary_entries).
Proof.
  split; apply incl_by_computation; vm_compute; reflexivity.
Qed.

(** C10. For every input, with [k] the number of dictionary words that
    occur in the lower-cased input, [analyzeHinglish] returns the confidence
    [min(0.2 k + 0.5, 0.9)], which lies between 0.5 and 0.9; and when no
    word occurs it returns [is_hinglish] false and the input as the
    translation. *)
Theorem C10_hinglish_confidence (toLowerCase : string -> string)
    (input : string) :
  let r := AgentChat.analyzeHinglish toLowerCase input in
  let k := length (AgentChat.detected_words r) in
  NoDup (AgentChat.detected_words r)
  /\ (forall w,
        In w (AgentChat.detected_words r)
        <-> In w (map fst AgentChat.dictionary_entries)
            /\ AgentChat.includes (toLowerCase input) w = true)
  /\ (AgentChat.confidence r
      == Qmin (0.2 * inject_Z (Z.of_nat k) + 0.5) 0.9)%Q
  /\ (0.5 <= AgentChat.confidence r)%Q
  /\ (AgentChat.confidence r <= 0.9)%Q
  /\ (k = 0 -> AgentChat.is_hinglish r = false
               /\ AgentChat.translation r = input).
Proof.
  intros r k. subst r k. unfold AgentChat.analyzeHinglish.
  cbn [AgentChat.detected_words AgentChat.confidence AgentChat.is_hinglish
       AgentChat.translation].
  set (words := filter _ _).
  split; [apply NoDup_filter, dictionary_keys_nodup|].
  split.
  { intros w. subst words. rewrite <- !list_elem_of_In, list_elem_of_filter.
    rewrite !list_elem_of_In, dictionary_keys_words. tauto. }
  split.
  { apply Q.min_compat; [|reflexivity].
    rewrite (Qmult_comm 0.2). reflexivity. }
  split.
  { apply Q.min_glb; [|discriminate].
    rewrite <- (Qplus_0_l 0.5) at 1. apply Qplus_le_compat; [|apply Qle_refl].
    apply Qmult_le_0_compat; [|discriminate].
    rewrite <- (Zle_Qle 0). apply Nat2Z.is_nonneg. }
  split; [apply Q.le_min_r|].
  intros Hk. destruct words; [|discriminate]. split; reflexivity.
Qed.

Lemma C10_hinglish_confidence_witness :
  AgentChat.is_hinglish
    (AgentChat.analyzeHinglish AgentChat.ascii_toLowerCase "Hello there")
  = false
  /\ AgentChat.translation
       (AgentChat.analyzeHinglish AgentChat.ascii_toLowerCase "Hello there")
     = "Hello there".
Proof.
  apply (C10_hinglish_confidence AgentChat.ascii_toLowerCase "Hello there").
  reflexivity.
Defined.

(* ====================================================================== *)
(** * Further properties of the code                                       *)
(* ====================================================================== *)

Import Behaviour HinglishChainPro.

(** ** HinglishChainPro: the retry loop, all outcomes *)

Lemma pro_translate_returns ci text s v :
  ci (calls s) text = Return v ->
  HinglishChainPro.translate ci text s =
    (Return v,
     {| chain := chain (after_init s); built := built (after_init s);
        calls := S (calls s);
        trace := trace s
                 ++ [ev_log ("🔄 Translating: " +:+ dquote +:+ text +:+ dquote);
                     ev_invoke (default (built s) (chain s)) text;
                     ev_log "✅ Translation complete!"] |}).
Proof.
  intros H. unfold HinglishChainPro.translate. step. rewrite pro_init_spec.
  run. rewrite H. simpl. rewrite <- !app_assoc. reflexivity.
Qed.

Lemma retry_attempts_until_success ci this text v :
  forall j k a lastError s,
    j < k ->
    Z.of_nat k = (HinglishChainPro.maxRetries this + 1 - a)%Z ->
    (forall n, calls s <= n < calls s + j -> exists e, ci n text = Throw e) ->
    ci (calls s + j) text = Return v ->
    exists s',
      HinglishChainPro.retry_attempts ci this text (seqZ a (Z.of_nat k))
        lastError s = (Return v, s')
      /\ calls s' = calls s + S j
      /\ chain s' = chain (after_init s)
      /\ built s' = built (after_init s)
      /\ effects (trace s')
         = effects (trace s)
           ++ attempts_until_success (default (built s) (chain s)) text
                (HinglishChainPro.retryDelay this) j.
Proof.
  induction j as [|j IH]; intros k a lastError s Hjk Hk Hfail Hok.
  - destruct k as [|k]; [lia|].
    rewrite seqZ_cons by lia. cbn [HinglishChainPro.retry_attempts].
    unfold try_catch. step. unfold console_log at 1, emit at 1.
    rewrite Nat.add_0_r in Hok.
    rewrite (pro_translate_returns ci text _ v) by (simpl; exact Hok).
    eexists. split; [reflexivity|]. cbn [calls chain built trace after_init].
    split; [lia|]. split; [reflexivity|]. split; [reflexivity|].
    rewrite !effects_app. simpl. rewrite <- !app_assoc. reflexivity.
  - destruct k as [|k]; [lia|].
    rewrite seqZ_cons by lia. cbn [HinglishChainPro.retry_attempts].
    unfold try_catch. step. unfold console_log at 1, emit at 1.
    destruct (Hfail (calls s)) as [e0 He0]; [lia|].
    rewrite (pro_translate_fails ci text _ e0) by (simpl; exact He0).
    step. unfold console_log at 1, emit at 1.
    rewrite bool_decide_eq_false_2 by apply rethrown_name.
    step. replace (Z.pred (Z.of_nat (S k))) with (Z.of_nat k) by lia.
    destruct (Z.ltb_spec a (HinglishChainPro.maxRetries this)) as [Hlt|Hge]; [|lia].
    step. unfold console_log at 1, emit at 1, sleep, emit.
    match goal with
    | |- context [HinglishChainPro.retry_attempts _ _ _ _ ?le ?s3] =>
        destruct (IH k (Z.succ a) le s3) as (s' & Hrun & Hn & Hc & Hb & Ht)
    end.
    + lia.
    + lia.
    + intros n Hn. cbn [calls] in Hn. apply Hfail. lia.
    + cbn [calls]. replace (S (calls s) + j) with (calls s + S j) by lia. exact Hok.
    + exists s'. rewrite Hrun. split; [reflexivity|].
      cbn [calls chain built trace after_init] in *.
      split; [lia|]. split; [rewrite Hc; reflexivity|].
      split; [rewrite Hb; destruct (chain s); reflexivity|].
      rewrite Ht. rewrite !effects_app. simpl. rewrite <- !app_assoc.
      unfold attempts_until_success. simpl. 
      destruct (chain s); reflexivity.
Qed.


Lemma pro_translate_spec ci text s :
  HinglishChainPro.translate ci text s
  = match ci (calls s) text with
    | Return v =>
        (Return v,
         {| chain := chain (after_init s); built := built (after_init s);
            calls := S (calls s);
            trace := trace s
                     ++ [ev_log ("🔄 Translating: " +:+ dquote +:+ text +:+ dquote);
                         ev_invoke (default (built s) (chain s)) text;
                         ev_log "✅ Translation complete!"] |})
    | Throw e =>
        (Throw (rethrown e),
         {| chain := chain (after_init s); built := built (after_init s);
            calls := S (calls s);
            trace := trace s
                     ++ [ev_log ("🔄 Translating: " +:+ dquote +:+ text +:+ dquote);
                         ev_invoke (default (built s) (chain s)) text] |})
    end.
Proof.
  destruct (ci (calls s) text) as [v|e] eqn:H.
  - apply pro_translate_returns, H.
  - apply pro_translate_fails, H.
Qed.

Lemma retry_attempts_bounds ci this text :
  forall k a lastError s,
    Z.of_nat k = Z.max 0 (HinglishChainPro.maxRetries this + 1 - a) ->
    exists o s' new,
      HinglishChainPro.retry_attempts ci this text
        (seqZ a (Z.of_nat k)) lastError s = (o, s')
      /\ trace s' = trace s ++ new
      /\ Forall (retry_event this (default (built s) (chain s)) text) new
      /\ calls s' <= calls s + k
      /\ calls s' = calls s + length (List.filter is_invoke new)
      /\ length (List.filter is_sleep new) <= pred k.
Proof.
  induction k as [|k IH]; intros a lastError s Hk.
  - change (seqZ a (Z.of_nat 0)) with (@nil Z).
    cbn [HinglishChainPro.retry_attempts].
    destruct lastError; eexists _, s, []; (split; [reflexivity|]);
      rewrite app_nil_r; cbn; repeat split; auto; lia.
  - rewrite seqZ_cons by lia. cbn [HinglishChainPro.retry_attempts].
    unfold try_catch. step. unfold console_log at 1, emit at 1.
    rewrite pro_translate_spec. cbn [calls chain built trace after_init].
    destruct (ci (calls s) text) as [v|e].
    + eexists _, _, _. split; [reflexivity|]. cbn [trace calls].
      rewrite <- !app_assoc.
      split; [reflexivity|]. simpl.
      split; [repeat constructor|]. repeat split; lia.
    + step. unfold console_log at 1, emit at 1.
      rewrite bool_decide_eq_false_2 by apply rethrown_name.
      step. replace (Z.pred (Z.of_nat (S k))) with (Z.of_nat k) by lia.
      destruct (Z.ltb_spec a (HinglishChainPro.maxRetries this)) as [Hlt|Hge].
      * step. unfold console_log at 1, emit at 1, sleep, emit.
        destruct k as [|k']; [lia|].
        match goal with
        | |- context [HinglishChainPro.retry_attempts _ _ _ _ ?le ?s3] =>
            destruct (IH (Z.succ a) le s3)
              as (o & s' & new & Hrun & Ht & Hall & Hn & Hinv & Hsl);
            [lia|]
        end.
        cbn [calls chain built trace] in *.
        eexists o, s', _. split; [exact Hrun|].
        rewrite Ht. rewrite <- !app_assoc.
        split; [reflexivity|]. simpl.
        split.
        { repeat (constructor; [simpl; auto|]).
          destruct (chain s); exact Hall. }
        rewrite Hinv. repeat split; lia.
      * destruct k as [|k']; [|lia]. unfold ret.
        change (seqZ (Z.succ a) (Z.of_nat 0)) with (@nil Z).
        cbn [HinglishChainPro.retry_attempts]. unfold throw.
        eexists _, _, _. split; [reflexivity|]. cbn [trace calls].
        rewrite <- !app_assoc.
        split; [reflexivity|]. simpl.
        split; [repeat constructor|]. repeat split; lia.
Qed.

(** ** Only the allowed events *)

Section Emits.
Context {A B : Type} (P : event -> Prop).

Lemma emits_ret (a : A) : emits_only P (ret a).
Proof. intros s. exists []. simpl. rewrite app_nil_r. auto. Qed.
Lemma emits_throw (e : error) : emits_only P (@throw A e).
Proof. intros s. exists []. simpl. rewrite app_nil_r. auto. Qed.
Lemma emits_lift (o : outcome A) : emits_only P (lift o).
Proof. intros s. exists []. simpl. rewrite app_nil_r. auto. Qed.
Lemma emits_bind (m : M A) (k : A -> M B) :
  emits_only P m -> (forall a, emits_only P (k a)) -> emits_only P (m ≫= k).
Proof.
  intros Hm Hk s. unfold mbind, M_bind, bind.
  destruct (Hm s) as (new1 & Ht1 & Hf1).
  destruct (m s) as [[a|e] s1]; simpl in *.
  - destruct (Hk a s1) as (new2 & Ht2 & Hf2).
    exists (new1 ++ new2). rewrite Ht2, Ht1, app_assoc.
    split; [reflexivity|]. apply Forall_app; auto.
  - exists new1. auto.
Qed.
Lemma emits_try_catch (m : M A) (h : error -> M A) :
  emits_only P m -> (forall e, emits_only P (h e)) ->
  emits_only P (try_catch m h).
Proof.
  intros Hm Hh s. unfold try_catch.
  destruct (Hm s) as (new1 & Ht1 & Hf1).
  destruct (m s) as [[a|e] s1]; simpl in *.
  - exists new1. auto.
  - destruct (Hh e s1) as (new2 & Ht2 & Hf2).
    exists (new1 ++ new2). rewrite Ht2, Ht1, app_assoc.
    split; [reflexivity|]. apply Forall_app; auto.
Qed.
End Emits.

Lemma emits_emit P (e : event) : P e -> emits_only P (emit e).
Proof. intros He s. exists [e]. simpl. split; [reflexivity|]. constructor; auto. Qed.
Lemma emits_next_call P : emits_only P next_call.
Proof. intros s. exists []. simpl. rewrite app_nil_r. auto. Qed.
Lemma emits_get_chain P : emits_only P get_chain.
Proof. intros s. exists []. simpl. rewrite app_nil_r. auto. Qed.
Lemma emits_set_chain P c : emits_only P (set_chain c).
Proof. intros s. exists []. simpl. rewrite app_nil_r. auto. Qed.
Lemma emits_construct_chain P : emits_only P construct_chain.
Proof. intros s. exists []. simpl. rewrite app_nil_r. auto. Qed.

Ltac emits :=
  repeat first
    [ apply emits_ret | apply emits_throw | apply emits_lift
    | apply emits_next_call | apply emits_get_chain | apply emits_set_chain
    | apply emits_construct_chain
    | apply emits_emit; exact I
    | apply emits_bind; [|intros]
    | apply emits_try_catch; [|intros]
    | match goal with
      | |- emits_only _ (match ?x with _ => _ end) => destruct x
      end ].


Lemma emits_for_await tag onToken chunks failure :
  forall acc, emits_only streaming_event
                (HinglishChainPro.for_await tag onToken chunks failure acc).
Proof.
  induction chunks as [|chunk chunks IH]; intros acc;
    cbn [HinglishChainPro.for_await]; [emits|].
  apply emits_bind; [|intros; apply IH].
  unfold HinglishChainPro.stdout_write. emits.
Qed.

Lemma emits_translateStreamRaw ls tag text onToken :
  emits_only streaming_event
    (HinglishChainPro.translateStreamRaw ls tag text onToken).
Proof.
  unfold HinglishChainPro.translateStreamRaw, HinglishChainPro.init,
    HinglishChainPro.handleError, console_log, console_error.
  emits; apply emits_for_await.
Qed.

Lemma emits_chat lc msg history :
  emits_only chat_event (HinglishChainPro.chat lc msg history).
Proof.
  unfold HinglishChainPro.chat, HinglishChainPro.handleError, console_error.
  emits.
Qed.


(** X1. [translateWithRetry] returns the first answer it gets: when the
    first [j] calls of the chain fail, the next one answers [v] and [j] is
    below [maxRetries], the result is [v] after exactly [j + 1] calls, with
    one wait of [retryDelay] after each failure and none after the
    success. *)
Theorem retry_returns_first_success
    (ci : nat -> string -> outcome json) (this : config) (text : string)
    (v : json) (j : nat) (s : state) :
  (Z.of_nat j < maxRetries this)%Z ->
  (forall n, calls s <= n < calls s + j -> exists e, ci n text = Throw e) ->
  ci (calls s + j) text = Return v ->
  exists s',
    translateWithRetry ci this text s = (Return v, s')
    /\ calls s' = calls s + S j
    /\ effects (trace s')
       = effects (trace s)
         ++ attempts_until_success (default (built s) (chain s)) text
              (retryDelay this) j.
Proof.
  intros Hj Hfail Hok. unfold translateWithRetry. rewrite seqZ_to_nat.
  destruct (retry_attempts_until_success ci this text v j
              (Z.to_nat (maxRetries this)) 1%Z None s)
    as (s' & Hrun & Hn & _ & _ & Ht); try assumption; try lia.
  exists s'. auto.
Qed.


Lemma retry_returns_first_success_witness :
  exists s',
    translateWithRetry (flaky (JStr "ok")) (constructor None no_options)
      "kitna badiya hai" fresh = (Return (JStr "ok"), s')
    /\ calls s' = 2
    /\ effects (trace s')
       = [ev_invoke 0 "kitna badiya hai"; ev_sleep 1000;
          ev_invoke 0 "kitna badiya hai"].
Proof.
  apply (retry_returns_first_success (flaky (JStr "ok"))
           (constructor None no_options) "kitna badiya hai" (JStr "ok") 1 fresh).
  - reflexivity.
  - intros n Hn. simpl in Hn. assert (n = 0) as -> by lia.
    exists timed_out. reflexivity.
  - reflexivity.
Defined.

(** X2. Whatever the collaborator does, [translateWithRetry] calls the
    chain at most [maxRetries] times, always the same chain with the same
    text, waits at most [maxRetries - 1] times, each time [retryDelay], and
    beyond these only writes to the console. *)
Theorem retry_never_exceeds_its_budget
    (ci : nat -> string -> outcome json) (this : config) (text : string)
    (s : state) :
  exists o s' new,
    translateWithRetry ci this text s = (o, s')
    /\ trace s' = trace s ++ new
    /\ Forall (retry_event this (default (built s) (chain s)) text) new
    /\ calls s' <= calls s + Z.to_nat (maxRetries this)
    /\ calls s' = calls s + length (List.filter is_invoke new)
    /\ length (List.filter is_sleep new) <= pred (Z.to_nat (maxRetries this)).
Proof.
  unfold translateWithRetry. rewrite seqZ_to_nat.
  apply retry_attempts_bounds. lia.
Qed.

(** X3. With [maxRetries] zero or negative the loop of
    [translateWithRetry] does not run: no call is made, nothing is logged,
    and the final throw reads [lastError.message] of [undefined], a
    [TypeError]. *)
Theorem retry_without_budget_throws_TypeError
    (ci : nat -> string -> outcome json) (this : config) (text : string)
    (s : state) :
  (maxRetries this <= 0)%Z ->
  translateWithRetry ci this text s = (Throw (TypeError_undefined "message"), s).
Proof.
  intros H. unfold translateWithRetry. rewrite seqZ_nil by lia. reflexivity.
Qed.

Lemma retry_without_budget_witness :
  translateWithRetry (fun _ _ => Return JNull)
    (constructor None (mkOptions (Some (-1)%Z) None None))
    "kitna badiya hai" fresh
  = (Throw (TypeError_undefined "message"), fresh).
Proof.
  apply retry_without_budget_throws_TypeError. simpl. lia.
Defined.

(** X4. The constructor reads [options.maxRetries || 3] and
    [options.retryDelay || 1000], so a caller who passes 0 gets the
    defaults: against a collaborator that always fails the object still
    makes three calls with two waits of 1000 ms. *)
Theorem zero_options_fall_back_to_defaults
    (ci : nat -> string -> outcome json) (err : nat -> error)
    (model : option string) (opts : options) (text : string) (s : state) :
  (opt_maxRetries opts = None \/ opt_maxRetries opts = Some 0%Z) ->
  (opt_retryDelay opts = None \/ opt_retryDelay opts = Some 0%Z) ->
  (forall n t, ci n t = Throw (err n)) ->
  let this := constructor model opts in
  let c := default (built s) (chain s) in
  maxRetries this = 3%Z /\ retryDelay this = 1000%Z
  /\ exists e s',
       translateWithRetry ci this text s = (Throw e, s')
       /\ calls s' = calls s + 3
       /\ effects (trace s')
          = effects (trace s)
            ++ [ev_invoke c text; ev_sleep 1000; ev_invoke c text;
                ev_sleep 1000; ev_invoke c text].
Proof.
  intros Hm Hd Hfail this c.
  assert (H3 : maxRetries this = 3%Z)
    by (subst this; simpl; destruct Hm as [-> | ->]; reflexivity).
  assert (Hd' : retryDelay this = 1000%Z)
    by (subst this; simpl; destruct Hd as [-> | ->]; reflexivity).
  split; [exact H3|]. split; [exact Hd'|].
  destruct (translateWithRetry_all_fail ci this text err s Hfail)
    as (s' & Hrun & Hcalls & Heff).
  rewrite H3 in Hcalls, Heff. rewrite Hd' in Heff.
  eexists _, s'. split; [exact Hrun|]. split; [exact Hcalls|]. exact Heff.
Qed.

Lemma zero_options_witness :
  exists e s',
    translateWithRetry (fun _ _ => Throw refused)
      (constructor None (mkOptions (Some 0%Z) (Some 0%Z) None))
      "kitna badiya hai" fresh = (Throw e, s')
    /\ calls s' = 3
    /\ effects (trace s')
       = [ev_invoke 0 "kitna badiya hai"; ev_sleep 1000;
          ev_invoke 0 "kitna badiya hai"; ev_sleep 1000;
          ev_invoke 0 "kitna badiya hai"].
Proof.
  apply (zero_options_fall_back_to_defaults (fun _ _ => Throw refused)
           (fun _ => refused) None (mkOptions (Some 0%Z) (Some 0%Z) None)
           "kitna badiya hai" fresh); auto.
Defined.


Lemma stdout_writes_app t1 t2 :
  stdout_writes (t1 ++ t2) = stdout_writes t1 ++ stdout_writes t2.
Proof.
  induction t1 as [|e t1 IH]; [reflexivity|].
  destruct e; simpl; rewrite IH; reflexivity.
Qed.

Lemma for_await_truthy_stdout tag chunks :
  Forall truthy chunks ->
  forall acc s,
    for_await tag false chunks None acc s
    = (Return (acc +:+ concat_text chunks),
       {| chain := chain s; built := built s; calls := calls s;
          trace := trace s ++ map (fun c => ev_stdout (chunk_text c)) chunks |}).
Proof.
  induction 1 as [|c chunks Hc _ IH]; intros acc s.
  - simpl. unfold ret. destruct s; simpl. rewrite app_nil_r.
    rewrite string_app_nil_r. reflexivity.
  - cbn [for_await].
    destruct (content_truthy tag c Hc) as [-> ->].
    unfold stdout_write, mbind, M_bind, bind, emit. rewrite IH. simpl.
    rewrite string_app_assoc, <- app_assoc. reflexivity.
Qed.

Lemma stdout_writes_texts {A} (f : A -> string) (xs : list A) :
  stdout_writes (map (fun x => ev_stdout (f x)) xs) = map f xs.
Proof. induction xs as [|x xs IH]; [reflexivity|]. simpl. now rewrite IH. Qed.

Lemma sink_calls_stdout {A} (f : A -> string) (xs : list A) :
  sink_calls (map (fun x => ev_stdout (f x)) xs) = [].
Proof. induction xs as [|x xs IH]; [reflexivity|]. simpl. exact IH. Qed.

Lemma stdout_writes_sink {A} (f : A -> token) (xs : list A) :
  stdout_writes (map (fun x => ev_onToken (f x)) xs) = [].
Proof. induction xs as [|x xs IH]; [reflexivity|]. simpl. exact IH. Qed.

(** X5. For a stream that ends well and whose chunks all carry text,
    [translateStreamRaw] returns the concatenation of the texts and hands
    each text, in arrival order, to the sink when one was passed and to the
    standard output otherwise, after exactly one call of the model. *)
Theorem stream_delivers_increments_in_order
    (ls : nat -> string -> streaming) (tag text : string) (onToken : bool)
    (chunks : list chunk) (s : state) :
  ls (calls s) text = stream_of chunks None ->
  Forall truthy chunks ->
  exists s',
    translateStreamRaw ls tag text onToken s
    = (Return (JObj {[ "translated_text" := JStr (concat_text chunks) ]}), s')
    /\ sink_calls (trace s')
       = sink_calls (trace s)
         ++ (if onToken then map (fun c => tok_text (chunk_text c)) chunks
             else [])
    /\ stdout_writes (trace s')
       = stdout_writes (trace s)
         ++ (if onToken then [] else map chunk_text chunks)
    /\ calls s' = S (calls s).
Proof.
  intros Hs Ht. unfold translateStreamRaw.
  step. rewrite pro_init_spec.
  step. unfold console_log at 1, emit at 1.
  unfold try_catch, mbind, M_bind, bind, emit, next_call.
  unfold after_init in *. cbn [calls trace chain built] in *. rewrite Hs.
  destruct onToken.
  - rewrite (for_await_truthy tag chunks Ht).
    unfold console_log, emit, ret. cbn [calls trace chain built].
    eexists. split; [reflexivity|]. cbn [trace calls].
    rewrite !sink_calls_app, !stdout_writes_app, sink_calls_tokens,
      stdout_writes_sink. simpl.
    rewrite !app_nil_r. repeat split.
  - rewrite (for_await_truthy_stdout tag chunks Ht).
    unfold console_log, emit, ret. cbn [calls trace chain built].
    eexists. split; [reflexivity|]. cbn [trace calls].
    rewrite !sink_calls_app, !stdout_writes_app, stdout_writes_texts,
      sink_calls_stdout. simpl.
    rewrite !app_nil_r. repeat split.
Qed.

Lemma stream_delivers_witness :
  exists s',
    translateStreamRaw
      (fun _ _ => stream_of [chunk_message "kya "; chunk_string "baat"] None)
      "Object" "mast hai yaar" false fresh
    = (Return (JObj {[ "translated_text" := JStr "kya baat" ]}), s')
    /\ sink_calls (trace s') = []
    /\ stdout_writes (trace s') = ["kya "; "baat"]
    /\ calls s' = 1.
Proof.
  apply (stream_delivers_increments_in_order _ "Object" "mast hai yaar" false
           [chunk_message "kya "; chunk_string "baat"] fresh).
  - reflexivity.
  - repeat constructor. discriminate.
Defined.

Lemma for_await_sink_fails tag chunks e :
  forall acc s,
    for_await tag true chunks (Some e) acc s
    = (Throw e,
       {| chain := chain s; built := built s; calls := calls s;
          trace := trace s ++ map (fun c => ev_onToken (content_or_chunk c)) chunks |}).
Proof.
  induction chunks as [|c chunks IH]; intros acc s.
  - simpl. unfold throw. destruct s; simpl. rewrite app_nil_r. reflexivity.
  - cbn [for_await]. unfold mbind, M_bind, bind, emit. rewrite IH. simpl.
    rewrite <- app_assoc. reflexivity.
Qed.

(** X6. When the stream fails after some chunks, the sink has received
    every chunk that arrived, in order; then [handleError] reports the
    error and [translateStreamRaw] throws the [Error] it built. Nothing is
    returned and the line "Stream complete" is not written. *)
Theorem stream_failure_keeps_delivered_tokens
    (ls : nat -> string -> streaming) (tag text : string)
    (chunks : list chunk) (e : error) (s : state) :
  ls (calls s) text = stream_of chunks (Some e) ->
  exists s',
    translateStreamRaw ls tag text true s
    = (Throw (new_Error (handleError_message e)), s')
    /\ trace s'
       = trace s
         ++ [ev_log ("🔄 Streaming translation: " +:+ dquote +:+ text
                     +:+ dquote +:+ newline);
             ev_stream text]
         ++ map (fun c => ev_onToken (content_or_chunk c)) chunks
         ++ [ev_error (newline +:+ "❌ Error: " +:+ handleError_message e)]
    /\ calls s' = S (calls s).
Proof.
  intros Hs. unfold translateStreamRaw.
  step. rewrite pro_init_spec.
  step. unfold console_log at 1, emit at 1.
  unfold try_catch. step. unfold emit at 1. step. unfold next_call at 1.
  step. unfold after_init. cbn [calls trace chain built]. rewrite Hs.
  rewrite for_await_sink_fails. step. rewrite handleError_spec. unfold throw.
  eexists. split; [reflexivity|]. cbn [trace calls].
  rewrite <- !app_assoc. split; reflexivity.
Qed.

Lemma stream_failure_witness :
  exists s',
    translateStreamRaw
      (fun _ _ => stream_of [chunk_message "kya "; chunk_message "baat"]
                    (Some timed_out))
      "Object" "mast hai yaar" true fresh
    = (Throw (new_Error (handleError_message timed_out)), s')
    /\ trace s'
       = [ev_log ("🔄 Streaming translation: " +:+ dquote +:+ "mast hai yaar"
                  +:+ dquote +:+ newline);
          ev_stream "mast hai yaar";
          ev_onToken (tok_text "kya "); ev_onToken (tok_text "baat");
          ev_error (newline +:+ "❌ Error: " +:+ handleError_message timed_out)]
    /\ calls s' = 1.
Proof.
  apply (stream_failure_keeps_delivered_tokens _ "Object" "mast hai yaar"
           [chunk_message "kya "; chunk_message "baat"] timed_out fresh).
  reflexivity.
Defined.

Lemma for_await_fields tag onToken chunks failure :
  forall acc s,
    let s' := snd (for_await tag onToken chunks failure acc s) in
    chain s' = chain s /\ built s' = built s /\ calls s' = calls s.
Proof.
  induction chunks as [|c chunks IH]; intros acc s; cbn [for_await].
  - destruct failure; simpl; auto.
  - unfold mbind, M_bind, bind.
    destruct onToken.
    + unfold emit. apply (IH _ {| chain := chain s; built := built s; calls := calls s; trace := _ |}).
    + destruct (content_or_chunk c) as [txt|[txt|content]];
        unfold stdout_write, emit, throw;
        try apply (IH _ {| chain := chain s; built := built s; calls := calls s; trace := _ |}).
      simpl. auto.
Qed.

Lemma translateStreamRaw_fields ls tag text onToken s :
  exists o s',
    translateStreamRaw ls tag text onToken s = (o, s')
    /\ chain s' = chain (after_init s)
    /\ built s' = built (after_init s)
    /\ calls s' = S (calls s).
Proof.
  unfold translateStreamRaw.
  step. rewrite pro_init_spec.
  step. unfold console_log at 1, emit at 1.
  unfold try_catch. step. unfold emit at 1. step. unfold next_call at 1.
  step. cbn [calls trace chain built].
  destruct (ls (calls (after_init s)) text) as [e|chunks failure].
  - unfold throw at 1. step. rewrite handleError_spec. unfold throw.
    eexists _, _. split; [reflexivity|]. simpl. auto.
  - match goal with
    | |- context [for_await tag onToken chunks failure ?a ?s0] =>
        pose proof (for_await_fields tag onToken chunks failure a s0) as Hf;
        destruct (for_await tag onToken chunks failure a s0) as [[r|e] s3]
    end; simpl in Hf; destruct Hf as (Hc & Hb & Hn).
    + unfold console_log, emit, ret.
      eexists _, _. split; [reflexivity|]. simpl. rewrite Hn. auto.
    + step. rewrite handleError_spec. unfold throw.
      eexists _, _. split; [reflexivity|]. simpl. rewrite Hn. auto.
Qed.

(** X7. [translateStreamRaw] and [chat] never invoke the structured chain
    [this.chain] and never wait. [translateStreamRaw] runs [init], so the
    field [chain] is set afterwards, and calls the model exactly once,
    whatever the outcome. [chat] does not run [init]: it leaves the field
    [chain] as it was, [null] on an object that never translated, and it
    calls the model at most once and otherwise only reports an error. *)
Theorem stream_and_chat_never_invoke_the_chain
    (ls : nat -> string -> streaming)
    (lc : nat -> string -> list (string * string) -> outcome string)
    (tag text : string) (onToken : bool)
    (msg : string) (history : option (list (string * string))) (s : state) :
  let s1 := snd (translateStreamRaw ls tag text onToken s) in
  let s2 := snd (chat lc msg history s) in
  (exists new, trace s1 = trace s ++ new /\ Forall streaming_event new)
  /\ chain s1 = chain (after_init s)
  /\ chain s1 <> None
  /\ calls s1 = S (calls s)
  /\ (exists new, trace s2 = trace s ++ new /\ Forall chat_event new)
  /\ chain s2 = chain s
  /\ calls s2 <= S (calls s).
Proof.
  intros s1 s2.
  split; [apply emits_translateStreamRaw|].
  destruct (translateStreamRaw_fields ls tag text onToken s)
    as (o & s' & Hrun & Hc & Hb & Hn).
  subst s1. rewrite Hrun. cbn [snd].
  split; [assumption|]. split; [rewrite Hc; discriminate|].
  split; [assumption|].
  split; [apply emits_chat|].
  subst s2. unfold chat. run.
  destruct (lc (calls s) msg (default [] history)); simpl; auto.
Qed.

(** X8. [handleError] never throws and calls nothing: it writes one line
    to [console.error] and returns a plain [Error] without a code, and the
    line is the message of that error. Handling the returned error again
    returns an equal error and writes the same line: the mapping is
    idempotent, also for a code that names an inherited property of the
    table. *)
Theorem handleError_is_idempotent (e : error) (s : state) :
  exists e' s',
    handleError e s = (Return e', s')
    /\ name e' = "Error"
    /\ code e' = None
    /\ chain s' = chain s /\ calls s' = calls s
    /\ trace s' = trace s ++ [ev_error (newline +:+ "❌ Error: " +:+ message e')]
    /\ forall s1,
         exists s2,
           handleError e' s1 = (Return e', s2)
           /\ trace s2
              = trace s1 ++ [ev_error (newline +:+ "❌ Error: " +:+ message e')].
Proof.
  rewrite handleError_spec. eexists _, _. split; [reflexivity|].
  cbn [name code message new_Error chain calls trace].
  repeat (split; [reflexivity|]).
  intros s1. rewrite handleError_spec.
  rewrite handleError_message_uncoded by reflexivity.
  eexists. split; reflexivity.
Qed.

Lemma basic_translate_spec ci text s :
  HinglishChain.translate ci text s
  = (ci (calls s) text,
     {| chain := chain (after_init s); built := built (after_init s);
        calls := S (calls s);
        trace := trace s ++ [ev_invoke (default (built s) (chain s)) text] |}).
Proof.
  unfold HinglishChain.translate. step. rewrite basic_init_spec. run.
  reflexivity.
Qed.

(** X9. [HinglishChain.translate] adds nothing to its chain: it invokes
    the chain once and its outcome is the chain's, a value or the very
    error the chain threw, name and code included, and it writes nothing
    to the console. [HinglishChainPro.translate] is not transparent in this
    way: on its own chain it writes its progress line before the call and
    throws what its handler makes of the error, so an error with the code
    ECONNREFUSED reaches the caller of the first class with its code and
    the caller of the second without. *)
Theorem translate_passes_errors_on_in_HinglishChain_only
    (ci_basic ci_pro : nat -> string -> outcome json) (text : string)
    (s_basic s_pro : state) :
  let basic := HinglishChain.translate ci_basic text s_basic in
  let pro := HinglishChainPro.translate ci_pro text s_pro in
  fst basic = ci_basic (calls s_basic) text
  /\ trace (snd basic)
     = trace s_basic
       ++ [ev_invoke (default (built s_basic) (chain s_basic)) text]
  /\ calls (snd basic) = S (calls s_basic)
  /\ fst pro = match ci_pro (calls s_pro) text with
               | Return v => Return v
               | Throw e => Throw (rethrown e)
               end
  /\ (exists rest,
        logs (trace (snd pro))
        = logs (trace s_pro)
          ++ ev_log ("🔄 Translating: " +:+ dquote +:+ text +:+ dquote)
             :: rest)
  /\ (forall e,
        code e = Some "ECONNREFUSED" ->
        ci_basic (calls s_basic) text = Throw e ->
        ci_pro (calls s_pro) text = Throw e ->
        fst basic = Throw e
        /\ exists e', fst pro = Throw e' /\ code e' = None).
Proof.
  intros basic pro. subst basic pro.
  rewrite basic_translate_spec, pro_translate_spec.
  cbn [fst snd chain built calls trace].
  split; [reflexivity|]. split; [reflexivity|]. split; [reflexivity|].
  split; [destruct (ci_pro (calls s_pro) text); reflexivity|].
  split.
  - destruct (ci_pro (calls s_pro) text); cbn [snd trace];
      rewrite !logs_app; simpl; rewrite <- ?app_assoc; eexists; reflexivity.
  - intros e He Hb Hp. rewrite Hb, Hp. split; [reflexivity|].
    cbn [fst]. eexists. split; [reflexivity|].
    unfold rethrown. rewrite bool_decide_eq_true_2 by exact He. reflexivity.
Qed.

(** ** HinglishChainPro: the sink as code, and [demo] *)

(** A sink that does nothing more than be called is the sink of
    [translateStreamRaw text true]. *)
Lemma for_await_sink_records tag chunks failure :
  forall acc s,
    for_await_sink tag (fun _ => ret tt) chunks failure acc s
    = for_await tag true chunks failure acc s.
Proof.
  induction chunks as [|c chunks IH]; intros acc s; [reflexivity|].
  cbn [for_await_sink for_await]. unfold mbind, M_bind, bind, emit, ret.
  apply IH.
Qed.

Lemma translateStreamRaw_sink_records ls tag text s :
  translateStreamRaw_sink ls tag text (fun _ => ret tt) s
  = translateStreamRaw ls tag text true s.
Proof.
  unfold translateStreamRaw_sink, translateStreamRaw.
  unfold mbind, M_bind, bind, try_catch.
  destruct (init s) as [[[]|e] s0]; [|reflexivity].
  destruct (console_log _ s0) as [[[]|e] s1]; [|reflexivity].
  destruct (emit _ s1) as [[[]|e] s2]; [|reflexivity].
  destruct (next_call s2) as [[n|e] s3]; [|reflexivity].
  destruct (ls n text) as [e|chunks failure]; [reflexivity|].
  rewrite for_await_sink_records. reflexivity.
Qed.

Lemma for_await_sink_fields tag chunks failure :
  forall acc s,
    let s' := snd (for_await_sink tag stdout_write chunks failure acc s) in
    chain s' = chain s /\ built s' = built s /\ calls s' = calls s.
Proof.
  induction chunks as [|c chunks IH]; intros acc s; cbn [for_await_sink].
  - destruct failure; simpl; auto.
  - unfold mbind, M_bind, bind, emit.
    destruct (content_or_chunk c) as [txt|[txt|content]];
      unfold stdout_write, emit, throw;
      try apply (IH _ {| chain := chain s; built := built s;
                         calls := calls s; trace := _ |}).
    simpl. auto.
Qed.

Lemma translateStreamRaw_sink_fields ls tag text s :
  exists o s',
    translateStreamRaw_sink ls tag text stdout_write s = (o, s')
    /\ chain s' = chain (after_init s)
    /\ built s' = built (after_init s)
    /\ calls s' = S (calls s).
Proof.
  unfold translateStreamRaw_sink.
  step. rewrite pro_init_spec.
  step. unfold console_log at 1, emit at 1.
  unfold try_catch. step. unfold emit at 1. step. unfold next_call at 1.
  step. cbn [calls trace chain built].
  destruct (ls (calls (after_init s)) text) as [e|chunks failure].
  - unfold throw at 1. step. rewrite handleError_spec. unfold throw.
    eexists _, _. split; [reflexivity|]. simpl. auto.
  - match goal with
    | |- context [for_await_sink tag stdout_write chunks failure ?a ?s0] =>
        pose proof (for_await_sink_fields tag chunks failure a s0) as Hf;
        destruct (for_await_sink tag stdout_write chunks failure a s0)
          as [[r|e] s3]
    end; simpl in Hf; destruct Hf as (Hc & Hb & Hn).
    + unfold console_log, emit, ret.
      eexists _, _. split; [reflexivity|]. simpl. rewrite Hn. auto.
    + step. rewrite handleError_spec. unfold throw.
      eexists _, _. split; [reflexivity|]. simpl. rewrite Hn. auto.
Qed.

(** The fields after the retry loop, whatever the collaborator does. *)
Lemma retry_attempts_fields ci this text :
  forall k a lastError s,
    Z.of_nat k = Z.max 0 (maxRetries this + 1 - a) ->
    exists o s',
      retry_attempts ci this text (seqZ a (Z.of_nat k)) lastError s = (o, s')
      /\ chain s' = match k with O => chain s | S _ => chain (after_init s) end
      /\ built s' = match k with O => built s | S _ => built (after_init s) end
      /\ calls s + min 1 k <= calls s' <= calls s + k.
Proof.
  induction k as [|k IH]; intros a lastError s Hk.
  - change (seqZ a (Z.of_nat 0)) with (@nil Z). cbn [retry_attempts].
    destruct lastError; eexists _, s; (split; [reflexivity|]);
      repeat split; simpl; lia.
  - rewrite seqZ_cons by lia. cbn [retry_attempts].
    unfold try_catch. step. unfold console_log at 1, emit at 1.
    rewrite pro_translate_spec. cbn [calls chain built trace after_init].
    destruct (ci (calls s) text) as [v|e].
    + eexists _, _. split; [reflexivity|]. cbn [chain built calls].
      repeat split; simpl; lia.
    + step. unfold console_log at 1, emit at 1.
      rewrite bool_decide_eq_false_2 by apply rethrown_name.
      step. replace (Z.pred (Z.of_nat (S k))) with (Z.of_nat k) by lia.
      match goal with
      | |- context [retry_attempts _ _ _ _ ?le] =>
          assert (Hnext : forall s3,
                    exists o s',
                      retry_attempts ci this text (seqZ (Z.succ a) (Z.of_nat k)) le s3 = (o, s')
                      /\ chain s' = match k with O => chain s3 | S _ => chain (after_init s3) end
                      /\ built s' = match k with O => built s3 | S _ => built (after_init s3) end
                      /\ calls s3 + min 1 k <= calls s' <= calls s3 + k)
            by (intros s3; apply IH; lia)
      end.
      destruct (a <? maxRetries this)%Z.
      * step. unfold console_log at 1, emit at 1, sleep, emit.
        match goal with
        | |- context [retry_attempts _ _ _ _ _ ?s3] =>
            destruct (Hnext s3) as (o & s' & Hrun & Hc & Hb & Hn)
        end.
        exists o, s'. split; [exact Hrun|].
        cbn [chain built calls after_init] in *.
        destruct k; rewrite Hc, Hb; repeat split; simpl in *; try lia;
          destruct (chain s); reflexivity.
      * unfold ret.
        match goal with
        | |- context [retry_attempts _ _ _ _ _ ?s3] =>
            destruct (Hnext s3) as (o & s' & Hrun & Hc & Hb & Hn)
        end.
        exists o, s'. split; [exact Hrun|].
        cbn [chain built calls after_init] in *.
        destruct k; rewrite Hc, Hb; repeat split; simpl in *; try lia;
          destruct (chain s); reflexivity.
Qed.

Lemma chat_fields lc msg history s :
  exists o s',
    chat lc msg history s = (o, s')
    /\ chain s' = chain s /\ built s' = built s /\ calls s' = S (calls s)
    /\ o = match lc (calls s) msg (default [] history) with
           | Return content => Return content
           | Throw e => Throw (new_Error (handleError_message e))
           end.
Proof.
  unfold chat. run.
  destruct (lc (calls s) msg (default [] history)); simpl;
    eexists _, _; (split; [reflexivity|]); simpl; auto.
Qed.

Section DemoFacts.
Variable ci : nat -> string -> outcome json.
Variable ls : nat -> string -> streaming.
Variable lc : nat -> string -> list (string * string) -> outcome string.
Variable tag : string.
Variable stringify : json -> string.
Variable inspect : option json -> string.

Lemma demo_translate_fields s :
  exists s',
    demo_translate ci stringify s = (Return tt, s')
    /\ chain s' = chain (after_init s)
    /\ built s' = built (after_init s)
    /\ calls s' = S (calls s).
Proof.
  unfold demo_translate. do 3 (step; unfold console_log at 1, emit at 1).
  unfold try_catch. step. rewrite pro_translate_spec.
  cbn [calls chain built trace after_init].
  destruct (ci (calls s) "kya baat hai yaar!");
    unfold console_log, console_error, emit;
    eexists; (split; [reflexivity|]); simpl; auto.
Qed.

Lemma demo_streaming_fields s :
  exists s',
    demo_streaming ls tag s = (Return tt, s')
    /\ chain s' = chain (after_init s)
    /\ built s' = built (after_init s)
    /\ calls s' = S (calls s).
Proof.
  unfold demo_streaming. do 3 (step; unfold console_log at 1, emit at 1).
  unfold try_catch. step.
  match goal with
  | |- context [translateStreamRaw_sink ls tag ?t stdout_write ?s0] =>
      destruct (translateStreamRaw_sink_fields ls tag t s0)
        as (o & s1 & -> & Hc & Hb & Hn)
  end.
  cbn [calls chain built trace after_init] in *.
  destruct o; unfold console_log, console_error, emit;
    eexists; (split; [reflexivity|]); simpl; auto.
Qed.

Lemma demo_retry_fields s :
  exists s',
    demo_retry ci inspect s = (Return tt, s')
    /\ chain s' = chain (after_init s)
    /\ built s' = built (after_init s)
    /\ calls s + 1 <= calls s' <= calls s + 3.
Proof.
  unfold demo_retry. do 3 (step; unfold console_log at 1, emit at 1).
  unfold try_catch. step. unfold translateWithRetry.
  match goal with
  | |- context [retry_attempts ci demo_object ?t _ None ?s0] =>
      destruct (retry_attempts_fields ci demo_object t 3 1%Z None s0)
        as (o & s1 & Hrun & Hc & Hb & Hn); [reflexivity|]
  end.
  change (seqZ 1 (maxRetries demo_object)) with (seqZ 1 (Z.of_nat 3)).
  rewrite Hrun. cbn [calls chain built trace after_init] in *.
  destruct o as [result|e].
  - step. destruct result; unfold get_translated_text, ret, throw;
      unfold console_log, console_error, emit;
      eexists; (split; [reflexivity|]); simpl in *; repeat split; auto; lia.
  - unfold console_error, emit.
    eexists; (split; [reflexivity|]); simpl in *; repeat split; auto; lia.
Qed.


Lemma chat_spec msg history s :
  chat lc msg history s
  = match lc (calls s) msg (default [] history) with
    | Return content =>
        (Return content,
         {| chain := chain s; built := built s; calls := S (calls s);
            trace := trace s ++ [ev_chat msg] |})
    | Throw e =>
        (Throw (new_Error (handleError_message e)),
         {| chain := chain s; built := built s; calls := S (calls s);
            trace := trace s
                     ++ [ev_chat msg;
                         ev_error (newline +:+ "❌ Error: "
                                   +:+ handleError_message e)] |})
    end.
Proof.
  destruct (lc (calls s) msg (default [] history)) as [c|e] eqn:H.
  - unfold chat. run. rewrite H. reflexivity.
  - apply chat_fails, H.
Qed.

Lemma demo_chat_spec s :
  exists s',
    demo_chat lc s = (Return tt, s')
    /\ chain s' = chain s
    /\ built s' = built s
    /\ match lc (calls s) "Yaar, aaj bohot thak gaya hun" [] with
       | Throw e =>
           calls s' = S (calls s)
           /\ effects (trace s') = effects (trace s) ++ [ev_chat "Yaar, aaj bohot thak gaya hun"]
           /\ last (trace s') = Some (ev_error (handleError_message e))
       | Return response1 =>
           calls s' = S (S (calls s))
           /\ effects (trace s')
              = effects (trace s)
                ++ [ev_chat "Yaar, aaj bohot thak gaya hun"; ev_chat "Kya karun samajh nahi aa raha"]
           /\ In (ev_log ("Friend: " +:+ response1)) (trace s')
           /\ last (trace s')
              = Some
                  match lc (S (calls s)) "Kya karun samajh nahi aa raha"
                          [("human", "Yaar, aaj bohot thak gaya hun"); ("ai", response1)] with
                  | Return response2 => ev_log ("Friend: " +:+ response2)
                  | Throw e => ev_error (handleError_message e)
                  end
       end.
Proof.
  unfold demo_chat. do 3 (step; unfold console_log at 1, emit at 1).
  unfold try_catch. step. rewrite chat_spec.
  cbn [calls chain built trace]. change (default [] None) with (@nil (string * string)).
  destruct (lc (calls s) "Yaar, aaj bohot thak gaya hun" []) as [response1|e].
  - do 3 (step; unfold console_log at 1, emit at 1). step.
    rewrite chat_spec. cbn [calls chain built trace].
    match goal with
    | |- context [default [] (Some ?h)] => change (default [] (Some h)) with h
    end.
    destruct (lc (S (calls s)) "Kya karun samajh nahi aa raha"
                [("human", "Yaar, aaj bohot thak gaya hun"); ("ai", response1)])
      as [response2|e2];
      unfold console_log, console_error, emit; cbn [message new_Error];
      eexists; (split; [reflexivity|]); cbn [chain built calls trace];
      (split; [reflexivity|]); (split; [reflexivity|]);
      (split; [reflexivity|]);
      rewrite ?last_snoc, !effects_app; simpl; rewrite ?app_nil_r;
      rewrite <- ?app_assoc;
      (split; [reflexivity|]);
      (split; [|reflexivity]);
      rewrite !in_app_iff; simpl; tauto.
  - unfold console_error, emit. cbn [message new_Error].
    eexists. split; [reflexivity|]. cbn [chain built calls trace].
    rewrite last_snoc, !effects_app. simpl. rewrite ?app_nil_r.
    rewrite <- ?app_assoc. repeat split.
Qed.

End DemoFacts.

(** X10. [demo()] never throws, whatever the model does: each of its four
    parts catches what its call throws. It builds the structured chain
    exactly once and calls the model at least four and at most seven times
    (one translation, one stream, one to three attempts, one or two chat
    turns). *)
Theorem demo_never_throws
    (ci : nat -> string -> outcome json)
    (ls : nat -> string -> streaming)
    (lc : nat -> string -> list (string * string) -> outcome string)
    (tag : string) (stringify : json -> string)
    (inspect : option json -> string) (s : state) :
  exists s',
    demo ci ls lc tag stringify inspect s = (Return tt, s')
    /\ chain s' = Some (built s)
    /\ built s' = S (built s)
    /\ calls s + 4 <= calls s' <= calls s + 7.
Proof.
  unfold demo. step. unfold new_object at 1. cbv beta iota. step.
  match goal with
  | |- context [demo_translate ci stringify ?s0] =>
      destruct (demo_translate_fields ci stringify s0)
        as (s1 & -> & Hc1 & Hb1 & Hn1)
  end.
  step. destruct (demo_streaming_fields ls tag s1) as (s2 & -> & Hc2 & Hb2 & Hn2).
  step. destruct (demo_retry_fields ci inspect s2) as (s3 & -> & Hc3 & Hb3 & Hn3).
  destruct (demo_chat_spec lc s3) as (s4 & -> & Hc4 & Hb4 & Hn4).
  exists s4. split; [reflexivity|].
  cbn [chain built calls after_init] in *.
  rewrite Hc4, Hc3, Hb4, Hb3, Hc2, Hb2, Hc1, Hb1. cbn.
  split; [reflexivity|]. split; [reflexivity|].
  destruct (lc (calls s3) "Yaar, aaj bohot thak gaya hun" []);
    destruct Hn4 as [Hn4 _]; lia.
Qed.

(** X11. The chat part of [demo()] passes the first answer on. When the
    first turn is answered with a text free of braces, which the prompt
    template takes as it is, the second turn is asked with the history
    [human: first message, ai: first answer], and its answer, or the
    message of the error [chat] throws for it, is the last line written.
    When the first turn fails, the second is not asked and the message of
    the error [chat] throws is the last line. [demo_chat] itself returns
    in every case. *)
Theorem demo_chat_threads_the_first_answer
    (lc : nat -> string -> list (string * string) -> outcome string)
    (s : state) :
  (forall response1,
     lc (calls s) "Yaar, aaj bohot thak gaya hun" [] = Return response1 ->
     plain_text response1) ->
  exists s',
    demo_chat lc s = (Return tt, s')
    /\ match lc (calls s) "Yaar, aaj bohot thak gaya hun" [] with
       | Throw e =>
           calls s' = S (calls s)
           /\ effects (trace s')
              = effects (trace s) ++ [ev_chat "Yaar, aaj bohot thak gaya hun"]
           /\ last (trace s') = Some (ev_error (handleError_message e))
       | Return response1 =>
           calls s' = S (S (calls s))
           /\ effects (trace s')
              = effects (trace s)
                ++ [ev_chat "Yaar, aaj bohot thak gaya hun";
                    ev_chat "Kya karun samajh nahi aa raha"]
           /\ In (ev_log ("Friend: " +:+ response1)) (trace s')
           /\ last (trace s')
              = Some
                  match lc (S (calls s)) "Kya karun samajh nahi aa raha"
                          [("human", "Yaar, aaj bohot thak gaya hun");
                           ("ai", response1)] with
                  | Return response2 => ev_log ("Friend: " +:+ response2)
                  | Throw e => ev_error (handleError_message e)
                  end
       end.
Proof.
  intros _. destruct (demo_chat_spec lc s) as (s' & Hrun & _ & _ & H).
  exists s'. split; [exact Hrun | exact H].
Qed.

Lemma demo_chat_witness :
  exists s',
    demo_chat (fun n _ _ => match n with
                            | O => Return "Arre yaar, rest kar lo"
                            | _ => Throw refused
                            end) fresh
    = (Return tt, s')
    /\ calls s' = 2
    /\ last (trace s') = Some (ev_error (handleError_message refused)).
Proof.
  destruct (demo_chat_threads_the_first_answer
              (fun n _ _ => match n with
                            | O => Return "Arre yaar, rest kar lo"
                            | _ => Throw refused
                            end) fresh) as (s' & Hrun & Hn & _ & _ & Hlast).
  - intros response1 [= <-]. split; reflexivity.
  - exists s'. split; [exact Hrun|]. split; [exact Hn | exact Hlast].
Defined.

(** ** agent-chat.js: the cultural lookup, the prompt and the chat loop *)

Lemma find_first {A} (f : A -> bool) (l : list A) :
  match List.find f l with
  | Some x =>
      exists before after,
        l = before ++ x :: after
        /\ f x = true
        /\ Forall (fun y => f y = false) before
  | None => Forall (fun y => f y = false) l
  end.
Proof.
  induction l as [|a l IH]; simpl; [constructor|].
  destruct (f a) eqn:Hfa.
  - exists [], l. auto.
  - destruct (List.find f l) as [x|].
    + destruct IH as (before & after & -> & Hx & Hb).
      exists (a :: before), after. auto.
    + constructor; auto.
Qed.

Lemma lookupCultural_first (toLowerCase : string -> string) (input : string) :
  match AgentChat.lookupCultural toLowerCase input with
  | Some (term, entry) =>
      exists before after,
        AgentChat.cultureDB = before ++ (term, entry) :: after
        /\ AgentChat.includes (toLowerCase input) term = true
        /\ Forall (fun e => AgentChat.includes (toLowerCase input) (fst e)
                            = false) before
  | None =>
      Forall (fun e => AgentChat.includes (toLowerCase input) (fst e) = false)
        AgentChat.cultureDB
  end.
Proof.
  unfold AgentChat.lookupCultural.
  pose proof (find_first
                (fun entry => AgentChat.includes (toLowerCase input) (fst entry))
                AgentChat.cultureDB) as H.
  destruct (List.find _ AgentChat.cultureDB) as [[term entry]|]; exact H.
Qed.

(** X12. [lookupCultural] answers with the first term of its table, in
    the order the table is written, that occurs in the lower-cased input,
    and with that term's own entry; it answers "not found" only when none
    of the five terms occurs. *)
Theorem lookupCultural_finds_the_first_term
    (toLowerCase : string -> string) (input : string) :
  match AgentChat.lookupCultural toLowerCase input with
  | Some (term, entry) =>
      exists before after,
        AgentChat.cultureDB = before ++ (term, entry) :: after
        /\ AgentChat.includes (toLowerCase input) term = true
        /\ Forall (fun e => AgentChat.includes (toLowerCase input) (fst e)
                            = false) before
  | None =>
      forall term,
        In term ["yaar"; "mast"; "thak"; "bhai"; "arre"] ->
        AgentChat.includes (toLowerCase input) term = false
  end.
Proof.
  unfold AgentChat.lookupCultural.
  pose proof (find_first
                (fun entry => AgentChat.includes (toLowerCase input) (fst entry))
                AgentChat.cultureDB) as H.
  destruct (List.find _ AgentChat.cultureDB) as [[term entry]|].
  - exact H.
  - intros term Hin. rewrite List.Forall_forall in H.
    simpl in Hin.
    destruct Hin as [<-|[<-|[<-|[<-|[<-|[]]]]]];
      match goal with
      | |- AgentChat.includes _ ?t = false =>
          assert (Hx : exists e, In (t, e) AgentChat.cultureDB)
            by (eexists; simpl; eauto 10);
          destruct Hx as [e He]; exact (H _ He)
      end.
Qed.

Lemma culture_terms_in_dictionary term entry :
  In (term, entry) AgentChat.cultureDB ->
  In term (AgentChat.Object_keys AgentChat.dictionary).
Proof.
  intros H. apply (incl_by_computation (map fst AgentChat.cultureDB)).
  - vm_compute. reflexivity.
  - apply (in_map fst) in H. exact H.
Qed.

Lemma detected_words_spec toLowerCase input w :
  In w (AgentChat.detected_words (AgentChat.analyzeHinglish toLowerCase input))
  <-> In w (AgentChat.Object_keys AgentChat.dictionary)
      /\ AgentChat.includes (toLowerCase input) w = true.
Proof.
  unfold AgentChat.analyzeHinglish. cbn [AgentChat.detected_words].
  rewrite <- !list_elem_of_In, list_elem_of_filter. tauto.
Qed.

Lemma is_hinglish_spec toLowerCase input :
  AgentChat.is_hinglish (AgentChat.analyzeHinglish toLowerCase input) = true
  <-> exists w,
        In w (AgentChat.detected_words
                (AgentChat.analyzeHinglish toLowerCase input)).
Proof.
  unfold AgentChat.analyzeHinglish.
  cbn [AgentChat.detected_words AgentChat.is_hinglish].
  destruct (filter _ _) as [|w ws]; simpl.
  - split; [discriminate|]. intros [w []].
  - split; [eauto|reflexivity].
Qed.

(** X13. The context line of the prompt is never empty and follows the
    tools: a cultural term that is found is also a detected Hinglish word
    and gives the line quoting the term and its meaning; without a term
    the line is "- Hinglish mix detected" or "- No special context", the
    latter exactly when no Hinglish word was detected. *)
Theorem prompt_context_follows_the_tools
    (toLowerCase : string -> string) (input : string) :
  let v := AgentChat.variables toLowerCase input in
  let h := AgentChat.analyzeHinglish toLowerCase input in
  AgentChat.var_cultural_context v <> ""
  /\ match AgentChat.lookupCultural toLowerCase input with
     | Some (term, entry) =>
         AgentChat.is_hinglish h = true
         /\ In term (AgentChat.detected_words h)
         /\ AgentChat.var_cultural_context v
            = "- Context: " +:+ dquote +:+ term +:+ dquote
              +:+ " is like calling someone " +:+ dquote
              +:+ AgentChat.meaning entry +:+ dquote
     | None =>
         AgentChat.var_cultural_context v
         = if AgentChat.is_hinglish h then "- Hinglish mix detected"
           else "- No special context"
     end
  /\ (AgentChat.var_cultural_context v = "- No special context"
      <-> AgentChat.is_hinglish h = false).
Proof.
  intros v h. subst v. unfold AgentChat.variables.
  cbn [AgentChat.var_cultural_context]. fold h.
  pose proof (lookupCultural_first toLowerCase input) as Hfirst.
  destruct (AgentChat.lookupCultural toLowerCase input) as [[term entry]|].
  - destruct Hfirst as (before & after & Hdb & Hinc & _).
    assert (Hin : In (term, entry) AgentChat.cultureDB)
      by (rewrite Hdb; apply in_elt).
    assert (Hdet : In term (AgentChat.detected_words h)).
    { apply detected_words_spec. split; [|exact Hinc].
      eapply culture_terms_in_dictionary; eauto. }
    assert (Hh : AgentChat.is_hinglish h = true)
      by (apply is_hinglish_spec; eauto).
    clearbody h.
    cbn [AgentChat.culturalContext or_string].
    cbv [String.append]. cbn [String.eqb Ascii.eqb]. simpl.
    split; [discriminate|]. split; [auto|].
    split; [intros H; discriminate H | intros H; congruence].
  - cbn [AgentChat.culturalContext or_string].
    destruct (AgentChat.is_hinglish h); simpl;
      repeat split; try discriminate; auto.
Qed.

(** ** agent-chat.js: the chat loop *)

Lemma chat_messages_app t1 t2 :
  chat_messages (t1 ++ t2) = chat_messages t1 ++ chat_messages t2.
Proof.
  induction t1 as [|e t1 IH]; [reflexivity|].
  destruct e; simpl; rewrite IH; reflexivity.
Qed.

Lemma error_lines_app t1 t2 :
  error_lines (t1 ++ t2) = error_lines t1 ++ error_lines t2.
Proof.
  induction t1 as [|e t1 IH]; [reflexivity|].
  destruct e; simpl; rewrite IH; reflexivity.
Qed.

Lemma processMessage_spec toLowerCase llm input s :
  AgentChat.processMessage toLowerCase llm input s
  = (match llm (calls s) (AgentChat.variables toLowerCase input) with
     | Return response =>
         Return (response,
                 {| AgentChat.analysis_hinglish :=
                      AgentChat.analyzeHinglish toLowerCase input;
                    AgentChat.analysis_sentiment :=
                      AgentChat.analyzeSentiment toLowerCase input;
                    AgentChat.analysis_cultural :=
                      AgentChat.lookupCultural toLowerCase input |})
     | Throw e => Throw e
     end,
     {| chain := chain s; built := built s; calls := S (calls s);
        trace := trace s ++ [ev_chat input] |}).
Proof.
  unfold AgentChat.processMessage. run.
  destruct (llm (calls s) (AgentChat.variables toLowerCase input)); reflexivity.
Qed.

Ltac session_tail IH :=
  let s' := fresh "s'" in
  let Hn := fresh "Hn" in
  let Hm := fresh "Hm" in
  let He := fresh "He" in
  let Hc := fresh "Hc" in
  let Hb := fresh "Hb" in
  match goal with
  | |- context [AgentChat.askQuestion _ _ _ _ ?s0] =>
      destruct (IH s0) as (s' & -> & Hn & Hm & He & Hc & Hb)
  end;
  exists s'; (split; [reflexivity|]);
  cbn [calls chain built trace length] in *;
  rewrite Hm, He, !chat_messages_app, !error_lines_app; simpl;
  rewrite ?app_nil_r, <- ?app_assoc;
  repeat split; auto; lia.

Lemma askQuestion_session toLowerCase llm trim inputs :
  forall s,
    exists s',
      AgentChat.askQuestion toLowerCase llm trim inputs s = (Return tt, s')
      /\ calls s' = calls s + length (asked toLowerCase trim inputs)
      /\ chat_messages (trace s')
         = chat_messages (trace s) ++ asked toLowerCase trim inputs
      /\ error_lines (trace s')
         = error_lines (trace s)
           ++ map (String.append "âŒ Error: ")
                (failures toLowerCase llm (calls s)
                   (asked toLowerCase trim inputs))
      /\ chain s' = chain s
      /\ built s' = built s.
Proof.
  induction inputs as [|input rest IH]; intros s.
  - cbn [AgentChat.askQuestion asked]. unfold mbind, M_bind, bind, emit, ret.
    eexists. split; [reflexivity|]. cbn [calls chain built trace length].
    rewrite chat_messages_app, error_lines_app. simpl. rewrite !app_nil_r.
    repeat split; lia.
  - cbn [AgentChat.askQuestion asked]. step. unfold emit at 1.
    destruct (AgentChat.is_quit toLowerCase trim input).
    { unfold console_log, emit. eexists. split; [reflexivity|].
      cbn [calls chain built trace length].
      rewrite !chat_messages_app, !error_lines_app. simpl.
      rewrite !app_nil_r. repeat split; lia. }
    destruct (String.eqb (trim input) "").
    { step. unfold console_log at 1, emit at 1. session_tail IH. }
    step. unfold console_log at 1, emit at 1. step.
    unfold try_catch. step. rewrite processMessage_spec.
    cbn [calls chain built trace failures map].
    destruct (llm (calls s) (AgentChat.variables toLowerCase input)) as [r|e].
    + do 2 (try step; unfold console_log at 1, emit at 1).
      session_tail IH.
    + step. unfold console_error at 1, emit at 1.
      destruct (bool_decide (code e = Some "ECONNREFUSED"));
        unfold console_log, emit, ret; session_tail IH.
Qed.

(** X14. The chat loop never throws: whatever the model answers or
    throws, [askQuestion] returns, and the model has received, in order
    and once each, exactly the lines typed before the first "quit" or
    "exit" that are not blank. *)
Theorem chat_loop_asks_each_message_once toLowerCase llm trim inputs s :
  exists s',
    AgentChat.askQuestion toLowerCase llm trim inputs s = (Return tt, s')
    /\ calls s' = calls s + length (asked toLowerCase trim inputs)
    /\ chat_messages (trace s')
       = chat_messages (trace s) ++ asked toLowerCase trim inputs.
Proof.
  destruct (askQuestion_session toLowerCase llm trim inputs s)
    as (s' & Hr & Hn & Hm & _).
  exists s'. auto.
Qed.

(** X15. Every failure of the model is reported and none ends the chat:
    the lines written with [console.error] are, in order, the messages of
    the errors thrown for the lines asked, and the later lines are still
    asked. *)
Theorem chat_loop_reports_each_failure toLowerCase llm trim inputs :
  let s' := snd (AgentChat.askQuestion toLowerCase llm trim inputs fresh) in
  error_lines (trace s')
  = map (String.append "âŒ Error: ")
      (failures toLowerCase llm 0 (asked toLowerCase trim inputs))
  /\ chat_messages (trace s') = asked toLowerCase trim inputs.
Proof.
  destruct (askQuestion_session toLowerCase llm trim inputs fresh)
    as (s' & Hr & _ & Hm & He & _).
  cbv zeta. rewrite Hr. simpl snd. rewrite Hm, He. split; reflexivity.
Qed.

Lemma mbind_ext {A B} (m : M A) (k1 k2 : A -> M B) (s : state) :
  (forall a s', k1 a s' = k2 a s') -> (m ≫= k1) s = (m ≫= k2) s.
Proof.
  intros H. unfold mbind, M_bind, bind.
  destruct (m s) as [[a|e] s']; [apply H | reflexivity].
Qed.

Lemma askQuestion_quit toLowerCase llm trim before q after :
  AgentChat.is_quit toLowerCase trim q = true ->
  forall s,
    AgentChat.askQuestion toLowerCase llm trim (before ++ q :: after) s
    = AgentChat.askQuestion toLowerCase llm trim (before ++ [q]) s.
Proof.
  intros Hq. induction before as [|input rest IH]; intros s.
  - cbn [app AgentChat.askQuestion]. rewrite Hq. reflexivity.
  - cbn [app AgentChat.askQuestion]. apply mbind_ext. intros _ s1.
    destruct (AgentChat.is_quit toLowerCase trim input); [reflexivity|].
    destruct (String.eqb (trim input) "").
    + apply mbind_ext. intros _ s2. apply IH.
    + apply mbind_ext. intros _ s2. apply mbind_ext. intros _ s3. apply IH.
Qed.

Lemma asked_quit toLowerCase trim before q after :
  AgentChat.is_quit toLowerCase trim q = true ->
  asked toLowerCase trim (before ++ q :: after) = asked toLowerCase trim before.
Proof.
  intros Hq. induction before as [|input rest IH]; cbn [app asked].
  - now rewrite Hq.
  - destruct (AgentChat.is_quit toLowerCase trim input); [reflexivity|].
    destruct (String.eqb (trim input) ""); [exact IH | now rewrite IH].
Qed.

Lemma askQuestion_ends_with_goodbye toLowerCase llm trim before q :
  AgentChat.is_quit toLowerCase trim q = true ->
  forall s, exists t,
    trace (snd (AgentChat.askQuestion toLowerCase llm trim (before ++ [q]) s))
    = t ++ [ev_log (JS.newline
                    +:+ "ðŸ¦‹ Goodbye! It was great chatting with you.")].
Proof.
  intros Hq. induction before as [|input rest IH]; intros s.
  - cbn [app AgentChat.askQuestion]. rewrite Hq.
    unfold mbind, M_bind, bind, console_log, emit. simpl. eauto.
  - cbn [app AgentChat.askQuestion]. step. unfold emit at 1.
    destruct (AgentChat.is_quit toLowerCase trim input).
    { unfold console_log, emit. simpl. eauto. }
    destruct (String.eqb (trim input) "").
    + step. unfold console_log at 1, emit at 1. apply IH.
    + step. unfold console_log at 1, emit at 1. step.
      destruct (try_catch _ _ _) as [[[]|e] s2] eqn:Htry; [apply IH|].
      exfalso. revert Htry. unfold try_catch. step.
      rewrite processMessage_spec.
      destruct (llm _ _) as [r|e'].
      * unfold mbind, M_bind, bind, console_log, emit. discriminate.
      * step. unfold console_error at 1, emit at 1.
        destruct (bool_decide _); unfold console_log, emit, ret; discriminate.
Qed.

(** X16. Nothing typed after "quit" or "exit" is read: whatever follows
    the first such line, the session runs as if that line were the last
    one, the model is asked the same lines, and the last thing written is
    the goodbye. *)
Theorem nothing_is_read_after_quit toLowerCase llm trim before q after s :
  AgentChat.is_quit toLowerCase trim q = true ->
  AgentChat.askQuestion toLowerCase llm trim (before ++ q :: after) s
  = AgentChat.askQuestion toLowerCase llm trim (before ++ [q]) s
  /\ asked toLowerCase trim (before ++ q :: after)
     = asked toLowerCase trim before
  /\ exists t,
       trace (snd (AgentChat.askQuestion toLowerCase llm trim
                     (before ++ q :: after) s))
       = t ++ [ev_log (JS.newline
                       +:+ "ðŸ¦‹ Goodbye! It was great chatting with you.")].
Proof.
  intros Hq. split; [|split].
  - now apply askQuestion_quit.
  - now apply asked_quit.
  - rewrite askQuestion_quit by exact Hq.
    now apply askQuestion_ends_with_goodbye.
Qed.

Lemma nothing_is_read_after_quit_witness :
  AgentChat.is_quit AgentChat.ascii_toLowerCase AgentChat.ascii_trim "  QUIT " = true
  /\ AgentChat.askQuestion AgentChat.ascii_toLowerCase
       (fun _ _ => Return "ok") AgentChat.ascii_trim
       (["kya baat hai"; " "] ++ "  QUIT " :: ["thak gaya"]) fresh
     = AgentChat.askQuestion AgentChat.ascii_toLowerCase
         (fun _ _ => Return "ok") AgentChat.ascii_trim
         (["kya baat hai"; " "] ++ ["  QUIT "]) fresh.
Proof.
  split; [reflexivity|].
  apply (nothing_is_read_after_quit AgentChat.ascii_toLowerCase
           (fun _ _ => Return "ok") AgentChat.ascii_trim
           ["kya baat hai"; " "] "  QUIT " ["thak gaya"] fresh).
  reflexivity.
Defined.

(** ** agent-chat.js: the sentiment rules *)

Lemma mentions_existsb text words :
  existsb (fun w => AgentChat.includes text w) words = true
  <-> mentions text words.
Proof. unfold mentions. apply existsb_exists. Qed.

Lemma not_mentions_existsb text words :
  existsb (fun w => AgentChat.includes text w) words = false
  <-> ~ mentions text words.
Proof.
  rewrite <- mentions_existsb.
  destruct (existsb _ words); split; intros H; congruence.
Qed.

Lemma sentiment_spec (toLowerCase : string -> string) (input : string) :
  let text := toLowerCase input in
  let r := AgentChat.analyzeSentiment toLowerCase input in
  (AgentChat.sentiment r = "positive"
   <-> mentions text AgentChat.positive /\ ~ mentions text AgentChat.negative)
  /\ (AgentChat.sentiment r = "negative"
      <-> mentions text AgentChat.negative /\ ~ mentions text AgentChat.positive)
  /\ (mentions text AgentChat.positive -> mentions text AgentChat.negative ->
      AgentChat.sentiment r = "neutral").
Proof.
  intros text r. subst r. unfold AgentChat.analyzeSentiment. fold text.
  destruct (existsb (fun w => AgentChat.includes text w) AgentChat.positive)
    eqn:Hp;
  destruct (existsb (fun w => AgentChat.includes text w) AgentChat.negative)
    eqn:Hn;
  destruct (existsb (fun w => AgentChat.includes text w) AgentChat.emphasis);
  first [apply mentions_existsb in Hp | apply not_mentions_existsb in Hp];
  first [apply mentions_existsb in Hn | apply not_mentions_existsb in Hn];
  cbn -[AgentChat.positive AgentChat.negative AgentChat.emphasis
        AgentChat.includes];
  repeat match goal with
         | |- _ /\ _ => split
         | |- _ <-> _ => split
         | |- _ -> _ => intros ?
         end;
  try reflexivity; try tauto; try congruence; try discriminate.
Qed.

(** X17. The sentiment is decided by the keywords alone: positive exactly
    when a positive keyword occurs and no negative one, negative exactly
    when a negative keyword occurs and no positive one; comfort is offered
    for every negative input (the test of the intensity never fails), a
    celebration only for a positive input with a word of emphasis; and a
    neutral input has intensity 5 whatever the emphasis. *)
Theorem sentiment_follows_the_keywords (toLowerCase : string -> string)
    (input : string) :
  let text := toLowerCase input in
  let r := AgentChat.analyzeSentiment toLowerCase input in
  (AgentChat.sentiment r = "positive"
   <-> mentions text AgentChat.positive /\ ~ mentions text AgentChat.negative)
  /\ (AgentChat.sentiment r = "negative"
      <-> mentions text AgentChat.negative /\ ~ mentions text AgentChat.positive)
  /\ (AgentChat.should_comfort r = true <-> AgentChat.sentiment r = "negative")
  /\ (AgentChat.should_celebrate r = true
      <-> AgentChat.sentiment r = "positive"
          /\ mentions text AgentChat.emphasis)
  /\ (AgentChat.sentiment r = "neutral" -> AgentChat.intensity r = 5%Z)
  /\ (AgentChat.intensity r = 7%Z
      <-> AgentChat.sentiment r = "negative"
          /\ mentions text AgentChat.emphasis).
Proof.
  intros text r. subst r. unfold AgentChat.analyzeSentiment. fold text.
  destruct (existsb (fun w => AgentChat.includes text w) AgentChat.positive)
    eqn:Hp;
  destruct (existsb (fun w => AgentChat.includes text w) AgentChat.negative)
    eqn:Hn;
  destruct (existsb (fun w => AgentChat.includes text w) AgentChat.emphasis)
    eqn:He;
  first [apply mentions_existsb in Hp | apply not_mentions_existsb in Hp];
  first [apply mentions_existsb in Hn | apply not_mentions_existsb in Hn];
  first [apply mentions_existsb in He | apply not_mentions_existsb in He];
  cbn -[AgentChat.positive AgentChat.negative AgentChat.emphasis
        AgentChat.includes];
  repeat match goal with
         | |- _ /\ _ => split
         | |- _ <-> _ => split
         | |- _ -> _ => intros ?
         end;
  try reflexivity; try tauto; try congruence; try discriminate; try lia;
  match goal with H : _ /\ _ |- _ => destruct H; congruence end.
Qed.

(** ** Matching by substring *)

Lemma prefix_spec (w text : string) :
  String.prefix w text = true <-> exists post, text = w +:+ post.
Proof.
  revert text. induction w as [|c w IH]; intros text.
  - split; [intros _; exists text; reflexivity | intros _; destruct text; reflexivity].
  - destruct text as [|d text]; simpl.
    + split; [discriminate | intros (post & H); discriminate H].
    + destruct (Ascii.ascii_dec c d) as [->|Hne].
      * rewrite IH. split; intros (post & H); exists post.
        -- change (String d text = String d (w +:+ post)). now rewrite H.
        -- change (String d text = String d (w +:+ post)) in H. congruence.
      * split; [discriminate|]. intros (post & H).
        change (String d text = String c (w +:+ post)) in H. congruence.
Qed.

Lemma includes_spec (text w : string) :
  AgentChat.includes text w = true
  <-> exists pre post, text = pre +:+ w +:+ post.
Proof.
  induction text as [|c text IH].
  - cbn [AgentChat.includes].
    destruct (String.prefix w "") eqn:Hpre.
    + apply prefix_spec in Hpre as (post & H). split; [|intros _; reflexivity].
      intros _. exists "", post. exact H.
    + split; [discriminate|]. intros (pre & post & H).
      destruct pre as [|x pre]; [|discriminate H].
      assert (String.prefix w "" = true) as Ht
        by (apply prefix_spec; exists post; exact H).
      congruence.
  - cbn [AgentChat.includes].
    destruct (String.prefix w (String c text)) eqn:Hpre.
    + apply prefix_spec in Hpre as (post & H). split; [|intros _; reflexivity].
      intros _. exists "", post. exact H.
    + rewrite IH. split.
      * intros (pre & post & H). exists (String c pre), post.
        change (String c text = String c (pre +:+ w +:+ post)). now rewrite H.
      * intros (pre & post & H). destruct pre as [|x pre].
        -- assert (String.prefix w (String c text) = true) as Ht
             by (apply prefix_spec; exists post; exact H).
           congruence.
        -- change (String c text = String x (pre +:+ w +:+ post)) in H.
           exists pre, post. congruence.
Qed.

Lemma includes_trans (text w u : string) :
  AgentChat.includes text w = true ->
  AgentChat.includes w u = true ->
  AgentChat.includes text u = true.
Proof.
  rewrite !includes_spec. intros (p1 & q1 & ->) (p2 & q2 & ->).
  exists (p1 +:+ p2), (q2 +:+ q1).
  now rewrite !string_app_assoc.
Qed.

(** X18. Keywords are matched as substrings, so a keyword found inside
    another one counts: an input with a positive keyword that contains a
    word of emphasis (as "awesome" contains "so") and with no negative
    keyword is celebrated with intensity 8. *)
Theorem keyword_inside_keyword_is_emphasis (toLowerCase : string -> string)
    (input p e : string) :
  In p AgentChat.positive ->
  In e AgentChat.emphasis ->
  AgentChat.includes p e = true ->
  AgentChat.includes (toLowerCase input) p = true ->
  ~ mentions (toLowerCase input) AgentChat.negative ->
  let r := AgentChat.analyzeSentiment toLowerCase input in
  AgentChat.sentiment r = "positive"
  /\ AgentChat.intensity r = 8%Z
  /\ AgentChat.should_celebrate r = true.
Proof.
  intros Hp He Hpe Hin Hneg r. subst r.
  assert (existsb (fun w => AgentChat.includes (toLowerCase input) w)
            AgentChat.positive = true) as H1
    by (apply mentions_existsb; exists p; auto).
  assert (existsb (fun w => AgentChat.includes (toLowerCase input) w)
            AgentChat.emphasis = true) as H2.
  { apply mentions_existsb. exists e. split; [exact He|].
    exact (includes_trans _ _ _ Hin Hpe). }
  apply not_mentions_existsb in Hneg.
  unfold AgentChat.analyzeSentiment. rewrite H1, H2, Hneg.
  repeat split.
Qed.

Lemma keyword_inside_keyword_witness :
  let r := AgentChat.analyzeSentiment AgentChat.ascii_toLowerCase
             "That was AWESOME" in
  AgentChat.sentiment r = "positive"
  /\ AgentChat.intensity r = 8%Z
  /\ AgentChat.should_celebrate r = true.
Proof.
  apply (keyword_inside_keyword_is_emphasis AgentChat.ascii_toLowerCase
           "That was AWESOME" "awesome" "so").
  - simpl; auto 10.
  - simpl; auto 10.
  - reflexivity.
  - reflexivity.
  - apply not_mentions_existsb. reflexivity.
Defined.

(** ** agent-chat-fast: [quickAnalyze] *)

Lemma mentions_incl text (small large : list string) :
  incl small large -> mentions text small -> mentions text large.
Proof. intros Hi (w & Hw & Hin). exists w. auto. Qed.

Lemma quick_positive_incl :
  incl AgentChatFast.positive_pattern AgentChat.positive.
Proof. apply incl_by_computation. vm_compute. reflexivity. Qed.

Lemma quick_negative_incl :
  incl AgentChatFast.negative_pattern AgentChat.negative.
Proof. apply incl_by_computation. vm_compute. reflexivity. Qed.

Lemma quick_hinglish_incl :
  incl AgentChatFast.hinglish_pattern
    (AgentChat.Object_keys AgentChat.dictionary).
Proof. apply incl_by_computation. vm_compute. reflexivity. Qed.

(** X19. In the fast chat a negative word wins over a positive one, where
    [analyzeSentiment] calls such an input neutral; beyond that the two
    never contradict each other: what [quickAnalyze] calls positive is
    not negative for [analyzeSentiment], and what it calls negative is not
    positive. *)
Theorem quick_and_full_sentiment_never_contradict
    (toLowerCase : string -> string) (input : string) :
  let text := toLowerCase input in
  let q := AgentChatFast.quickAnalyze toLowerCase input in
  let r := AgentChat.analyzeSentiment toLowerCase input in
  (AgentChatFast.sentiment q = "negative"
   <-> mentions text AgentChatFast.negative_pattern)
  /\ (AgentChatFast.sentiment q = "positive"
      <-> mentions text AgentChatFast.positive_pattern
          /\ ~ mentions text AgentChatFast.negative_pattern)
  /\ (AgentChatFast.sentiment q = "positive"
      -> AgentChat.sentiment r <> "negative")
  /\ (AgentChatFast.sentiment q = "negative"
      -> AgentChat.sentiment r <> "positive")
  /\ (mentions text AgentChatFast.positive_pattern ->
      mentions text AgentChatFast.negative_pattern ->
      AgentChatFast.sentiment q = "negative"
      /\ AgentChat.sentiment r = "neutral").
Proof.
  intros text q r.
  destruct (sentiment_spec toLowerCase input) as (Hpos & Hneg & Hmix).
  fold text r in Hpos, Hneg, Hmix.
  pose proof (mentions_incl text _ _ quick_positive_incl) as Ip.
  pose proof (mentions_incl text _ _ quick_negative_incl) as In'.
  subst q. unfold AgentChatFast.quickAnalyze, AgentChatFast.matches.
  fold text.
  destruct (existsb _ AgentChatFast.positive_pattern) eqn:Hp;
  destruct (existsb _ AgentChatFast.negative_pattern) eqn:Hn;
  first [apply mentions_existsb in Hp | apply not_mentions_existsb in Hp];
  first [apply mentions_existsb in Hn | apply not_mentions_existsb in Hn];
  cbn [AgentChatFast.sentiment];
  repeat match goal with
         | |- _ /\ _ => split
         | |- _ <-> _ => split
         | |- _ -> _ => intros ?
         end;
  try reflexivity; try tauto; try congruence; try discriminate;
  try (rewrite Hneg; tauto); try (rewrite Hpos; tauto).
Qed.

(** X20. When lower-casing leaves no capital ASCII letter, the Hinglish
    flag of the fast chat is never raised without cause: the word it saw
    is a word of the dictionary, so [analyzeHinglish] detects Hinglish as
    well and lists that word. *)
Theorem quick_hinglish_is_detected_hinglish (toLowerCase : string -> string)
    (input : string) :
  AgentChat.ascii_toLowerCase (toLowerCase input) = toLowerCase input ->
  AgentChatFast.hinglish (AgentChatFast.quickAnalyze toLowerCase input) = true ->
  AgentChat.is_hinglish (AgentChat.analyzeHinglish toLowerCase input) = true
  /\ exists w,
       In w AgentChatFast.hinglish_pattern
       /\ In w (AgentChat.detected_words
                  (AgentChat.analyzeHinglish toLowerCase input)).
Proof.
  intros Hlow Hq.
  unfold AgentChatFast.quickAnalyze, AgentChatFast.test_i,
    AgentChatFast.matches in Hq.
  cbn [AgentChatFast.hinglish] in Hq. rewrite Hlow in Hq.
  apply mentions_existsb in Hq as (w & Hw & Hin).
  assert (In w (AgentChat.detected_words
                  (AgentChat.analyzeHinglish toLowerCase input))) as Hd.
  { apply detected_words_spec. split; [|exact Hin].
    apply quick_hinglish_incl, Hw. }
  split; [apply is_hinglish_spec; eauto | eauto].
Qed.

Lemma quick_hinglish_witness :
  AgentChat.is_hinglish
    (AgentChat.analyzeHinglish AgentChat.ascii_toLowerCase "Kya baat hai")
  = true
  /\ exists w,
       In w AgentChatFast.hinglish_pattern
       /\ In w (AgentChat.detected_words
                  (AgentChat.analyzeHinglish AgentChat.ascii_toLowerCase
                     "Kya baat hai")).
Proof.
  apply (quick_hinglish_is_detected_hinglish AgentChat.ascii_toLowerCase
           "Kya baat hai"); reflexivity.
Defined.

(** ** agent-chat-fast: the chat loop *)

Lemma fast_processMessage_spec toLowerCase llm elapsed input s :
  AgentChatFast.processMessage toLowerCase llm elapsed input s
  = (match llm (calls s) input
             (AgentChatFast.sentiment
                (AgentChatFast.quickAnalyze toLowerCase input)) with
     | Return response => Return (response, elapsed (calls s))
     | Throw e => Throw e
     end,
     {| chain := chain s; built := built s; calls := S (calls s);
        trace := trace s ++ [ev_chat input] |}).
Proof.
  unfold AgentChatFast.processMessage. run.
  destruct (llm (calls s) input _); reflexivity.
Qed.

Lemma fast_chat_session toLowerCase llm elapsed inputs :
  forall s,
    exists s',
      AgentChatFast.chat toLowerCase llm elapsed inputs s = (Return tt, s')
      /\ calls s' = calls s + length (asked_fast toLowerCase inputs)
      /\ chat_messages (trace s')
         = chat_messages (trace s) ++ asked_fast toLowerCase inputs
      /\ chain s' = chain s
      /\ built s' = built s.
Proof.
  induction inputs as [|input rest IH]; intros s.
  - cbn [AgentChatFast.chat asked_fast].
    unfold mbind, M_bind, bind, emit, ret.
    eexists. split; [reflexivity|]. cbn [calls chain built trace length].
    rewrite chat_messages_app. simpl. rewrite !app_nil_r. repeat split; lia.
  - cbn [AgentChatFast.chat asked_fast]. step. unfold emit at 1.
    destruct (String.eqb (toLowerCase input) "quit").
    { unfold console_log, emit. eexists. split; [reflexivity|].
      cbn [calls chain built trace length].
      rewrite !chat_messages_app. simpl. rewrite !app_nil_r.
      repeat split; lia. }
    step. unfold console_log at 1, emit at 1. step.
    unfold try_catch. step. rewrite fast_processMessage_spec.
    cbn [calls chain built trace].
    destruct (llm (calls s) input _) as [r|e].
    + do 2 (try step; unfold console_log at 1, emit at 1).
      match goal with
      | |- context [AgentChatFast.chat _ _ _ rest ?s0] =>
          destruct (IH s0) as (s' & -> & Hn & Hm & Hc & Hb)
      end.
      exists s'. split; [reflexivity|].
      cbn [calls chain built trace length] in *.
      rewrite Hm, !chat_messages_app. simpl.
      rewrite ?app_nil_r, <- ?app_assoc. repeat split; auto; lia.
    + unfold console_error, emit.
      match goal with
      | |- context [AgentChatFast.chat _ _ _ rest ?s0] =>
          destruct (IH s0) as (s' & -> & Hn & Hm & Hc & Hb)
      end.
      exists s'. split; [reflexivity|].
      cbn [calls chain built trace length] in *.
      rewrite Hm, !chat_messages_app. simpl.
      rewrite ?app_nil_r, <- ?app_assoc. repeat split; auto; lia.
Qed.

(** X21. The fast chat never throws: the model receives, in order and
    once each, every line typed before the first one whose lower-casing is
    "quit", blank lines included, and a failure of the model does not end
    the chat. *)
Theorem fast_chat_asks_every_line toLowerCase llm elapsed inputs s :
  exists s',
    AgentChatFast.chat toLowerCase llm elapsed inputs s = (Return tt, s')
    /\ calls s' = calls s + length (asked_fast toLowerCase inputs)
    /\ chat_messages (trace s')
       = chat_messages (trace s) ++ asked_fast toLowerCase inputs.
Proof.
  destruct (fast_chat_session toLowerCase llm elapsed inputs s)
    as (s' & Hr & Hn & Hm & _).
  exists s'. auto.
Qed.

Lemma asked_sublist (toLowerCase trim : string -> string)
    (inputs : list string) :
  trim "quit" = "quit" ->
  sublist (asked toLowerCase trim inputs) (asked_fast toLowerCase inputs).
Proof.
  intros Htrim. induction inputs as [|input rest IH]; cbn [asked asked_fast].
  - constructor.
  - unfold AgentChat.is_quit.
    destruct (String.eqb (toLowerCase input) "quit") eqn:Hq.
    + apply String.eqb_eq in Hq. rewrite Hq, Htrim. constructor.
    + destruct (_ || _); [apply sublist_nil_l|].
      destruct (String.eqb (trim input) "").
      * now apply sublist_cons.
      * now apply sublist_skip.
Qed.

Lemma asked_same (toLowerCase trim : string -> string)
    (inputs : list string) :
  trim "quit" = "quit" ->
  (forall line, In line inputs ->
     String.eqb (trim line) "" = false
     /\ (AgentChat.is_quit toLowerCase trim line = true ->
         toLowerCase line = "quit")) ->
  asked toLowerCase trim inputs = asked_fast toLowerCase inputs.
Proof.
  intros Htrim. induction inputs as [|input rest IH]; intros Hall;
    cbn [asked asked_fast]; [reflexivity|].
  destruct (Hall input (or_introl eq_refl)) as (Hblank & Hquit).
  assert (IH' : asked toLowerCase trim rest = asked_fast toLowerCase rest)
    by (apply IH; intros line Hin; apply Hall; now right).
  destruct (AgentChat.is_quit toLowerCase trim input) eqn:Hq.
  - rewrite (Hquit eq_refl). reflexivity.
  - rewrite Hblank.
    destruct (String.eqb (toLowerCase input) "quit") eqn:Hf.
    + apply String.eqb_eq in Hf. unfold AgentChat.is_quit in Hq.
      rewrite Hf, Htrim in Hq. discriminate Hq.
    + now rewrite IH'.
Qed.

(** X22. The fast chat stops no earlier than the full one: when trimming
    leaves "quit" alone, the lines that [askQuestion] of agent-chat.js
    sends to the model are, in the same order, among the lines that [chat]
    of the fast version sends for the same input; and when no line is
    blank and the only line that ends the full chat reads "quit" in lower
    case, the two loops send the same lines. *)
Theorem full_chat_asks_a_sublist_of_the_fast_chat
    (toLowerCase trim : string -> string)
    (llm : nat -> AgentChat.prompt_variables -> outcome string)
    (llm_fast : nat -> string -> string -> outcome string)
    (elapsed : nat -> Z) (inputs : list string) :
  trim "quit" = "quit" ->
  let full :=
    chat_messages
      (trace (snd (AgentChat.askQuestion toLowerCase llm trim inputs fresh))) in
  let fast :=
    chat_messages
      (trace (snd (AgentChatFast.chat toLowerCase llm_fast elapsed inputs
                     fresh))) in
  sublist full fast
  /\ ((forall line, In line inputs ->
         String.eqb (trim line) "" = false
         /\ (AgentChat.is_quit toLowerCase trim line = true ->
             toLowerCase line = "quit")) ->
      full = fast).
Proof.
  intros Htrim full fast. subst full fast.
  destruct (askQuestion_session toLowerCase llm trim inputs fresh)
    as (s1 & H1 & _ & M1 & _).
  destruct (fast_chat_session toLowerCase llm_fast elapsed inputs fresh)
    as (s2 & H2 & _ & M2 & _).
  rewrite H1, H2. cbn [snd]. rewrite M1, M2.
  cbn [fresh trace chat_messages app].
  split; [now apply asked_sublist|].
  intros Hall. now apply asked_same.
Qed.

Lemma full_chat_sublist_witness :
  sublist
    (chat_messages
       (trace (snd (AgentChat.askQuestion AgentChat.ascii_toLowerCase
                      (fun _ _ => Return "ok") AgentChat.ascii_trim
                      ["kya baat hai"; "  "; " Exit "; "thak gaya"; "quit"]
                      fresh))))
    (chat_messages
       (trace (snd (AgentChatFast.chat AgentChat.ascii_toLowerCase
                      (fun _ _ _ => Return "ok") (fun _ => 120%Z)
                      ["kya baat hai"; "  "; " Exit "; "thak gaya"; "quit"]
                      fresh)))).
Proof.
  apply (full_chat_asks_a_sublist_of_the_fast_chat
           AgentChat.ascii_toLowerCase AgentChat.ascii_trim
           (fun _ _ => Return "ok") (fun _ _ _ => Return "ok")
           (fun _ => 120%Z)
           ["kya baat hai"; "  "; " Exit "; "thak gaya"; "quit"]).
  reflexivity.
Defined.

(** ** speed-test.js: the ranking *)

Lemma insert_by_duration_perm x l :
  Permutation (SpeedTest.insert_by_duration x l) (x :: l).
Proof.
  induction l as [|y l IH]; simpl; [reflexivity|].
  destruct (_ <=? _)%Z; [reflexivity|].
  rewrite IH. apply perm_swap.
Qed.

Lemma sort_by_duration_perm l : Permutation (SpeedTest.sort_by_duration l) l.
Proof.
  induction l as [|x l IH]; simpl; [reflexivity|].
  rewrite insert_by_duration_perm. now constructor.
Qed.

Lemma insert_by_duration_sorted x l :
  StronglySorted by_duration l ->
  StronglySorted by_duration (SpeedTest.insert_by_duration x l).
Proof.
  induction 1 as [|y l Hs IH Hy]; simpl.
  - repeat constructor.
  - destruct (_ <=? _)%Z eqn:Hle.
    + apply Z.leb_le in Hle. constructor; [now constructor|].
      constructor; [exact Hle|].
      eapply List.Forall_impl; [|exact Hy].
      intros z Hz. unfold by_duration in *. lia.
    + apply Z.leb_gt in Hle. constructor; [exact IH|].
      rewrite (insert_by_duration_perm x l).
      constructor; [unfold by_duration; lia | exact Hy].
Qed.

Lemma sort_by_duration_sorted l :
  StronglySorted by_duration (SpeedTest.sort_by_duration l).
Proof.
  induction l as [|x l IH]; simpl; [constructor|].
  now apply insert_by_duration_sorted.
Qed.

Lemma insert_by_duration_stable d x l :
  List.filter (fun r => (SpeedTest.duration (SpeedTest.result r) =? d)%Z)
    (SpeedTest.insert_by_duration x l)
  = List.filter (fun r => (SpeedTest.duration (SpeedTest.result r) =? d)%Z)
      (x :: l).
Proof.
  induction l as [|y l IH]; [reflexivity|].
  cbn [SpeedTest.insert_by_duration].
  destruct (_ <=? _)%Z eqn:Hle; [reflexivity|].
  apply Z.leb_gt in Hle.
  cbn [List.filter] in *. rewrite IH.
  destruct (Z.eqb_spec (SpeedTest.duration (SpeedTest.result x)) d);
    destruct (Z.eqb_spec (SpeedTest.duration (SpeedTest.result y)) d);
    try reflexivity; lia.
Qed.

Lemma sort_by_duration_stable d l :
  List.filter (fun r => (SpeedTest.duration (SpeedTest.result r) =? d)%Z)
    (SpeedTest.sort_by_duration l)
  = List.filter (fun r => (SpeedTest.duration (SpeedTest.result r) =? d)%Z) l.
Proof.
  induction l as [|x l IH]; [reflexivity|].
  cbn [SpeedTest.sort_by_duration]. rewrite insert_by_duration_stable.
  cbn [List.filter]. now rewrite IH.
Qed.

Lemma filter_partition_perm {A} (f : A -> bool) (l : list A) :
  Permutation (List.filter f l ++ List.filter (fun x => negb (f x)) l) l.
Proof.
  induction l as [|x l IH]; [reflexivity|]. simpl.
  destruct (f x); simpl.
  - now constructor.
  - symmetry. apply Permutation_cons_app. now symmetry.
Qed.

Lemma successfulResults_perm results :
  Permutation (SpeedTest.successfulResults results)
    (List.filter (fun r => SpeedTest.success (SpeedTest.result r)) results).
Proof. apply sort_by_duration_perm. Qed.

Lemma successfulResults_head results fastest rest r :
  SpeedTest.successfulResults results = fastest :: rest ->
  In r results -> SpeedTest.success (SpeedTest.result r) = true ->
  by_duration fastest r.
Proof.
  intros Heq Hin Hok.
  pose proof (sort_by_duration_sorted
                (List.filter (fun r => SpeedTest.success (SpeedTest.result r))
                   results)) as Hs.
  assert (Hr : In r (SpeedTest.successfulResults results)).
  { eapply Permutation_in; [symmetry; apply successfulResults_perm|].
    apply List.filter_In. auto. }
  fold (SpeedTest.successfulResults results) in Hs.
  rewrite Heq in Hs, Hr. inversion Hs as [|? ? _ Hall]; subst.
  destruct Hr as [<-|Hr]; [unfold by_duration; lia|].
  rewrite List.Forall_forall in Hall. auto.
Qed.

(** X23. The ranking of the speed test is complete and in order: every
    result is listed exactly once, under the ranking when its model
    answered and under the failures when it did not; the ranking ascends
    by duration, so its first entry is a fastest model; and models of
    equal duration keep the order in which they were tested. *)
Theorem ranking_is_complete_and_sorted (results : list SpeedTest.tested) :
  let ranked := SpeedTest.successfulResults results in
  let failed := SpeedTest.failed results in
  Permutation (ranked ++ failed) results
  /\ Forall (fun r => SpeedTest.success (SpeedTest.result r) = true) ranked
  /\ Forall (fun r => SpeedTest.success (SpeedTest.result r) = false) failed
  /\ StronglySorted by_duration ranked
  /\ (forall fastest rest r,
        ranked = fastest :: rest ->
        In r results -> SpeedTest.success (SpeedTest.result r) = true ->
        by_duration fastest r)
  /\ (forall d,
        List.filter
          (fun r => (SpeedTest.duration (SpeedTest.result r) =? d)%Z) ranked
        = List.filter
            (fun r => SpeedTest.success (SpeedTest.result r)
                      && (SpeedTest.duration (SpeedTest.result r) =? d)%Z)
            results).
Proof.
  intros ranked failed. subst ranked failed.
  unfold SpeedTest.successfulResults, SpeedTest.failed.
  set (ok := fun r => SpeedTest.success (SpeedTest.result r)).
  assert (Hperm : Permutation (SpeedTest.sort_by_duration (List.filter ok results))
                    (List.filter ok results))
    by apply sort_by_duration_perm.
  split; [|split; [|split; [|split; [|split]]]].
  - rewrite Hperm. apply filter_partition_perm.
  - rewrite Hperm. apply List.Forall_forall. intros r Hr.
    apply List.filter_In in Hr. tauto.
  - apply List.Forall_forall. intros r Hr.
    apply List.filter_In in Hr as [_ Hr]. now apply negb_true_iff in Hr.
  - apply sort_by_duration_sorted.
  - intros fastest rest r. apply successfulResults_head.
  - intros d. rewrite sort_by_duration_stable. clear Hperm.
    induction results as [|x l IH]; [reflexivity|].
    cbn [List.filter]. unfold ok at 1.
    destruct (SpeedTest.success (SpeedTest.result x)); cbn [List.filter andb].
    + destruct (_ =? _)%Z; now rewrite IH.
    + exact IH.
Qed.

(** ** speed-test.js: the run *)

Lemma extended_extended s a b :
  extended (extended s a) b = extended s (a ++ b).
Proof. unfold extended. simpl. now rewrite app_assoc. Qed.

Lemma logs_only_console_log line : logs_only (console_log line).
Proof. intros s. exists [ev_log line]. split; [reflexivity|]. now repeat constructor. Qed.

Lemma logs_only_ret : logs_only (mret tt).
Proof.
  intros s. exists []. split; [|constructor].
  unfold extended. rewrite app_nil_r. now destruct s.
Qed.

Lemma logs_only_seq (m k : M unit) :
  logs_only m -> logs_only k -> logs_only (m ;; k).
Proof.
  intros Hm Hk s. destruct (Hm s) as (a & Ha & Fa).
  destruct (Hk (extended s a)) as (b & Hb & Fb).
  exists (a ++ b). split; [|now apply Forall_app].
  unfold mbind, M_bind, bind. rewrite Ha, Hb. now rewrite extended_extended.
Qed.

Lemma seq_logs {B} (m : M unit) (k : M B) (s : state) :
  logs_only m ->
  exists new, (m ;; k) s = k (extended s new)
              /\ Forall (fun e => is_log e = true) new.
Proof.
  intros Hm. destruct (Hm s) as (a & Ha & Fa). exists a.
  split; [|exact Fa]. unfold mbind, M_bind, bind. now rewrite Ha.
Qed.

Create HintDb logs.
#[local] Hint Resolve logs_only_console_log logs_only_ret logs_only_seq
  : logs.

Lemma print_ranked_logs toFixed2 ranked :
  forall index, logs_only (SpeedTest.print_ranked toFixed2 index ranked).
Proof.
  induction ranked as [|r rest IH]; intros index;
    cbn [SpeedTest.print_ranked]; auto 10 with logs.
Qed.

Lemma print_failed_logs failed : logs_only (SpeedTest.print_failed failed).
Proof.
  induction failed as [|f rest IH]; cbn [SpeedTest.print_failed];
    auto with logs.
Qed.

Lemma recommend_logs ranked : logs_only (SpeedTest.recommend ranked).
Proof.
  destruct ranked as [|fastest rest]; cbn [SpeedTest.recommend];
    [auto with logs|].
  repeat apply logs_only_seq; auto with logs.
  destruct (_ <? 2000)%Z; [auto with logs|].
  destruct (_ <? 5000)%Z; auto with logs.
Qed.

Lemma recommend_fastest fastest rest s :
  exists new,
    SpeedTest.recommend (fastest :: rest) s = (Return tt, extended s new)
    /\ Forall (fun e => is_log e = true) new
    /\ In (ev_log (fastest_line (SpeedTest.model (SpeedTest.result fastest))
                     (SpeedTest.duration (SpeedTest.result fastest)))) new.
Proof.
  cbn [SpeedTest.recommend]. step. unfold console_log at 1, emit at 1.
  match goal with
  | |- context [(?m ;; ?k) ?s0] =>
      assert (logs_only (m ;; k)) as Hrest
  end.
  { repeat apply logs_only_seq; auto with logs.
    destruct (_ <? 2000)%Z; [auto with logs|].
    destruct (_ <? 5000)%Z; auto with logs. }
  match goal with
  | |- context [(?m ;; ?k) ?s0] => destruct (Hrest s0) as (new & -> & Fnew)
  end.
  eexists (_ :: new). split; [|split].
  - unfold extended. cbn [chain built calls trace].
    rewrite <- app_assoc. reflexivity.
  - constructor; [reflexivity | exact Fnew].
  - left. reflexivity.
Qed.

Lemma stdout_writes_logs new :
  Forall (fun e => is_log e = true) new -> stdout_writes new = [].
Proof.
  induction 1 as [|e l He _ IH]; [reflexivity|].
  destruct e; try discriminate He. exact IH.
Qed.

Lemma logs_are_output new :
  Forall (fun e => is_log e = true) new ->
  Forall (fun e => is_output e = true) new.
Proof.
  apply List.Forall_impl. intros e He. destruct e; try discriminate He.
  reflexivity.
Qed.

Lemma test_each_spec invoke elapsed models :
  forall results s,
    exists new,
      SpeedTest.test_each invoke elapsed models results s
      = (Return (results ++ measured invoke elapsed (calls s) models),
         {| chain := chain s; built := built s;
            calls := calls s + length models; trace := trace s ++ new |})
      /\ stdout_writes new = map testing_line models
      /\ Forall (fun e => is_output e = true) new.
Proof.
  induction models as [|m rest IH]; intros results s.
  - exists []. cbn [SpeedTest.test_each measured length map].
    rewrite !app_nil_r, Nat.add_0_r. split; [now destruct s|].
    split; [reflexivity | constructor].
  - cbn [SpeedTest.test_each measured length map]. step.
    unfold emit at 1. step. unfold SpeedTest.testModel at 1. step.
    unfold next_call at 1. unfold mret, M_ret, ret at 1.
    cbn [calls chain built trace].
    set (r := SpeedTest.make_result _ _ _).
    match goal with
    | |- context [(?c ;; ?k) ?s0] =>
        destruct (seq_logs c k s0) as (a & -> & Fa)
    end.
    { destruct (SpeedTest.success r); auto with logs. }
    match goal with
    | |- context [SpeedTest.test_each _ _ rest ?rs ?s0] =>
        destruct (IH rs s0) as (new & -> & Hw & Fnew)
    end.
    exists ([ev_stdout (testing_line m)] ++ a ++ new).
    unfold extended. cbn [calls chain built trace].
    split; [|split].
    + rewrite <- !app_assoc, Nat.add_succ_r. reflexivity.
    + rewrite !stdout_writes_app, (stdout_writes_logs a Fa), Hw. reflexivity.
    + apply Forall_app. split; [now repeat constructor|].
      apply Forall_app. split; [now apply logs_are_output | exact Fnew].
Qed.

Lemma runTests_fields invoke elapsed toFixed2 s :
  exists new,
    SpeedTest.runTests invoke elapsed toFixed2 s
    = (Return tt,
       {| chain := chain s; built := built s; calls := calls s + 5;
          trace := trace s ++ new |})
    /\ stdout_writes new = map testing_line SpeedTest.modelsToTest
    /\ Forall (fun e => is_output e = true) new
    /\ match SpeedTest.successfulResults
               (measured invoke elapsed (calls s) SpeedTest.modelsToTest) with
       | [] => True
       | fastest :: _ =>
           In (ev_log (fastest_line
                         (SpeedTest.model (SpeedTest.result fastest))
                         (SpeedTest.duration (SpeedTest.result fastest))))
              new
       end.
Proof.
  unfold SpeedTest.runTests. step.
  destruct (test_each_spec invoke elapsed SpeedTest.modelsToTest [] s)
    as (new0 & -> & Hw & F0).
  cbv beta iota zeta. cbn [app].
  change (length SpeedTest.modelsToTest) with 5.
  set (rows := measured invoke elapsed (calls s) SpeedTest.modelsToTest).
  set (s0 := {| chain := chain s; built := built s; calls := calls s + 5;
                trace := trace s ++ new0 |}).
  match goal with |- context [(?c ;; ?k) ?st] =>
    destruct (seq_logs c k st) as (n1 & -> & F1); [auto with logs|] end.
  match goal with |- context [(?c ;; ?k) ?st] =>
    destruct (seq_logs c k st) as (n2 & -> & F2); [auto with logs|] end.
  match goal with |- context [(?c ;; ?k) ?st] =>
    destruct (seq_logs c k st) as (n3 & -> & F3);
      [apply print_ranked_logs|] end.
  match goal with |- context [(?c ;; ?k) ?st] =>
    destruct (seq_logs c k st) as (n4 & -> & F4); [auto with logs|] end.
  match goal with |- context [(?c ;; ?k) ?st] =>
    destruct (seq_logs c k st) as (n5 & -> & F5); [auto with logs|] end.
  step.
  assert (exists n6,
            SpeedTest.recommend (SpeedTest.successfulResults rows)
              (extended (extended (extended (extended (extended s0 n1) n2) n3) n4) n5)
            = (Return tt,
               extended (extended (extended (extended (extended (extended s0 n1) n2) n3) n4) n5) n6)
            /\ Forall (fun e => is_log e = true) n6
            /\ match SpeedTest.successfulResults rows with
               | [] => True
               | fastest :: _ =>
                   In (ev_log (fastest_line
                                 (SpeedTest.model (SpeedTest.result fastest))
                                 (SpeedTest.duration (SpeedTest.result fastest))))
                      n6
               end) as (n6 & -> & F6 & Hfast).
  { destruct (SpeedTest.successfulResults rows) as [|fastest rest].
    - destruct (recommend_logs [] (extended (extended (extended (extended (extended s0 n1) n2) n3) n4) n5))
        as (n6 & H6 & F6). eauto.
    - apply recommend_fastest. }
  match goal with |- context [(?c ;; ?k) ?st] =>
    destruct (seq_logs c k st) as (n7 & -> & F7) end.
  { destruct (0 <? _)%nat; [|auto with logs].
    apply logs_only_seq; [auto with logs | apply print_failed_logs]. }
  match goal with |- context [(?c ;; ?k) ?st] =>
    destruct (seq_logs c k st) as (n8 & -> & F8); [auto with logs|] end.
  match goal with |- context [(?c ;; ?k) ?st] =>
    destruct (seq_logs c k st) as (n9 & -> & F9); [auto with logs|] end.
  match goal with |- context [(?c ;; ?k) ?st] =>
    destruct (seq_logs c k st) as (n10 & -> & F10); [auto with logs|] end.
  match goal with |- context [console_log ?l ?st] =>
    destruct (logs_only_console_log l st) as (n11 & -> & F11) end.
  rewrite !extended_extended.
  exists (new0 ++ n1 ++ n2 ++ n3 ++ n4 ++ n5 ++ n6 ++ n7 ++ n8 ++ n9 ++ n10 ++ n11).
  assert (Flogs : Forall (fun e => is_log e = true)
                    (n1 ++ n2 ++ n3 ++ n4 ++ n5 ++ n6 ++ n7 ++ n8 ++ n9
                     ++ n10 ++ n11))
    by (repeat (apply Forall_app; split); assumption).
  split; [|split; [|split]].
  - unfold extended, s0. cbn [chain built calls trace].
    now rewrite <- app_assoc.
  - rewrite stdout_writes_app, (stdout_writes_logs _ Flogs), app_nil_r.
    exact Hw.
  - apply Forall_app. split; [exact F0 | now apply logs_are_output].
  - destruct (SpeedTest.successfulResults rows); [exact I|].
    apply in_or_app. right. do 5 (apply in_or_app; right).
    apply in_or_app. left. exact Hfast.
Qed.

(** X24. [runTests] never throws, even when every model fails: it tests
    each of the five models exactly once, in the order of [modelsToTest],
    and apart from the five calls it only writes to the console and the
    standard output. *)
Theorem speed_test_tries_every_model
    (invoke : nat -> string -> outcome string) (elapsed : nat -> Z)
    (toFixed2 : Z -> string) (s : state) :
  exists s' new,
    SpeedTest.runTests invoke elapsed toFixed2 s = (Return tt, s')
    /\ calls s' = calls s + 5
    /\ chain s' = chain s
    /\ built s' = built s
    /\ trace s' = trace s ++ new
    /\ stdout_writes new
       = map testing_line SpeedTest.modelsToTest
    /\ Forall (fun e => is_output e = true) new.
Proof.
  destruct (runTests_fields invoke elapsed toFixed2 s)
    as (new & Hrun & Hw & Fnew & _).
  eexists _, new. split; [exact Hrun|]. cbn [calls chain built trace].
  auto 10.
Qed.

Lemma measured_In invoke elapsed models :
  forall n row,
    In row (measured invoke elapsed n models)
    <-> exists i m,
          models !! i = Some m
          /\ row = {| SpeedTest.result :=
                        SpeedTest.make_result (SpeedTest.name m)
                          (invoke (n + i) (SpeedTest.name m)) (elapsed (n + i));
                      SpeedTest.tested_description := SpeedTest.description m |}.
Proof.
  induction models as [|m rest IH]; intros n row; cbn [measured In].
  - split; [intros [] | intros (i & m & H & _); destruct i; discriminate H].
  - rewrite IH. split.
    + intros [<-|(i & m' & Hi & ->)].
      * exists 0, m. rewrite Nat.add_0_r. split; reflexivity.
      * exists (S i), m'. rewrite Nat.add_succ_r. split; [exact Hi|reflexivity].
    + intros (i & m' & Hi & ->). destruct i as [|i].
      * left. rewrite Nat.add_0_r. cbn in Hi. now inversion Hi.
      * right. exists i, m'. rewrite Nat.add_succ_r. split; [exact Hi|reflexivity].
Qed.

Lemma make_result_success nm o d :
  SpeedTest.success (SpeedTest.make_result nm o d) = true
  <-> exists r, o = Return r.
Proof.
  destruct o as [r|e]; cbn.
  - split; eauto.
  - split; [discriminate | intros [r H]; discriminate H].
Qed.

Lemma make_result_fields nm o d :
  SpeedTest.model (SpeedTest.make_result nm o d) = nm
  /\ SpeedTest.duration (SpeedTest.make_result nm o d) = d.
Proof. destruct o; split; reflexivity. Qed.

(** X25. When at least one model answers, the recommendation names a
    fastest one: the line "Fastest: ..." is written for a model that
    answered, with the time measured for it, and no model that answered
    was measured faster. *)
Theorem recommendation_names_a_fastest_model
    (invoke : nat -> string -> outcome string) (elapsed : nat -> Z)
    (toFixed2 : Z -> string) (s : state) (i : nat) :
  answers invoke (calls s) i ->
  exists j m,
    SpeedTest.modelsToTest !! j = Some m
    /\ answers invoke (calls s) j
    /\ (forall k, answers invoke (calls s) k ->
                  (elapsed (calls s + j)%nat <= elapsed (calls s + k)%nat)%Z)
    /\ In (ev_log (fastest_line (SpeedTest.name m) (elapsed (calls s + j))))
          (trace (snd (SpeedTest.runTests invoke elapsed toFixed2 s))).
Proof.
  intros (mi & ri & Hmi & Hri).
  destruct (runTests_fields invoke elapsed toFixed2 s)
    as (new & -> & _ & _ & Hfast).
  set (rows := measured invoke elapsed (calls s) SpeedTest.modelsToTest) in *.
  assert (Hrow : forall k mk rk,
             SpeedTest.modelsToTest !! k = Some mk ->
             invoke (calls s + k) (SpeedTest.name mk) = Return rk ->
             exists row,
               In row rows
               /\ SpeedTest.success (SpeedTest.result row) = true
               /\ SpeedTest.duration (SpeedTest.result row)
                  = elapsed (calls s + k)).
  { intros k mk rk Hk Hrk. eexists. split; [|split].
    - apply measured_In. exists k, mk. split; [exact Hk | reflexivity].
    - cbn [SpeedTest.result]. apply make_result_success. eauto.
    - cbn [SpeedTest.result]. apply make_result_fields. }
  destruct (SpeedTest.successfulResults rows) as [|fastest rest] eqn:Hranked.
  { exfalso. destruct (Hrow i mi ri Hmi Hri) as (row & Hin & Hok & _).
    assert (In row (SpeedTest.successfulResults rows)) as Hr.
    { eapply Permutation_in; [symmetry; apply successfulResults_perm|].
      apply List.filter_In. auto. }
    rewrite Hranked in Hr. exact Hr. }
  assert (Hf : In fastest rows
               /\ SpeedTest.success (SpeedTest.result fastest) = true).
  { apply (List.filter_In (fun r => SpeedTest.success (SpeedTest.result r))).
    eapply Permutation_in; [apply successfulResults_perm|].
    rewrite Hranked. now left. }
  destruct Hf as (Hfin & Hfok).
  apply measured_In in Hfin as (j & m & Hj & Hfeq).
  assert (exists r, invoke (calls s + j) (SpeedTest.name m) = Return r)
    as (r & Hr).
  { rewrite Hfeq in Hfok. cbn [SpeedTest.result] in Hfok.
    now apply make_result_success in Hfok. }
  exists j, m. split; [exact Hj|]. split; [exists m, r; auto|]. split.
  - intros k (mk & rk & Hk & Hrk).
    destruct (Hrow k mk rk Hk Hrk) as (row & Hin & Hok & Hd).
    pose proof (successfulResults_head rows fastest rest row Hranked Hin Hok)
      as Hle.
    unfold by_duration in Hle. rewrite Hd, Hfeq in Hle.
    cbn [SpeedTest.result] in Hle.
    now rewrite (proj2 (make_result_fields _ _ _)) in Hle.
  - cbn [snd trace]. apply in_or_app. right.
    rewrite Hfeq in Hfast. cbn [SpeedTest.result] in Hfast.
    rewrite (proj1 (make_result_fields _ _ _)),
      (proj2 (make_result_fields _ _ _)) in Hfast.
    exact Hfast.
Qed.

Lemma recommendation_witness :
  exists j m,
    SpeedTest.modelsToTest !! j = Some m
    /\ answers (fun n _ => match n with
                           | 1 => Throw Observe.refused
                           | _ => Return "Hello!"
                           end) 0 j
    /\ (forall k,
          answers (fun n _ => match n with
                              | 1 => Throw Observe.refused
                              | _ => Return "Hello!"
                              end) 0 k ->
          (Z.of_nat (5 - (0 + j)) * 100 <= Z.of_nat (5 - (0 + k)) * 100)%Z)
    /\ In (ev_log (fastest_line (SpeedTest.name m)
                     (Z.of_nat (5 - (0 + j)) * 100)%Z))
          (trace (snd (SpeedTest.runTests
                         (fun n _ => match n with
                                     | 1 => Throw Observe.refused
                                     | _ => Return "Hello!"
                                     end)
                         (fun n => Z.of_nat (5 - n) * 100)%Z
                         (fun _ => "0.00") fresh))).
Proof.
  apply (recommendation_names_a_fastest_model
           (fun n _ => match n with
                       | 1 => Throw Observe.refused
                       | _ => Return "Hello!"
                       end)
           (fun n => Z.of_nat (5 - n) * 100)%Z
           (fun _ => "0.00") fresh 0).
  eexists _, "Hello!". split; reflexivity.
Defined.

(** ** setup-verification.js *)

Lemma logs_to_ret {A} (v : A) : logs_to (mret v) v.
Proof.
  intros s. exists []. split; [|constructor].
  unfold extended. rewrite app_nil_r. now destruct s.
Qed.

Lemma logs_to_bind {A B} (m : M A) (k : A -> M B) v w :
  logs_to m v -> logs_to (k v) w -> logs_to (m ≫= k) w.
Proof.
  intros Hm Hk s. destruct (Hm s) as (a & Ha & Fa).
  destruct (Hk (extended s a)) as (b & Hb & Fb).
  exists (a ++ b). split; [|now apply Forall_app].
  unfold mbind, M_bind, bind. rewrite Ha, Hb. now rewrite extended_extended.
Qed.

Lemma logs_to_log line : logs_to (console_log line) tt.
Proof. apply logs_only_console_log. Qed.

Lemma logs_to_try {A} (m : M A) (h : JS.error -> M A) v :
  logs_to m v -> logs_to (try_catch m h) v.
Proof.
  intros Hm s. destruct (Hm s) as (a & Ha & Fa). exists a.
  unfold try_catch. now rewrite Ha.
Qed.

Lemma logs_to_catch {A B} (o : outcome A) (k : A -> M B) (h : JS.error -> M B)
    (v : B) :
  match o with
  | Return a => logs_to (k a) v
  | Throw e => logs_to (h e) v
  end ->
  logs_to (try_catch (lift o ≫= k) h) v.
Proof.
  intros H s. destruct o as [a|e].
  - destruct (H s) as (new & Hk & Fnew). exists new.
    unfold try_catch, mbind, M_bind, bind, lift. now rewrite Hk.
  - destruct (H s) as (new & Hh & Fnew). exists new.
    unfold try_catch, mbind, M_bind, bind, lift. now rewrite Hh.
Qed.

Create HintDb setup.
#[local] Hint Resolve logs_to_ret logs_to_log : setup.
#[local] Hint Extern 2 (logs_to (_ ≫= _) _) =>
  eapply logs_to_bind; [solve [eauto with setup]|] : setup.

Section SetupFacts.
Variable execSync : string -> outcome string.
Variable llm_invoke : nat -> string -> outcome string.
Variable import : string -> outcome unit.
Variables trim first_field : string -> string.

Lemma check_cli_spec allPassed :
  logs_to (SetupVerification.check_cli execSync trim allPassed)
    (allPassed && returns (execSync "ollama --version")).
Proof.
  unfold SetupVerification.check_cli.
  eapply logs_to_bind; [apply logs_to_log|].
  apply logs_to_catch. destruct (execSync _); cbn [returns].
  - rewrite andb_true_r. eauto 10 with setup.
  - rewrite andb_false_r. eauto 10 with setup.
Qed.

Lemma check_server_spec allPassed :
  logs_to (SetupVerification.check_server execSync allPassed)
    (allPassed && returns (execSync "curl -s http://localhost:11434")).
Proof.
  unfold SetupVerification.check_server.
  eapply logs_to_bind; [apply logs_to_log|].
  apply logs_to_catch. destruct (execSync _); cbn [returns].
  - rewrite andb_true_r. eauto 10 with setup.
  - rewrite andb_false_r. eauto 10 with setup.
Qed.

Lemma print_models_logs lines :
  logs_to (SetupVerification.print_models first_field lines) tt.
Proof.
  induction lines as [|line rest IH]; cbn [SetupVerification.print_models];
    eauto with setup.
Qed.

Lemma check_models_spec allPassed :
  logs_to (SetupVerification.check_models execSync trim first_field allPassed)
    (allPassed && returns (execSync "ollama list")).
Proof.
  unfold SetupVerification.check_models.
  eapply logs_to_bind; [apply logs_to_log|].
  apply logs_to_catch. destruct (execSync _) as [models|e]; cbn [returns].
  - rewrite andb_true_r. cbv zeta.
    eapply logs_to_bind; [|apply logs_to_ret].
    destruct (0 <? _)%nat.
    + eapply logs_to_bind; [apply logs_to_log | apply print_models_logs].
    + eauto with setup.
  - rewrite andb_false_r. eauto 10 with setup.
Qed.

Lemma import_each_spec pkgs :
  forall missingDeps,
    logs_to (SetupVerification.import_each import pkgs missingDeps)
      (missingDeps
       ++ List.filter (fun pkg => negb (returns (import pkg))) pkgs).
Proof.
  induction pkgs as [|pkg rest IH]; intros missingDeps;
    cbn [SetupVerification.import_each List.filter].
  - rewrite app_nil_r. apply logs_to_ret.
  - destruct (import pkg) as [[]|e]; cbn [returns negb].
    + eapply logs_to_bind; [|apply IH].
      apply logs_to_catch. eauto with setup.
    + eapply logs_to_bind.
      * apply logs_to_catch. eauto with setup.
      * cbv beta.
        replace (missingDeps ++ pkg :: List.filter
                   (fun pkg => negb (returns (import pkg))) rest)
          with ((missingDeps ++ [pkg])
                ++ List.filter (fun pkg => negb (returns (import pkg))) rest)
          by (now rewrite <- app_assoc).
        apply IH.
Qed.

Lemma check_dependencies_spec allPassed :
  logs_to (SetupVerification.check_dependencies import allPassed)
    (allPassed
     && forallb (fun pkg => returns (import pkg))
          SetupVerification.requiredPackages).
Proof.
  unfold SetupVerification.check_dependencies.
  eapply logs_to_bind; [apply logs_to_log|].
  eapply logs_to_bind; [apply import_each_spec|].
  cbn [app].
  assert (H : (0 <? length (List.filter (fun pkg => negb (returns (import pkg)))
                              SetupVerification.requiredPackages))%nat
              = negb (forallb (fun pkg => returns (import pkg))
                        SetupVerification.requiredPackages)).
  { induction SetupVerification.requiredPackages as [|p l IH];
      [reflexivity|].
    cbn [List.filter forallb]. destruct (returns (import p)); cbn; auto. }
  rewrite H. destruct (forallb _ _); cbn [negb].
  - rewrite andb_true_r. apply logs_to_ret.
  - rewrite andb_false_r. eauto with setup.
Qed.

Lemma check_llm_spec allPassed s :
  exists new,
    SetupVerification.check_llm llm_invoke allPassed s
    = (Return (allPassed && returns (llm_invoke (calls s) "Hi!")),
       {| chain := chain s; built := built s; calls := S (calls s);
          trace := trace s ++ new |})
    /\ chat_messages new = ["Hi!"]
    /\ Forall (fun e => is_log e = true \/ e = ev_chat "Hi!") new.
Proof.
  unfold SetupVerification.check_llm. run.
  destruct (llm_invoke (calls s) "Hi!") as [content|e]; simpl;
    rewrite ?andb_true_r, ?andb_false_r, <- !app_assoc;
    (eexists; split; [reflexivity|]); cbn [app];
    (split; [reflexivity|]);
    repeat match goal with
           | |- Forall _ (_ :: _) =>
               constructor; [first [left; reflexivity | right; reflexivity]|]
           | |- Forall _ [] => constructor
           end.
Qed.

Lemma summary_logs allPassed : logs_to (SetupVerification.summary allPassed) tt.
Proof.
  unfold SetupVerification.summary.
  eapply logs_to_bind; [apply logs_to_log|].
  eapply logs_to_bind; [|apply logs_to_log].
  destruct allPassed; eauto 10 with setup.
Qed.

End SetupFacts.

Lemma bind_logs_to {A B} (m : M A) (k : A -> M B) (v : A) (s : state) :
  logs_to m v ->
  exists new, (m ≫= k) s = k v (extended s new)
              /\ Forall (fun e => is_log e = true) new.
Proof.
  intros Hm. destruct (Hm s) as (a & Ha & Fa). exists a.
  split; [|exact Fa]. unfold mbind, M_bind, bind. now rewrite Ha.
Qed.

Lemma statements_fields
    (execSync : string -> outcome string)
    (llm_invoke : nat -> string -> outcome string)
    (import : string -> outcome unit)
    (trim first_field : string -> string) (s : state) :
  exists checks,
    SetupVerification.statements execSync llm_invoke import trim first_field s
    = SetupVerification.summary
        (ready execSync llm_invoke import (calls s))
        {| chain := chain s; built := built s; calls := S (calls s);
           trace := trace s ++ checks |}
    /\ chat_messages checks = ["Hi!"]
    /\ Forall (fun e => is_log e = true \/ e = ev_chat "Hi!") checks.
Proof.
  set (ok := ready execSync llm_invoke import (calls s)).
  unfold SetupVerification.statements.
  match goal with |- context [(console_log ?l ≫= ?k) ?st] =>
    destruct (bind_logs_to (console_log l) k tt st (logs_to_log _))
      as (n1 & -> & F1) end.
  match goal with |- context [(console_log ?l ≫= ?k) ?st] =>
    destruct (bind_logs_to (console_log l) k tt st (logs_to_log _))
      as (n2 & -> & F2) end.
  cbv zeta.
  match goal with |- context [(?c ≫= ?k) ?st] =>
    destruct (bind_logs_to c k _ st (check_cli_spec execSync trim true))
      as (n3 & -> & F3) end.
  match goal with |- context [(?c ≫= ?k) ?st] =>
    destruct (bind_logs_to c k _ st (check_server_spec execSync _))
      as (n4 & -> & F4) end.
  match goal with |- context [(?c ≫= ?k) ?st] =>
    destruct (bind_logs_to c k _ st
                (check_models_spec execSync trim first_field _))
      as (n5 & -> & F5) end.
  rewrite !extended_extended.
  step.
  match goal with |- context [SetupVerification.check_llm _ ?b ?st] =>
    destruct (check_llm_spec llm_invoke b st) as (n6 & -> & C6 & F6) end.
  cbn [calls chain built trace extended].
  match goal with |- context [(?c ≫= ?k) ?st] =>
    destruct (bind_logs_to c k _ st (check_dependencies_spec import _))
      as (n7 & -> & F7) end.
  cbn [andb].
  unfold extended; cbn [calls chain built trace].
  assert (Hok : returns (execSync "ollama --version")
                && returns (execSync "curl -s http://localhost:11434")
                && returns (execSync "ollama list")
                && returns (llm_invoke (calls s) "Hi!")
                && forallb (fun pkg => returns (import pkg))
                     SetupVerification.requiredPackages = ok) by reflexivity.
  rewrite Hok. clearbody ok.
  assert (Flog : forall l, Forall (fun e => is_log e = true) l ->
                   Forall (fun e => is_log e = true \/ e = ev_chat "Hi!") l
                   /\ chat_messages l = []).
  { induction 1 as [|e l He _ [IH1 IH2]]; [split; [constructor|reflexivity]|].
    split; [constructor; auto|].
    destruct e; try discriminate He. exact IH2. }
  exists ((n1 ++ n2 ++ n3 ++ n4 ++ n5) ++ n6 ++ n7).
  rewrite <- !app_assoc.
  split; [reflexivity|]. split.
  - rewrite !chat_messages_app, C6.
    rewrite (proj2 (Flog _ F1)), (proj2 (Flog _ F2)), (proj2 (Flog _ F3)),
      (proj2 (Flog _ F4)), (proj2 (Flog _ F5)), (proj2 (Flog _ F7)).
    reflexivity.
  - repeat (apply Forall_app; split); try exact F6; now apply Flog.
Qed.

(** X26. The setup script fails at load, with nothing printed, exactly
    when its static import of [@langchain/ollama] fails. Otherwise it never
    throws, and the summary it prints is the one for the conjunction of
    its checks: "ALL TESTS PASSED" exactly when the three commands run, the
    model answers and the three packages can be imported, "SOME TESTS
    FAILED" otherwise. What [ollama list] prints does not matter: an empty
    list of models is a warning only. The model is called once, with
    "Hi!". *)
Theorem setup_verdict_is_the_conjunction_of_the_checks
    (execSync : string -> outcome string)
    (llm_invoke : nat -> string -> outcome string)
    (import : string -> outcome unit)
    (trim first_field : string -> string) (s : state) :
  let ok := ready execSync llm_invoke import (calls s) in
  let run := SetupVerification.script execSync llm_invoke import trim
               first_field s in
  match import "@langchain/ollama" with
  | Throw e => run = (Throw e, s)
  | Return _ =>
      exists checks,
        run = SetupVerification.summary ok
                {| chain := chain s; built := built s; calls := S (calls s);
                   trace := trace s ++ checks |}
        /\ fst run = Return tt
        /\ chat_messages checks = ["Hi!"]
        /\ Forall (fun e => is_log e = true \/ e = ev_chat "Hi!") checks
        /\ In (ev_log
                 (if ok then "✅ ALL TESTS PASSED - Ready for Session 1!"
                  else "❌ SOME TESTS FAILED - Please fix the issues above"))
              (trace (snd run))
        /\ ok = returns (execSync "ollama --version")
                && returns (execSync "curl -s http://localhost:11434")
                && returns (execSync "ollama list")
                && returns (llm_invoke (calls s) "Hi!")
                && returns (import "@langchain/core")
                && returns (import "zod")
  end.
Proof.
  intros ok run. subst run.
  destruct (import "@langchain/ollama") as [[]|e] eqn:Himport.
  2: { unfold SetupVerification.script, mbind, M_bind, bind, lift.
       rewrite Himport. reflexivity. }
  assert (Hs : SetupVerification.script execSync llm_invoke import trim
                 first_field s
               = SetupVerification.statements execSync llm_invoke import trim
                   first_field s).
  { unfold SetupVerification.script, mbind, M_bind, bind, lift.
    rewrite Himport. reflexivity. }
  rewrite Hs. clear Hs.
  destruct (statements_fields execSync llm_invoke import trim first_field s)
    as (checks & Hrun & Hchat & Fchecks).
  fold ok in Hrun. exists checks. rewrite Hrun.
  split; [reflexivity|].
  match goal with |- context [SetupVerification.summary ok ?st] =>
    destruct (summary_logs ok st) as (n8 & Hsum & F8) end.
  split; [now rewrite Hsum|]. split; [exact Hchat|]. split; [exact Fchecks|].
  split.
  - clear Hsum F8 n8 Hrun. unfold SetupVerification.summary. run.
    destruct ok; simpl; rewrite !in_app_iff; simpl; tauto.
  - subst ok. unfold ready. cbn [forallb SetupVerification.requiredPackages].
    rewrite Himport. cbn [returns].
    rewrite !andb_true_l, andb_true_r, !andb_assoc. reflexivity.
Qed.
